(** * vbox_cli: a command-line wrapper around [vboxmanage]

    Shallow embedding of [vbox_cli.py] and of the part of Python's standard
    library it runs on ([str], [argparse], [subprocess], the interpreter's
    treatment of uncaught exceptions), followed by the properties of the
    dispatcher.

    Conventions.
    - [argparse] is modelled as in CPython 3.11, for the kinds of actions
      the program declares.
    - A Python [str] is a [string]; a character is a code point below 256.
    - A Python value that can end up in an attribute of the parsed
      [Namespace] is a [pyval]: [None], a [str], or a list of [str].
    - Output and process creation are recorded in a trace of [event]s;
      exceptions are values of [exception]; a computation is a trace and
      either a result or the exception that ended it.
    - The operating system is a function [exec] giving, for an argument
      list, the return code of the process, or nothing when the program
      cannot be located or executed. *)

From Stdlib Require Import ZArith NArith String Ascii List Bool Lia.
From stdpp Require Import gmap strings list fin_maps.

Open Scope string_scope.
Open Scope list_scope.

(** ** Python strings *)

Module Str.

(** [str.isspace] on one character (code points below 256). *)
Definition isspace (c : ascii) : bool :=
  let n := N_of_ascii c in
  ((9 <=? n) && (n <=? 13) || (28 <=? n) && (n <=? 32)
   || (n =? 133) || (n =? 160))%N.

(** The scan of [str.split()] (no separator): [word] holds the characters
    read since the last whitespace. *)
Fixpoint split_from (word s : string) : list string :=
  match s with
  | EmptyString => if String.eqb word "" then [] else [word]
  | String c s' =>
      if isspace c
      then (if String.eqb word "" then split_from "" s'
            else word :: split_from "" s')
      else split_from (word +:+ String c "") s'
  end.

(** [s.split()] *)
Definition split (s : string) : list string := split_from "" s.

(** [c in s] for a character [c]. *)
Fixpoint contains (c : ascii) (s : string) : bool :=
  match s with
  | EmptyString => false
  | String d s' => Ascii.eqb c d || contains c s'
  end.

(** A string with some whitespace character in it. *)
Fixpoint has_space (s : string) : bool :=
  match s with
  | EmptyString => false
  | String c s' => isspace c || has_space s'
  end.

(** A string with some character that is not whitespace. *)
Fixpoint has_word (s : string) : bool :=
  match s with
  | EmptyString => false
  | String c s' => negb (isspace c) || has_word s'
  end.

(** [s.split(c, 1)] for a string that contains [c]: the text before the
    first [c] and the text after it. *)
Fixpoint split1 (c : ascii) (s : string) : string * string :=
  match s with
  | EmptyString => ("", "")
  | String d s' =>
      if Ascii.eqb c d then ("", s')
      else let '(a, b) := split1 c s' in (String d a, b)
  end.

(** [s.startswith(p)] *)
Fixpoint startswith (s p : string) {struct p} : bool :=
  match p, s with
  | EmptyString, _ => true
  | String a p', String b s' => Ascii.eqb b a && startswith s' p'
  | String _ _, EmptyString => false
  end.

(** [c in '0123456789'] *)
Definition isdigit (c : ascii) : bool :=
  let n := N_of_ascii c in ((48 <=? n) && (n <=? 57))%N.

Fixpoint all_digits (s : string) : bool :=
  match s with
  | EmptyString => true
  | String c s' => isdigit c && all_digits s'
  end.

End Str.

(** ** Python values, exceptions and effects *)

(** The values an attribute of the parsed [Namespace] can hold. *)
Inductive pyval :=
| PyNone
| PyStr (s : string)
| PyList (l : list string).

Definition is_not_None (v : pyval) : bool :=
  match v with PyNone => false | _ => true end.

(** [v == s] for a string literal [s]. *)
Definition eq_str (v : pyval) (s : string) : bool :=
  match v with PyStr t => String.eqb t s | _ => false end.

(** The messages [argparse] reports through [ArgumentParser.error]. *)
Inductive error_message :=
| expected_one_argument (option : string)
| ignored_explicit_argument (option arg : string)
| not_allowed_with (option other : string)
| ambiguous_option (arg : string) (matches : list string)
| unexpected_option_string (arg : string)
| invalid_choice (value : string)
| unknown_parser (name : string)
| arguments_required (names : list string)
| one_of_arguments_required (names : list string)
| unrecognized_arguments (args : list string).

Inductive exception :=
| SystemExit (status : Z)
| IndexError
| AttributeError (name : string)
| TypeError
| OSError
| CalledProcessError (returncode : Z) (cmd : list string).

Inductive stream := stdout | stderr.

(** What is written; the wording of usage and help texts is not modelled. *)
Inductive output :=
| usage_text
| error_text (msg : error_message)
| help_text
| line (s : string)
| traceback (e : exception).

(** [Run cmd rc]: [subprocess.run] was given the argument list [cmd]; the
    process ran and returned [rc], or ([None]) could not be started. *)
Inductive event :=
| Write (f : stream) (o : output)
| Run (cmd : list string) (returncode : option Z).

(** A computation: what it did, and its result or the exception raised. *)
Definition M (A : Type) : Type := list event * (A + exception).

#[global] Instance M_ret : MRet M := fun A a => ([], inl a).
#[global] Instance M_bind : MBind M := fun A B f m =>
  match m with
  | (t, inl a) => let '(t', r) := f a in (t ++ t', r)
  | (t, inr e) => (t, inr e)
  end.

Definition raise {A} (e : exception) : M A := ([], inr e).
Definition emit (ev : event) : M unit := ([ev], inl tt).

(** [print(s)] *)
Definition print (s : string) : M unit := emit (Write stdout (line s)).

(** The argument lists given to [subprocess.run], in order. *)
Definition spawned (t : list event) : list (list string) :=
  omap (fun ev => match ev with Run cmd _ => Some cmd | Write _ _ => None end) t.

(** What was written to a stream, in order. *)
Definition written (f : stream) (t : list event) : list output :=
  omap (fun ev => match ev with
                  | Write stdout o => match f with stdout => Some o | stderr => None end
                  | Write stderr o => match f with stderr => Some o | stdout => None end
                  | Run _ _ => None
                  end) t.

(** ** argparse *)

Module argparse.

(** How a call of [parse_args] can end other than by returning:
    [ArgumentParser.error] (usage and message on standard error, exit
    status 2) or the help action (help on standard output, exit status 0).
    An [ArgumentError] raised while a parser runs is reported through that
    parser's [error], so it is an [Error] here too. *)
Inductive exit :=
| Error (msg : error_message)
| Help.

Inductive res (A : Type) :=
| Ok (a : A)
| Exit (e : exit).
Arguments Ok {A} a.
Arguments Exit {A} e.

#[global] Instance res_ret : MRet res := fun A a => Ok a.
#[global] Instance res_bind : MBind res := fun A B f m =>
  match m with
  | Ok a => f a
  | Exit e => Exit e
  end.

(** The action classes the program uses, with their [nargs]:
    [store] takes one argument ([nargs=None]); [store_const] and help take
    none ([nargs=0]); the sub-commands action takes the rest of the command
    line ([nargs=PARSER]).  Help and the sub-commands action have
    [dest=SUPPRESS]; only help has [default=SUPPRESS], the others default to
    [None]. *)
Inductive action_class :=
| _StoreAction
| _StoreConstAction (const : pyval)
| _HelpAction
| _SubParsersAction (choices : list string).

Record Action := {
  option_strings : list string;
  dest : option string;
  required : bool;
  class : action_class;
}.

(** A mutually exclusive group: its actions are positions in the parser's
    list of actions (an action is identified by its position, as Python
    identifies it by object identity). *)
Record _MutuallyExclusiveGroup := {
  group_required : bool;
  _group_actions : list nat;
}.

Record ArgumentParser := {
  _actions : list Action;
  _mutually_exclusive_groups : list _MutuallyExclusiveGroup;
}.

Definition prefix_chars : string := "-".

(** The help action every parser gets ([add_help=True]). *)
Definition help_action : Action :=
  {| option_strings := ["-h"; "--help"]; dest := None; required := false;
     class := _HelpAction |}.

(** The dictionary from option strings to actions, in insertion order. *)
Definition _option_string_actions (p : ArgumentParser) : list (string * nat) :=
  concat (imap (fun i a => (fun s => (s, i)) <$> option_strings a) (_actions p)).

Definition lookup_option (p : ArgumentParser) (s : string) : option nat :=
  snd <$> List.find (fun '(o, _) => String.eqb o s) (_option_string_actions p).

Definition _get_positional_actions (p : ArgumentParser) : list nat :=
  omap (fun '(i, a) => match option_strings a with [] => Some i | _ => None end)
       (imap (fun i a => (i, a)) (_actions p)).

(** ['/'.join(action.option_strings)] *)
Fixpoint join (sep : string) (l : list string) : string :=
  match l with
  | [] => ""
  | [s] => s
  | s :: l' => s +:+ sep +:+ join sep l'
  end.

Definition _get_action_name (p : ArgumentParser) (a : nat) : string :=
  match _actions p !! a with
  | Some act => join "/" (option_strings act)
  | None => ""
  end.

(** [_negative_number_matcher]: the regular expression
    [^-\d+$|^-\d*\.\d+$]; [$] also matches before a final newline. *)
Fixpoint chop_newline (s : string) : option string :=
  match s with
  | EmptyString => None
  | String c EmptyString => if Ascii.eqb c "010" then Some "" else None
  | String c s' => String c <$> chop_newline s'
  end.

Definition nonempty (s : string) : bool :=
  match s with EmptyString => false | _ => true end.

Definition digits_or_decimal (s : string) : bool :=
  nonempty s && Str.all_digits s
  || Str.contains "." s
     && (let '(a, b) := Str.split1 "." s in
         Str.all_digits a && nonempty b && Str.all_digits b).

Definition _negative_number_matcher (s : string) : bool :=
  match s with
  | String "-" r =>
      digits_or_decimal r
      || match chop_newline r with
         | Some r' => digits_or_decimal r'
         | None => false
         end
  | _ => false
  end.

Definition _has_negative_number_optionals (p : ArgumentParser) : bool :=
  existsb (fun '(o, _) => _negative_number_matcher o) (_option_string_actions p).

(** An option tuple: the action (if the string names one), the option
    string and the explicit argument (the text after [=] or glued to a
    single-dash option). *)
Definition option_tuple : Type := option nat * string * option string.

Definition _get_option_tuples (p : ArgumentParser) (option_string : string)
  : res (list option_tuple) :=
  match option_string with
  | String c0 (String c1 tail) =>
      if Str.contains c0 prefix_chars && Str.contains c1 prefix_chars then
        let '(option_prefix, explicit_arg) :=
          if Str.contains "=" option_string
          then let '(a, b) := Str.split1 "=" option_string in (a, Some b)
          else (option_string, None) in
        Ok (omap (fun '(o, a) =>
                    if Str.startswith o option_prefix
                    then Some (Some a, o, explicit_arg) else None)
                 (_option_string_actions p))
      else if Str.contains c0 prefix_chars then
        let option_prefix := option_string in
        let short_option_prefix := String c0 (String c1 "") in
        let short_explicit_arg := tail in
        Ok (omap (fun '(o, a) =>
                    if String.eqb o short_option_prefix
                    then Some (Some a, o, Some short_explicit_arg)
                    else if Str.startswith o option_prefix
                    then Some (Some a, o, None) else None)
                 (_option_string_actions p))
      else Exit (Error (unexpected_option_string option_string))
  | _ => Exit (Error (unexpected_option_string option_string))
  end.

(** [_parse_optional]: [Ok None] when the string is meant to be a
    positional argument. *)
Definition _parse_optional (p : ArgumentParser) (arg_string : string)
  : res (option option_tuple) :=
  match arg_string with
  | EmptyString => Ok None
  | String c0 _ =>
      if negb (Str.contains c0 prefix_chars) then Ok None else
      match lookup_option p arg_string with
      | Some a => Ok (Some (Some a, arg_string, None))
      | None =>
          if (String.length arg_string =? 1)%nat then Ok None else
          match (if Str.contains "=" arg_string
                 then let '(o, e) := Str.split1 "=" arg_string in
                      (fun a => (Some a, o, Some e)) <$> lookup_option p o
                 else None) with
          | Some tup => Ok (Some tup)
          | None =>
              option_tuples ← _get_option_tuples p arg_string;
              match option_tuples with
              | _ :: _ :: _ =>
                  Exit (Error (ambiguous_option arg_string
                                 ((fun t => snd (fst t)) <$> option_tuples)))
              | [tup] => Ok (Some tup)
              | [] =>
                  if _negative_number_matcher arg_string
                     && negb (_has_negative_number_optionals p) then Ok None
                  else if Str.contains " " arg_string then Ok None
                  else Ok (Some (None, arg_string, None))
              end
          end
      end
  end.

(** One character of [arg_strings_pattern]. *)
Inductive pattern :=
| pat_A
| pat_dash
| pat_O (tup : option_tuple).

(** The first loop of [_parse_known_args]: the pattern of every argument
    string; everything after the first [--] is an argument. *)
Fixpoint classify (p : ArgumentParser) (after_dashes : bool) (arg_strings : list string)
  : res (list (string * pattern)) :=
  match arg_strings with
  | [] => Ok []
  | s :: rest =>
      if after_dashes then
        l ← classify p true rest; Ok ((s, pat_A) :: l)
      else if String.eqb s "--" then
        l ← classify p true rest; Ok ((s, pat_dash) :: l)
      else
        t ← _parse_optional p s;
        l ← classify p false rest;
        Ok ((s, match t with Some tup => pat_O tup | None => pat_A end) :: l)
  end.

(** The state of [_parse_known_args] while the arguments are consumed. *)
Record state := {
  namespace : gmap string pyval;
  seen_actions : gset nat;
  seen_non_default_actions : gset nat;
  extras : list string;
  positionals : list nat;
}.

(** [action_conflicts.get(action, [])]: for every group and every position
    of the action in it, the actions before and after that position. *)
Definition action_conflicts (p : ArgumentParser) (a : nat) : list nat :=
  mutex_group ← _mutually_exclusive_groups p;
  concat (imap (fun i mutex_action =>
                  if (mutex_action =? a)%nat
                  then take i (_group_actions mutex_group)
                       ++ drop (S i) (_group_actions mutex_group)
                  else [])
               (_group_actions mutex_group)).

(** [arg_strings.remove('--')]: drops the first [--], if there is one. *)
Fixpoint remove_dashes (arg_strings : list string) : list string :=
  match arg_strings with
  | [] => []
  | s :: rest => if String.eqb s "--" then rest else s :: remove_dashes rest
  end.

(** [_get_values] for the action classes above (no [type], so [_get_value]
    is the identity; [choices] only on the sub-commands action). *)
Definition _get_values (act : Action) (arg_strings : list string) : res pyval :=
  match class act with
  | _SubParsersAction choices =>
      match arg_strings with
      | value0 :: _ =>
          if existsb (String.eqb value0) choices then Ok (PyList arg_strings)
          else Exit (Error (invalid_choice value0))
      | [] => Ok (PyList [])
      end
  | _StoreAction =>
      match remove_dashes arg_strings with
      | [arg_string] => Ok (PyStr arg_string)
      | l => Ok (PyList l)
      end
  | _StoreConstAction _ | _HelpAction =>
      Ok (PyList (remove_dashes arg_strings))
  end.

Definition _UNRECOGNIZED_ARGS_ATTR : string := "_unrecognized_args".

Section parse.

(** [invoke name arg_strings] is
    [_name_parser_map[name].parse_known_args(arg_strings, None)], what the
    sub-commands action calls. *)
Variable invoke : string → list string → res (gmap string pyval * list string).

(** [action(self, namespace, argument_values, option_string)] *)
Definition call (act : Action) (values : pyval) (ns : gmap string pyval)
  : res (gmap string pyval) :=
  match class act with
  | _StoreAction =>
      Ok (match dest act with Some d => <[d := values]> ns | None => ns end)
  | _StoreConstAction const =>
      Ok (match dest act with Some d => <[d := const]> ns | None => ns end)
  | _HelpAction => Exit Help
  | _SubParsersAction _ =>
      match values with
      | PyList (parser_name :: arg_strings) =>
          '(subnamespace, arg_strings) ← invoke parser_name arg_strings;
          let ns := subnamespace ∪ ns in
          match arg_strings with
          | [] => Ok ns
          | _ =>
              let old := match ns !! _UNRECOGNIZED_ARGS_ATTR with
                         | Some (PyList l) => l
                         | _ => []
                         end in
              Ok (<[_UNRECOGNIZED_ARGS_ATTR := PyList (old ++ arg_strings)]> ns)
          end
      | _ => Ok ns
      end
  end.

(** [take_action].  The values [_get_values] returns are new objects, never
    the action's default ([None] or [SUPPRESS]), so the action always counts
    as present and is always called. *)
Definition take_action (p : ArgumentParser) (a : nat) (argument_strings : list string)
    (st : state) : res state :=
  match _actions p !! a with
  | None => Ok st
  | Some act =>
      argument_values ← _get_values act argument_strings;
      match List.find (fun c => bool_decide (c ∈ seen_non_default_actions st))
                      (action_conflicts p a) with
      | Some conflict_action =>
          Exit (Error (not_allowed_with (_get_action_name p a)
                                        (_get_action_name p conflict_action)))
      | None =>
          ns ← call act argument_values (namespace st);
          Ok {| namespace := ns;
                seen_actions := {[a]} ∪ seen_actions st;
                seen_non_default_actions := {[a]} ∪ seen_non_default_actions st;
                extras := extras st;
                positionals := positionals st |}
      end
  end.

(** [_match_argument] for an optional action: the number of following
    argument strings it takes.  The pattern of a [store] option is [(A)],
    that of an option with [nargs=0] is [()]. *)
Definition _match_argument (p : ArgumentParser) (a : nat)
    (arg_strings_pattern : list pattern) : res nat :=
  match class <$> _actions p !! a with
  | Some _StoreAction =>
      match arg_strings_pattern with
      | pat_A :: _ => Ok 1%nat
      | _ => Exit (Error (expected_one_argument (_get_action_name p a)))
      end
  | _ => Ok 0%nat
  end.

(** An action ready to be taken: the action, its argument strings and the
    option string it was written with. *)
Definition action_tuple : Type := nat * list string * string.

(** The loop of [consume_optional] when the option string came with an
    explicit argument.  [following] holds the argument strings after the
    option string, with their patterns.  The result is the actions to take
    and how many of the following argument strings the last one uses. *)
Fixpoint consume_explicit (p : ArgumentParser) (a : nat) (option_string explicit_arg : string)
    (following : list (string * pattern)) (action_tuples : list action_tuple)
  : res (list action_tuple * nat) :=
  arg_count ← _match_argument p a [pat_A];
  match arg_count, explicit_arg with
  | O, String c new_explicit_arg =>
      match option_string with
      | String _ (String c1 _) =>
          if negb (Str.contains c1 prefix_chars) then
            let action_tuples := action_tuples ++ [(a, [], option_string)] in
            let char := String.substring 0 1 option_string in
            let option_string' := char +:+ String c "" in
            match lookup_option p option_string' with
            | Some a' =>
                match new_explicit_arg with
                | EmptyString =>
                    arg_count ← _match_argument p a' (snd <$> following);
                    Ok (action_tuples
                          ++ [(a', fst <$> take arg_count following,
                               option_string')], arg_count)
                | _ => consume_explicit p a' option_string' new_explicit_arg
                         following action_tuples
                end
            | None =>
                Exit (Error (ignored_explicit_argument (_get_action_name p a)
                                                       explicit_arg))
            end
          else Exit (Error (ignored_explicit_argument (_get_action_name p a)
                                                      explicit_arg))
      | _ => Exit (Error (ignored_explicit_argument (_get_action_name p a)
                                                    explicit_arg))
      end
  | 1%nat, _ => Ok (action_tuples ++ [(a, [explicit_arg], option_string)], 0%nat)
  | _, _ => Exit (Error (ignored_explicit_argument (_get_action_name p a)
                                                   explicit_arg))
  end.

Fixpoint take_actions (p : ArgumentParser) (action_tuples : list action_tuple) (st : state)
  : res state :=
  match action_tuples with
  | [] => Ok st
  | (a, args, _) :: rest => st' ← take_action p a args st; take_actions p rest st'
  end.

Definition add_extras (l : list string) (st : state) : state :=
  {| namespace := namespace st;
     seen_actions := seen_actions st;
     seen_non_default_actions := seen_non_default_actions st;
     extras := extras st ++ l;
     positionals := positionals st |}.

Definition set_positionals (l : list nat) (st : state) : state :=
  {| namespace := namespace st;
     seen_actions := seen_actions st;
     seen_non_default_actions := seen_non_default_actions st;
     extras := extras st;
     positionals := l |}.

(** [consume_optional] at the option string [arg_string] whose option tuple
    is [tup]: the new state and the number of following argument strings
    used. *)
Definition consume_optional (p : ArgumentParser) (tup : option_tuple) (arg_string : string)
    (following : list (string * pattern)) (st : state) : res (state * nat) :=
  match tup with
  | (None, _, _) => Ok (add_extras [arg_string] st, 0%nat)
  | (Some a, option_string, Some explicit_arg) =>
      '(action_tuples, n) ← consume_explicit p a option_string explicit_arg following [];
      st' ← take_actions p action_tuples st;
      Ok (st', n)
  | (Some a, option_string, None) =>
      n ← _match_argument p a (snd <$> following);
      st' ← take_action p a (fst <$> take n following) st;
      Ok (st', n)
  end.

(** The pattern of a [nargs=PARSER] positional (any number of [-], one [A],
    then any characters), matched at the start of [arg_strings_pattern]:
    when it matches it takes everything. *)
Fixpoint match_PARSER (arg_strings_pattern : list pattern) : bool :=
  match arg_strings_pattern with
  | pat_dash :: rest => match_PARSER rest
  | pat_A :: _ => true
  | _ => false
  end.

(** [consume_positionals] at the argument strings [toks].  The parsers of
    this program have at most one positional action, the sub-commands
    action, so [_match_arguments_partial] either gives it all of [toks] or
    matches nothing ([None]). *)
Definition consume_positionals (p : ArgumentParser) (toks : list (string * pattern))
    (st : state) : option (res state) :=
  match positionals st with
  | [a] =>
      if match_PARSER (snd <$> toks)
      then Some (st' ← take_action p a (fst <$> toks) st; Ok (set_positionals [] st'))
      else None
  | _ => None
  end.

(** The main loop of [_parse_known_args]: positionals and optionals are
    consumed alternately; argument strings neither takes are extras. *)
Fixpoint consume (p : ArgumentParser) (toks : list (string * pattern)) (st : state)
  : res state :=
  match toks with
  | [] => Ok st
  | (s, pat_O tup) :: rest =>
      '(st', n) ← consume_optional p tup s rest st;
      match n, rest with
      | O, _ => consume p rest st'
      | _, _ :: rest' => consume p rest' st'
      | _, [] => Ok st'
      end
  | (s, _) :: rest =>
      match consume_positionals p toks st with
      | Some r => r
      | None => consume p rest (add_extras [s] st)
      end
  end.

(** The required actions that were not seen. *)
Definition required_actions (p : ArgumentParser) (st : state) : list string :=
  omap (fun '(i, act) =>
          if bool_decide (i ∉ seen_actions st) && required act
          then Some (_get_action_name p i) else None)
       (imap (fun i act => (i, act)) (_actions p)).

(** The first required group none of whose actions was used. *)
Definition missing_group (p : ArgumentParser) (st : state)
  : option _MutuallyExclusiveGroup :=
  List.find (fun group =>
               group_required group
               && negb (existsb (fun a => bool_decide (a ∈ seen_non_default_actions st))
                                (_group_actions group)))
            (_mutually_exclusive_groups p).

(** The state before any argument string is consumed. *)
Definition initial (p : ArgumentParser) (ns : gmap string pyval) : state :=
  {| namespace := ns; seen_actions := ∅; seen_non_default_actions := ∅;
     extras := []; positionals := _get_positional_actions p |}.

Definition _parse_known_args (p : ArgumentParser) (arg_strings : list string)
    (ns : gmap string pyval) : res (gmap string pyval * list string) :=
  toks ← classify p false arg_strings;
  st ← consume p toks (initial p ns);
  match required_actions p st with
  | (_ :: _) as names => Exit (Error (arguments_required names))
  | [] =>
      match missing_group p st with
      | Some group =>
          Exit (Error (one_of_arguments_required
                         (_get_action_name p <$> _group_actions group)))
      | None => Ok (namespace st, extras st)
      end
  end.

(** The defaults [parse_known_args] puts into a new [Namespace]: [None] for
    every action with a [dest], nothing for help and sub-commands. *)
Definition defaults (p : ArgumentParser) : gmap string pyval :=
  foldl (fun ns act =>
           match dest act, class act with
           | Some d, (_StoreAction | _StoreConstAction _ | _SubParsersAction _) =>
               match ns !! d with Some _ => ns | None => <[d := PyNone]> ns end
           | _, _ => ns
           end) ∅ (_actions p).

(** [parser.parse_known_args(args, None)] *)
Definition parse_known_args (p : ArgumentParser) (args : list string)
  : res (gmap string pyval * list string) :=
  '(ns, args) ← _parse_known_args p args (defaults p);
  match ns !! _UNRECOGNIZED_ARGS_ATTR with
  | Some v =>
      Ok (delete _UNRECOGNIZED_ARGS_ATTR ns,
          args ++ match v with PyList l => l | _ => [] end)
  | None => Ok (ns, args)
  end.

(** [parser.parse_args(args)] *)
Definition parse_args (p : ArgumentParser) (args : list string)
  : res (gmap string pyval) :=
  '(ns, argv) ← parse_known_args p args;
  match argv with
  | [] => Ok ns
  | _ => Exit (Error (unrecognized_arguments argv))
  end.

End parse.

(** A parser without sub-commands never invokes another parser. *)
Definition no_subparsers (name : string) (arg_strings : list string)
  : res (gmap string pyval * list string) :=
  Exit (Error (unknown_parser name)).

(** The call of the sub-commands action for a [_name_parser_map] whose
    parsers have no sub-commands themselves. *)
Definition invoke_subparser (_name_parser_map : list (string * ArgumentParser))
    (name : string) (arg_strings : list string)
  : res (gmap string pyval * list string) :=
  match List.find (fun '(n, _) => String.eqb n name) _name_parser_map with
  | Some (_, sub) => parse_known_args no_subparsers sub arg_strings
  | None => Exit (Error (unknown_parser name))
  end.

End argparse.

(** ** subprocess and the interpreter *)

(** [ArgumentParser.error] and the help action as effects: what they write
    and the [SystemExit] they raise. *)
Definition run_parser {A} (r : argparse.res A) : M A :=
  match r with
  | argparse.Ok a => mret a
  | argparse.Exit (argparse.Error msg) =>
      emit (Write stderr usage_text);;
      emit (Write stderr (error_text msg));;
      raise (SystemExit 2)
  | argparse.Exit argparse.Help =>
      emit (Write stdout help_text);;
      raise (SystemExit 0)
  end.

(** [getattr(ns, name)] *)
Definition getattr (ns : gmap string pyval) (name : string) : M pyval :=
  match ns !! name with
  | Some v => mret v
  | None => raise (AttributeError name)
  end.

(** [s + v] for a string [s]: defined only when [v] is a string. *)
Definition str_add (s : string) (v : pyval) : M string :=
  match v with
  | PyStr t => mret (s +:+ t)
  | _ => raise TypeError
  end.

(** [l[i]] *)
Definition getitem (l : list string) (i : nat) : M string :=
  match l !! i with
  | Some s => mret s
  | None => raise IndexError
  end.

(** The elements of an argument list, when all of them are strings. *)
Fixpoint all_str (args : list pyval) : option (list string) :=
  match args with
  | [] => Some []
  | PyStr s :: rest => cons s <$> all_str rest
  | _ :: _ => None
  end.

Section program.

(** The operating system: the return code of the process started with an
    argument list, or [None] when the program cannot be executed. *)
Variable exec : list string → option Z.

(** [subprocess.run(args, check=True)]: an element that is not a string is
    a [TypeError] before anything is started; a program that cannot be
    located or executed is an [OSError] ([FileNotFoundError],
    [PermissionError] or another of its subclasses, which are not told
    apart); a return code other than 0 is a [CalledProcessError]. *)
Definition subprocess_run (args : list pyval) : M unit :=
  match all_str args with
  | None => raise TypeError
  | Some cmd =>
      emit (Run cmd (exec cmd));;
      match exec cmd with
      | None => raise OSError
      | Some returncode =>
          if (returncode =? 0)%Z then mret tt
          else raise (CalledProcessError returncode cmd)
      end
  end.

(** How [subprocess.run(cmd, check=True)] ends for a list of strings. *)
Definition run_result (cmd : list string) : unit + exception :=
  match exec cmd with
  | None => inr OSError
  | Some returncode =>
      if (returncode =? 0)%Z then inl tt else inr (CalledProcessError returncode cmd)
  end.

(** ** vbox_cli.py *)

(** Create a new VirtualBox virtual machine with vboxmanage. *)
Definition opt_create (args : gmap string pyval) : M unit :=
  vbox_vm_name ← getattr args "vbox_vm_name";
  vbox_cmd_str ← str_add "vboxmanage createvm --register --name " vbox_vm_name;
  vbox_vm_groups ← getattr args "vbox_vm_groups";
  vbox_cmd_str ←
    (if is_not_None vbox_vm_groups then
       t ← str_add " --groups " vbox_vm_groups; mret (vbox_cmd_str +:+ t)
     else
       vbox_vm_os ← getattr args "vbox_vm_os";
       if is_not_None vbox_vm_os then
         t ← str_add " --ostype " vbox_vm_os; mret (vbox_cmd_str +:+ t)
       else mret vbox_cmd_str);
  subprocess_run (PyStr <$> Str.split vbox_cmd_str).

(** Delete an existing VirtualBox virtual machine with vboxmanage. *)
Definition opt_delete (args : gmap string pyval) : M unit :=
  vbox_vm_identifier ← getattr args "vbox_vm_identifier";
  subprocess_run [PyStr "vboxmanage"; PyStr "unregistervm"; PyStr "--delete";
                  vbox_vm_identifier].

(** List all VirtualBox virtual machines or details from a specific one. *)
Definition opt_info (args : gmap string pyval) : M unit :=
  vbox_vm_identifier ← getattr args "vbox_vm_identifier";
  if is_not_None vbox_vm_identifier then
    subprocess_run [PyStr "vboxmanage"; PyStr "showvminfo"; PyStr "--details";
                    vbox_vm_identifier]
  else
    subprocess_run [PyStr "vboxmanage"; PyStr "list"; PyStr "vms"].

(** Start or stop an existing VirtualBox virtual machine. *)
Definition opt_status (args : gmap string pyval) : M unit :=
  vbox_vm_action ← getattr args "vbox_vm_action";
  if eq_str vbox_vm_action "start" then
    vbox_vm_identifier ← getattr args "vbox_vm_identifier";
    subprocess_run [PyStr "vboxmanage"; PyStr "startvm"; vbox_vm_identifier;
                    PyStr "--type"; PyStr "headless"]
  else if eq_str vbox_vm_action "stop" then
    vbox_vm_identifier ← getattr args "vbox_vm_identifier";
    subprocess_run [PyStr "vboxmanage"; PyStr "controlvm"; vbox_vm_identifier;
                    PyStr "poweroff"]
  else print "//TODO: proper error handling".

Import argparse.

(** Parser for "create" sub-command *)
Definition parser_create : ArgumentParser :=
  {| _actions :=
       [ help_action;
         {| option_strings := ["--name"]; dest := Some "vbox_vm_name";
            required := true; class := _StoreAction |};
         {| option_strings := ["-g"; "--groups"]; dest := Some "vbox_vm_groups";
            required := false; class := _StoreAction |};
         {| option_strings := ["-o"; "--operating-system"]; dest := Some "vbox_vm_os";
            required := false; class := _StoreAction |} ];
     _mutually_exclusive_groups := [] |}.

(** The two arguments [--name] and [--uuid] that share the destination
    [vbox_vm_identifier]. *)
Definition name_action : Action :=
  {| option_strings := ["--name"]; dest := Some "vbox_vm_identifier";
     required := false; class := _StoreAction |}.
Definition uuid_action : Action :=
  {| option_strings := ["--uuid"]; dest := Some "vbox_vm_identifier";
     required := false; class := _StoreAction |}.

(** Parser for "delete" sub-command *)
Definition vm_delete_exclusive_args : _MutuallyExclusiveGroup :=
  {| group_required := true; _group_actions := [1; 2]%nat |}.
Definition parser_delete : ArgumentParser :=
  {| _actions := [help_action; name_action; uuid_action];
     _mutually_exclusive_groups := [vm_delete_exclusive_args] |}.

(** Parser for "info" sub-command *)
Definition vm_info_exclusive_args : _MutuallyExclusiveGroup :=
  {| group_required := false; _group_actions := [1; 2]%nat |}.
Definition parser_info : ArgumentParser :=
  {| _actions := [help_action; name_action; uuid_action];
     _mutually_exclusive_groups := [vm_info_exclusive_args] |}.

(** Parser for "status" sub-command *)
Definition vm_status_exclusive_args_ops : _MutuallyExclusiveGroup :=
  {| group_required := true; _group_actions := [1; 2]%nat |}.
Definition vm_status_exclusive_args_label : _MutuallyExclusiveGroup :=
  {| group_required := true; _group_actions := [3; 4]%nat |}.
Definition parser_status : ArgumentParser :=
  {| _actions :=
       [ help_action;
         {| option_strings := ["--start"]; dest := Some "vbox_vm_action";
            required := false; class := _StoreConstAction (PyStr "start") |};
         {| option_strings := ["--stop"]; dest := Some "vbox_vm_action";
            required := false; class := _StoreConstAction (PyStr "stop") |};
         name_action; uuid_action ];
     _mutually_exclusive_groups :=
       [vm_status_exclusive_args_ops; vm_status_exclusive_args_label] |}.

(** The sub-parsers, by name. *)
Definition subparsers : list (string * ArgumentParser) :=
  [ ("create", parser_create); ("delete", parser_delete);
    ("info", parser_info); ("status", parser_status) ].

(** The top-level parser: help and the sub-commands action (not required). *)
Definition parser : ArgumentParser :=
  {| _actions :=
       [ help_action;
         {| option_strings := []; dest := None; required := false;
            class := _SubParsersAction (fst <$> subparsers) |} ];
     _mutually_exclusive_groups := [] |}.

(** [parser.parse_args()] on the arguments after the script name. *)
Definition parse (args : list string) : res (gmap string pyval) :=
  parse_args (invoke_subparser subparsers) parser args.

(** Main method to set up argument parsing. *)
Definition main (sys_argv : list string) : M unit :=
  args ← run_parser (parse (drop 1 sys_argv));
  sub ← getitem sys_argv 1;
  if String.eqb sub "create" then opt_create args
  else if String.eqb sub "delete" then opt_delete args
  else if String.eqb sub "info" then opt_info args
  else if String.eqb sub "status" then opt_status args
  else print "//TODO: proper error handling".

(** Running the script: the interpreter exits with status 0 when [main]
    returns, with the status of a [SystemExit], and with status 1 after
    writing a traceback for any other exception. *)
Definition run_script (sys_argv : list string) : list event * Z :=
  match main sys_argv with
  | (t, inl _) => (t, 0%Z)
  | (t, inr (SystemExit status)) => (t, status)
  | (t, inr e) => (t ++ [Write stderr (traceback e)], 1%Z)
  end.

End program.


(** ** Notions used to state the properties *)

Module spec.
Import argparse.

(** The option tuple of an argument string names action [a]. *)
Definition names (a : nat) (pat : pattern) : bool :=
  match pat with
  | pat_O (Some a', _, _) => (a' =? a)%nat
  | _ => false
  end.

(** Action [a] of parser [p] is supplied on the command line [args]: some
    argument string before [--] is one of its option strings, an
    unambiguous abbreviation of one, or one of these with a value
    attached. *)
Definition supplied (p : ArgumentParser) (a : nat) (args : list string) : bool :=
  match classify p false args with
  | Ok toks => existsb (names a) (snd <$> toks)
  | Exit _ => false
  end.

Definition is_help (p : ArgumentParser) (a : nat) : bool :=
  match class <$> _actions p !! a with
  | Some _HelpAction => true
  | _ => false
  end.

(** Some argument string of [args] names the help option of [p]. *)
Definition asks_help (p : ArgumentParser) (args : list string) : bool :=
  existsb (fun s => match _parse_optional p s with
                    | Ok (Some (Some a, _, _)) => is_help p a
                    | _ => false
                    end) args.

(** The option tuple of an argument string names the help action. *)
Definition names_help (p : ArgumentParser) (pat : pattern) : bool :=
  match pat with
  | pat_O (Some a, _, _) => is_help p a
  | _ => false
  end.

(** An option tuple that names an action pairs it with one of its option
    strings. *)
Definition valid_pat (p : ArgumentParser) (pat : pattern) : Prop :=
  match pat with
  | pat_O (Some a, o, _) => In (o, a) (_option_string_actions p)
  | _ => True
  end.

(** Action [a] of [p] has destination [d]. *)
Definition has_dest (p : ArgumentParser) (a : nat) (d : string) : Prop :=
  ∃ act, _actions p !! a = Some act ∧ dest act = Some d.

(** No action of [p] is a sub-commands action, and the actions with
    destination [d] only write values in [V]. *)
Definition writes_only (p : ArgumentParser) (d : string) (V : pyval → Prop) : Prop :=
  Forall (λ act,
            (∀ choices, class act ≠ _SubParsersAction choices)
            ∧ (dest act = Some d →
               match class act with
               | _StoreAction => ∀ v, v ≠ PyNone → V v
               | _StoreConstAction const => V const
               | _ => True
               end)) (_actions p).

(** Every option string of an action without arguments other than help
    starts with [--], so only help can start a run of single-dash options. *)
Definition plain_options (p : ArgumentParser) : bool :=
  forallb (fun '(o, a) =>
             match class <$> _actions p !! a with
             | Some _StoreAction | Some _HelpAction => true
             | Some (_StoreConstAction _) => Str.startswith o "--"
             | _ => false
             end) (_option_string_actions p).

(** A parser all of whose actions are such options. *)
Definition plain (p : ArgumentParser) : bool :=
  plain_options p
  && match _get_positional_actions p with [] => true | _ => false end.

(** [steps st st']: [st'] is reached from [st] by taking actions and
    recording extras. *)
Inductive steps (invoke : string → list string → res (gmap string pyval * list string))
    (p : ArgumentParser) : state → state → Prop :=
| steps_refl st : steps invoke p st st
| steps_action a args st st1 st2 :
    take_action invoke p a args st = Ok st1 →
    steps invoke p st1 st2 → steps invoke p st st2
| steps_extras l st st2 :
    steps invoke p (add_extras l st) st2 → steps invoke p st st2
| steps_positionals l st st2 :
    steps invoke p (set_positionals l st) st2 → steps invoke p st st2.

(** Actions [a] and [b] of [p] exclude each other: each is among the
    conflicts of the other. *)
Definition exclusive (p : ArgumentParser) (a b : nat) : bool :=
  negb (a =? b)%nat
  && existsb (Nat.eqb b) (action_conflicts p a)
  && existsb (Nat.eqb a) (action_conflicts p b).

(** Two actions of [p] that exclude each other are both supplied. *)
Definition conflicting (p : ArgumentParser) (args : list string) : bool :=
  let actions := seq 0 (List.length (_actions p)) in
  existsb (fun a =>
             existsb (fun b => exclusive p a b && supplied p a args && supplied p b args)
                     actions) actions.

(** A required action is not supplied, or none of the actions of a required
    group is. *)
Definition missing_required (p : ArgumentParser) (args : list string) : bool :=
  existsb (fun '(a, act) => required act && negb (supplied p a args))
          (imap (fun a act => (a, act)) (_actions p))
  || existsb (fun group =>
                group_required group
                && negb (existsb (fun a => supplied p a args) (_group_actions group)))
             (_mutually_exclusive_groups p).

(** The argument string is the name of a sub-command. *)
Definition is_subcommand (s : string) : bool :=
  existsb (String.eqb s) subparsers.*1.

(** Some argument string names the help option of the top-level parser or
    of a sub-parser. *)
Definition help_requested (args : list string) : bool :=
  asks_help parser args || existsb (fun sp => asks_help sp args) subparsers.*2.

(** How one of the four operations can end: with an exception before any
    process is started, after one call of [subprocess.run] whose return code
    decides the outcome, or after printing a line. *)
Inductive shape (exec : list string → option Z) : M unit → Prop :=
| shape_raise e : (∀ status, e ≠ SystemExit status) → shape exec ([], inr e)
| shape_run cmd : shape exec ([Run cmd (exec cmd)], run_result exec cmd)
| shape_print s : shape exec ([Write stdout (line s)], inl tt).

(** The script ends before any process is started: with a usage error
    (usage and message on standard error, exit status 2), or, when an
    argument string names a help option, possibly with the help text on
    standard output and exit status 0. *)
Definition rejected (exec : list string → option Z) (sys_argv : list string) : Prop :=
  spawned (run_script exec sys_argv).1 = []
  ∧ ((∃ msg, run_script exec sys_argv
             = ([Write stderr usage_text; Write stderr (error_text msg)], 2%Z))
     ∨ (help_requested (drop 1 sys_argv) = true
        ∧ run_script exec sys_argv = ([Write stdout help_text], 0%Z))).

(** How an operation ends when every attribute it reads is there: with a
    [TypeError] before any process is started, or after one call of
    [subprocess.run] whose return code decides the outcome. *)
Inductive attempt (exec : list string → option Z) : M unit → Prop :=
| attempt_TypeError : attempt exec ([], inr TypeError)
| attempt_run cmd : attempt exec ([Run cmd (exec cmd)], run_result exec cmd).

(** The [vboxmanage] commands each sub-command can start. *)
Definition vboxmanage_commands : list (string * string) :=
  [ ("create", "createvm"); ("delete", "unregistervm"); ("info", "showvminfo");
    ("info", "list"); ("status", "startvm"); ("status", "controlvm") ].

(** [begins verb m]: the computation starts no process, or exactly one,
    [vboxmanage verb ...]. *)
Definition begins (verb : string) (m : M unit) : Prop :=
  spawned m.1 = [] ∨ ∃ tail, spawned m.1 = ["vboxmanage" :: verb :: tail].

(** The state after action [a] was taken and left the namespace [ns]. *)
Definition took (a : nat) (ns : gmap string pyval) (st : state) : state :=
  {| namespace := ns;
     seen_actions := {[a]} ∪ seen_actions st;
     seen_non_default_actions := {[a]} ∪ seen_non_default_actions st;
     extras := extras st;
     positionals := positionals st |}.

(** A value that is one word on the command line of [vboxmanage] and an
    argument on the command line of the script: not empty, without
    whitespace, and not starting with [-]. *)
Definition word (v : string) : bool :=
  negb (Str.has_space v) && negb (String.eqb v "") && negb (Str.startswith v "-").

(** Action [a] of [p] is a [store] action with destination [d]. *)
Definition stores (p : ArgumentParser) (a : nat) (d : string) : bool :=
  match _actions p !! a with
  | Some act =>
      match class act, dest act with
      | _StoreAction, Some d' => String.eqb d' d
      | _, _ => false
      end
  | None => false
  end.

(** The values a classified command line gives to the [store] actions with
    destination [d], in order: the text attached to the option string, or
    the argument string that follows it. *)
Fixpoint given (p : ArgumentParser) (d : string) (toks : list (string * pattern))
  : list string :=
  match toks with
  | [] => []
  | (_, pat) :: rest =>
      match pat with
      | pat_O (Some a, _, Some e) =>
          if stores p a d then e :: given p d rest else given p d rest
      | pat_O (Some a, _, None) =>
          if stores p a d then
            match rest with
            | (x, pat_A) :: rest' => x :: given p d rest'
            | _ => given p d rest
            end
          else given p d rest
      | _ => given p d rest
      end
  end.

(** The values the command line [args] gives to destination [d]. *)
Definition values (p : ArgumentParser) (d : string) (args : list string) : list string :=
  match classify p false args with
  | Ok toks => given p d toks
  | Exit _ => []
  end.

(** What a [store] action stores for the value [v]: [_get_values] removes
    a [--] from the argument strings, so the value [--] leaves none and the
    empty list is stored. *)
Definition stored (v : string) : pyval :=
  if String.eqb v "--" then PyList [] else PyStr v.

(** Only [store] actions write destination [d], and [p] has no
    sub-commands. *)
Definition only_stores (p : ArgumentParser) (d : string) : bool :=
  forallb (fun act =>
             match class act with
             | _SubParsersAction _ => false
             | _StoreConstAction _ =>
                 match dest act with Some d' => negb (String.eqb d' d) | None => true end
             | _ => true
             end) (_actions p).

(** The first argument string before [--] that is an ambiguous abbreviation
    of option strings of [p], with the option strings it could mean. *)
Fixpoint first_ambiguous (p : ArgumentParser) (args : list string)
  : option (string * list string) :=
  match args with
  | [] => None
  | s :: rest =>
      if String.eqb s "--" then None else
      match _parse_optional p s with
      | Exit (Error (ambiguous_option arg matches)) => Some (arg, matches)
      | _ => first_ambiguous p rest
      end
  end.

End spec.

(** * Properties *)

(** ** Splitting on whitespace *)

Module StrFacts.
Import Str.

Lemma app_nil_l s : "" +:+ s = s.
Proof. reflexivity. Qed.

Lemma app_cons c s t : String c s +:+ t = String c (s +:+ t).
Proof. reflexivity. Qed.

Lemma app_nil_r s : s +:+ "" = s.
Proof. induction s as [|c s IH]; [reflexivity|]. rewrite app_cons, IH. reflexivity. Qed.

Lemma app_snoc w c s : (w +:+ String c "") +:+ s = w +:+ String c s.
Proof. induction w as [|d w IH]; [reflexivity|]. rewrite !app_cons, IH. reflexivity. Qed.

Lemma split_from_app_space w a c b :
  isspace c = true →
  split_from w (a +:+ String c b) = split_from w a ++ split_from "" b.
Proof.
  intros Hc. revert w. induction a as [|d a IH]; intros w; simpl.
  - rewrite Hc. destruct (String.eqb w ""); reflexivity.
  - destruct (isspace d).
    + destruct (String.eqb w ""); simpl; rewrite IH; reflexivity.
    + apply IH.
Qed.

Lemma split_app_space a c b :
  isspace c = true → split (a +:+ String c b) = split a ++ split b.
Proof. apply split_from_app_space. Qed.

Lemma has_space_app a b : has_space (a +:+ b) = has_space a || has_space b.
Proof.
  induction a as [|c a IH]; simpl; [reflexivity|].
  rewrite IH. apply orb_assoc.
Qed.

(** The words [split] returns hold no whitespace and are not empty. *)
Lemma split_from_words w s x :
  has_space w = false →
  In x (split_from w s) → has_space x = false ∧ x ≠ "".
Proof.
  revert w. induction s as [|c s IH]; intros w Hw; simpl.
  - destruct (String.eqb w "") eqn:E; simpl; [tauto|].
    intros [<-|[]]. split; [assumption|].
    intros ->. discriminate.
  - destruct (isspace c) eqn:Hc.
    + destruct (String.eqb w "") eqn:E; simpl.
      * apply IH. reflexivity.
      * intros [<-|Hin].
        -- split; [assumption|]. intros ->. discriminate.
        -- apply (IH ""); [reflexivity|assumption].
    + apply IH. rewrite has_space_app. simpl. rewrite Hw, Hc. reflexivity.
Qed.

Lemma split_words s x : In x (split s) → has_space x = false ∧ x ≠ "".
Proof. apply split_from_words. reflexivity. Qed.

Lemma split_from_nonempty w s :
  w ≠ "" ∨ has_word s = true → split_from w s ≠ [].
Proof.
  revert w. induction s as [|c s IH]; intros w H; simpl.
  - destruct H as [H|H]; [|discriminate].
    destruct w; [contradiction|]. simpl. discriminate.
  - destruct (isspace c) eqn:Hc.
    + destruct (String.eqb w "") eqn:E; [|discriminate].
      apply IH. right. destruct H as [H|H].
      * destruct w; [congruence|discriminate].
      * simpl in H. rewrite Hc in H. exact H.
    + apply IH. left. destruct w; discriminate.
Qed.

Lemma split_nonempty s : has_word s = true → split s ≠ [].
Proof. intros H. apply split_from_nonempty. right. exact H. Qed.

(** A string without whitespace that is not empty is its own single word. *)
Lemma split_from_no_space w s :
  has_space s = false → split_from w s = if String.eqb (w +:+ s) "" then [] else [w +:+ s].
Proof.
  revert w. induction s as [|c s IH]; intros w H; simpl in *.
  - rewrite app_nil_r. reflexivity.
  - apply orb_false_elim in H as [Hc Hs]. rewrite Hc, (IH _ Hs), app_snoc.
    reflexivity.
Qed.

Lemma split_no_space s : has_space s = false → s ≠ "" → split s = [s].
Proof.
  intros H Hne. unfold split. rewrite (split_from_no_space "" s H). simpl.
  destruct s; [congruence|reflexivity].
Qed.

End StrFacts.

(** ** The effect monad *)

Lemma M_ret_bind {A B} (a : A) (f : A → M B) : mret a ≫= f = f a.
Proof. unfold mret, mbind, M_ret, M_bind. destruct (f a). reflexivity. Qed.

Lemma M_raise_bind {A B} (e : exception) (f : A → M B) : raise e ≫= f = raise e.
Proof. reflexivity. Qed.

Lemma M_emit_bind {B} (ev : event) (f : unit → M B) :
  emit ev ≫= f = (ev :: (f tt).1, (f tt).2).
Proof. unfold emit, mbind, M_bind. destruct (f tt). reflexivity. Qed.

Lemma spawned_app t1 t2 : spawned (t1 ++ t2) = spawned t1 ++ spawned t2.
Proof. apply omap_app. Qed.

Lemma written_app f t1 t2 : written f (t1 ++ t2) = written f t1 ++ written f t2.
Proof. apply omap_app. Qed.

(** ** The four operations *)

Section operations.

Variable exec : list string → option Z.

Lemma all_str_PyStr cmd : all_str (PyStr <$> cmd) = Some cmd.
Proof.
  induction cmd as [|s cmd IH]; [reflexivity|].
  change (cons s <$> all_str (PyStr <$> cmd) = Some (s :: cmd)).
  rewrite IH. reflexivity.
Qed.

Lemma subprocess_run_str cmd :
  subprocess_run exec (PyStr <$> cmd) = ([Run cmd (exec cmd)], run_result exec cmd).
Proof.
  unfold subprocess_run, run_result. rewrite all_str_PyStr.
  destruct (exec cmd) as [rc|]; [destruct (rc =? 0)%Z|]; reflexivity.
Qed.

Lemma opt_delete_str args id :
  args !! "vbox_vm_identifier" = Some (PyStr id) →
  opt_delete exec args
  = (let cmd := ["vboxmanage"; "unregistervm"; "--delete"; id] in
     ([Run cmd (exec cmd)], run_result exec cmd)).
Proof.
  intros H. unfold opt_delete, getattr. rewrite H, M_ret_bind.
  apply (subprocess_run_str ["vboxmanage"; "unregistervm"; "--delete"; id]).
Qed.

Lemma opt_info_str args id :
  args !! "vbox_vm_identifier" = Some (PyStr id) →
  opt_info exec args
  = (let cmd := ["vboxmanage"; "showvminfo"; "--details"; id] in
     ([Run cmd (exec cmd)], run_result exec cmd)).
Proof.
  intros H. unfold opt_info, getattr. rewrite H, M_ret_bind.
  apply (subprocess_run_str ["vboxmanage"; "showvminfo"; "--details"; id]).
Qed.

Lemma opt_info_None args :
  args !! "vbox_vm_identifier" = Some PyNone →
  opt_info exec args
  = (let cmd := ["vboxmanage"; "list"; "vms"] in
     ([Run cmd (exec cmd)], run_result exec cmd)).
Proof.
  intros H. unfold opt_info, getattr. rewrite H, M_ret_bind.
  apply (subprocess_run_str ["vboxmanage"; "list"; "vms"]).
Qed.

Lemma opt_status_start args id :
  args !! "vbox_vm_action" = Some (PyStr "start") →
  args !! "vbox_vm_identifier" = Some (PyStr id) →
  opt_status exec args
  = (let cmd := ["vboxmanage"; "startvm"; id; "--type"; "headless"] in
     ([Run cmd (exec cmd)], run_result exec cmd)).
Proof.
  intros Ha H. unfold opt_status, getattr. rewrite Ha, M_ret_bind. simpl.
  rewrite H, M_ret_bind.
  apply (subprocess_run_str ["vboxmanage"; "startvm"; id; "--type"; "headless"]).
Qed.

Lemma opt_status_stop args id :
  args !! "vbox_vm_action" = Some (PyStr "stop") →
  args !! "vbox_vm_identifier" = Some (PyStr id) →
  opt_status exec args
  = (let cmd := ["vboxmanage"; "controlvm"; id; "poweroff"] in
     ([Run cmd (exec cmd)], run_result exec cmd)).
Proof.
  intros Ha H. unfold opt_status, getattr. rewrite Ha, M_ret_bind. simpl.
  rewrite H, M_ret_bind.
  apply (subprocess_run_str ["vboxmanage"; "controlvm"; id; "poweroff"]).
Qed.

(** The command line [opt_create] builds, word by word. *)
Lemma create_split_name name :
  Str.split ("vboxmanage createvm --register --name " +:+ name)
  = ["vboxmanage"; "createvm"; "--register"; "--name"] ++ Str.split name.
Proof.
  change ("vboxmanage createvm --register --name " +:+ name)
    with ("vboxmanage createvm --register --name" +:+ String " " name).
  rewrite StrFacts.split_app_space by reflexivity. reflexivity.
Qed.

Lemma create_split_flag name flag value :
  Str.has_space flag = false → flag ≠ "" →
  Str.split (("vboxmanage createvm --register --name " +:+ name)
             +:+ String " " (flag +:+ String " " value))
  = ["vboxmanage"; "createvm"; "--register"; "--name"] ++ Str.split name
    ++ flag :: Str.split value.
Proof.
  intros Hf Hne.
  rewrite StrFacts.split_app_space, create_split_name by reflexivity.
  rewrite StrFacts.split_app_space by reflexivity.
  rewrite (StrFacts.split_no_space flag Hf Hne), <- app_assoc. reflexivity.
Qed.

Lemma opt_create_str args name (groups os : option string) :
  args !! "vbox_vm_name" = Some (PyStr name) →
  args !! "vbox_vm_groups" = Some (from_option PyStr PyNone groups) →
  args !! "vbox_vm_os" = Some (from_option PyStr PyNone os) →
  opt_create exec args
  = (let cmd := ["vboxmanage"; "createvm"; "--register"; "--name"] ++ Str.split name
                ++ match groups, os with
                   | Some g, _ => "--groups" :: Str.split g
                   | None, Some o => "--ostype" :: Str.split o
                   | None, None => []
                   end in
     ([Run cmd (exec cmd)], run_result exec cmd)).
Proof.
  intros Hn Hg Ho. unfold opt_create, getattr.
  rewrite Hn, M_ret_bind. cbn [str_add]. rewrite M_ret_bind, Hg, M_ret_bind.
  destruct groups as [g|]; cbn [from_option is_not_None str_add].
  - rewrite !M_ret_bind, subprocess_run_str.
    change (" --groups " +:+ g) with (String " " ("--groups" +:+ String " " g)).
    rewrite create_split_flag by (reflexivity || discriminate). reflexivity.
  - rewrite Ho, !M_ret_bind.
    destruct os as [o|]; cbn [from_option is_not_None str_add].
    + rewrite !M_ret_bind, subprocess_run_str.
      change (" --ostype " +:+ o) with (String " " ("--ostype" +:+ String " " o)).
      rewrite create_split_flag by (reflexivity || discriminate). reflexivity.
    + rewrite !M_ret_bind, subprocess_run_str, create_split_name, app_nil_r.
      reflexivity.
Qed.

(** When no value holds whitespace or is empty, every value is one element:
    [--groups] and its value if groups is given, else [--ostype] and its
    value if the os-type is given. *)
Lemma opt_create_plain_values args name (groups os : option string) :
  args !! "vbox_vm_name" = Some (PyStr name) →
  args !! "vbox_vm_groups" = Some (from_option PyStr PyNone groups) →
  args !! "vbox_vm_os" = Some (from_option PyStr PyNone os) →
  Forall (λ v, Str.has_space v = false ∧ v ≠ "")
         (name :: from_option (λ g, [g]) [] groups ++ from_option (λ o, [o]) [] os) →
  spawned (opt_create exec args).1
  = [["vboxmanage"; "createvm"; "--register"; "--name"; name]
     ++ match groups, os with
        | Some g, _ => ["--groups"; g]
        | None, Some o => ["--ostype"; o]
        | None, None => []
        end].
Proof.
  intros Hn Hg Ho Hv. rewrite (opt_create_str args name groups os Hn Hg Ho).
  cbn [fst spawned omap list_omap].
  inversion Hv as [|? ? [Hs Hne] Hrest]; subst.
  rewrite (StrFacts.split_no_space name Hs Hne).
  destruct groups as [g|]; [|destruct os as [o|]]; simpl in Hrest.
  - inversion Hrest as [|? ? [Hgs Hgne] _]; subst.
    rewrite (StrFacts.split_no_space g Hgs Hgne). reflexivity.
  - inversion Hrest as [|? ? [Hos Hone] _]; subst.
    rewrite (StrFacts.split_no_space o Hos Hone). reflexivity.
  - reflexivity.
Qed.

End operations.

(** ** The parsing loop of argparse *)

Module ArgparseFacts.
Import argparse spec.

Section loop.

Variable invoke : string → list string → res (gmap string pyval * list string).
Variable p : ArgumentParser.

Lemma bind_Ok {A B} (m : res A) (f : A → res B) b :
  m ≫= f = Ok b → ∃ a, m = Ok a ∧ f a = Ok b.
Proof. destruct m as [a|e]; [eauto|discriminate]. Qed.

Lemma bind_Exit {A B} (m : res A) (f : A → res B) e :
  m ≫= f = Exit e → m = Exit e ∨ ∃ a, m = Ok a ∧ f a = Exit e.
Proof. destruct m as [a|e']; [eauto|]. intros [= ->]. auto. Qed.

(** What a successful [take_action] did. *)
Lemma take_action_Ok a args st st1 :
  take_action invoke p a args st = Ok st1 →
  (_actions p !! a = None ∧ st1 = st)
  ∨ ∃ act v,
      _actions p !! a = Some act
      ∧ _get_values act args = Ok v
      ∧ Forall (λ c, c ∉ seen_non_default_actions st) (action_conflicts p a)
      ∧ call invoke act v (namespace st) = Ok (namespace st1)
      ∧ seen_actions st1 = {[a]} ∪ seen_actions st
      ∧ seen_non_default_actions st1 = {[a]} ∪ seen_non_default_actions st
      ∧ extras st1 = extras st
      ∧ positionals st1 = positionals st.
Proof.
  unfold take_action. destruct (_actions p !! a) as [act|] eqn:Ha.
  - intros H. right. apply bind_Ok in H as (v & Hv & H).
    destruct (List.find _ _) eqn:Hf; [discriminate|].
    apply bind_Ok in H as (ns & Hns & [= <-]).
    exists act, v. repeat split; try assumption.
    apply Forall_forall. intros c Hc. apply list_elem_of_In in Hc.
    apply (find_none _ _ Hf) in Hc. apply bool_decide_eq_false in Hc. exact Hc.
  - intros [= <-]. left. auto.
Qed.


Lemma steps_trans st1 st2 st3 :
  steps invoke p st1 st2 → steps invoke p st2 st3 → steps invoke p st1 st3.
Proof.
  induction 1; intros; eauto using steps.
Qed.

Lemma take_actions_steps tuples st st' :
  take_actions invoke p tuples st = Ok st' → steps invoke p st st'.
Proof.
  revert st. induction tuples as [|[[a args] o] tuples IH]; intros st; simpl.
  - intros [= <-]. constructor.
  - intros H. apply bind_Ok in H as (st1 & H1 & H).
    eapply steps_action; eauto.
Qed.

Lemma consume_optional_steps tup s following st st1 n :
  consume_optional invoke p tup s following st = Ok (st1, n) →
  steps invoke p st st1.
Proof.
  destruct tup as [[[a|] o] [e|]]; simpl.
  - intros H. apply bind_Ok in H as ([tuples n'] & _ & H).
    apply bind_Ok in H as (st' & H & [= <- <-]).
    eapply take_actions_steps; eauto.
  - intros H. apply bind_Ok in H as (n' & _ & H).
    apply bind_Ok in H as (st' & H & [= <- <-]).
    eapply steps_action; eauto using steps.
  - intros [= <- <-]. eapply steps_extras. constructor.
  - intros [= <- <-]. eapply steps_extras. constructor.
Qed.

(** Every successful run of the loop is a sequence of such steps. *)
Lemma consume_steps toks st st' :
  consume invoke p toks st = Ok st' → steps invoke p st st'.
Proof.
  remember (List.length toks) as n eqn:Hn.
  assert (Hle : (List.length toks <= n)%nat) by lia. clear Hn.
  revert toks st Hle. induction n as [|n IH]; intros toks st Hle.
  - destruct toks; [|simpl in Hle; lia]. intros [= <-]. constructor.
  - destruct toks as [|[s pat] rest]; [intros [= <-]; constructor|].
    simpl in Hle.
    assert (Hskip : consume invoke p rest (add_extras [s] st) = Ok st' →
                    steps invoke p st st').
    { intros H. eapply steps_extras. apply (IH rest); [lia|eassumption]. }
    assert (Hpos : match consume_positionals invoke p ((s, pat) :: rest) st with
                   | Some r => r
                   | None => consume invoke p rest (add_extras [s] st)
                   end = Ok st' → steps invoke p st st').
    { unfold consume_positionals.
      destruct (positionals st) as [|a [|? ?]]; try exact Hskip.
      destruct (match_PARSER _); try exact Hskip.
      intros H. apply bind_Ok in H as (st1 & H1 & [= <-]).
      eapply steps_action; [eassumption|].
      eapply steps_positionals. constructor. }
    destruct pat as [| |tup]; try exact Hpos.
    simpl. intros H. apply bind_Ok in H as ([st1 k] & H1 & H).
    apply consume_optional_steps in H1.
    eapply steps_trans; [eassumption|].
    destruct k as [|k].
    + apply (IH rest); [lia|assumption].
    + destruct rest as [|x rest'].
      * injection H as <-. constructor.
      * apply (IH rest'); [simpl in Hle; lia|assumption].
Qed.

(** A property of the state that every step keeps is kept by the loop. *)
Lemma steps_invariant (I : state → Prop) st st' :
  (∀ a args st st1, I st → take_action invoke p a args st = Ok st1 → I st1) →
  (∀ l st, I st → I (add_extras l st)) →
  (∀ l st, I st → I (set_positionals l st)) →
  steps invoke p st st' → I st → I st'.
Proof.
  intros Ha He Hp. induction 1; eauto.
Qed.


(** *** Option tuples come from the table of option strings *)

Lemma lookup_option_In o a :
  lookup_option p o = Some a → In (o, a) (_option_string_actions p).
Proof.
  unfold lookup_option. destruct (List.find _ _) as [[o' a']|] eqn:Hf; [|discriminate].
  intros [= <-]. apply find_some in Hf as [Hin Heq].
  apply String.eqb_eq in Heq as ->. exact Hin.
Qed.

Lemma _get_option_tuples_valid s l :
  _get_option_tuples p s = Ok l → Forall (λ tup, valid_pat p (pat_O tup)) l.
Proof.
  unfold _get_option_tuples. destruct s as [|c0 [|c1 tail]]; try discriminate.
  destruct (Str.contains c0 prefix_chars && Str.contains c1 prefix_chars).
  - destruct (if Str.contains "=" _ then _ else _) as [pre expl].
    intros [= <-]. apply Forall_forall. intros tup Hin.
    apply list_elem_of_omap in Hin as ([o a] & Hin & Hf).
    destruct (Str.startswith o pre); [|discriminate].
    injection Hf as <-. simpl. apply list_elem_of_In. exact Hin.
  - destruct (Str.contains c0 prefix_chars); [|discriminate].
    intros [= <-]. apply Forall_forall. intros tup Hin.
    apply list_elem_of_omap in Hin as ([o a] & Hin & Hf).
    repeat match type of Hf with
           | context [if ?b then _ else _] => destruct b
           end; try discriminate;
      injection Hf as <-; simpl; apply list_elem_of_In; exact Hin.
Qed.

Lemma _parse_optional_valid s tup :
  _parse_optional p s = Ok (Some tup) → valid_pat p (pat_O tup).
Proof.
  unfold _parse_optional. destruct s as [|c0 s']; [discriminate|].
  destruct (negb _); [discriminate|].
  destruct (lookup_option p (String c0 s')) as [a|] eqn:Hl.
  { intros [= <-]. simpl. apply lookup_option_In. exact Hl. }
  destruct (_ =? 1)%nat; [discriminate|].
  destruct (if Str.contains "=" _ then _ else _) as [tup'|] eqn:Heq.
  { intros [= <-]. destruct (Str.contains "=" _); [|discriminate].
    destruct (Str.split1 _ _) as [o e].
    destruct (lookup_option p o) as [a|] eqn:Hl'; [|discriminate].
    injection Heq as <-. simpl. apply lookup_option_In. exact Hl'. }
  intros H. apply bind_Ok in H as (l & Hl' & H).
  apply _get_option_tuples_valid in Hl'.
  destruct l as [|t [|? ?]]; try discriminate.
  - destruct (_ && _); [discriminate|].
    destruct (Str.contains " " _); [discriminate|].
    injection H as <-. exact I.
  - injection H as <-. inversion Hl'. assumption.
Qed.

(** The patterns [classify] computes: every option tuple is the one
    [_parse_optional] gives for the argument string. *)
Lemma classify_tuples b args toks :
  classify p b args = Ok toks →
  fst <$> toks = args
  ∧ Forall (λ tok, match tok.2 with
                   | pat_O tup => _parse_optional p tok.1 = Ok (Some tup)
                   | _ => True
                   end) toks.
Proof.
  revert b toks. induction args as [|s args IH]; intros b toks; simpl.
  - intros [= <-]. split; [reflexivity|constructor].
  - destruct b.
    + intros H. apply bind_Ok in H as (l & Hl & [= <-]).
      apply IH in Hl as [<- Hall]. split; [reflexivity|]. constructor; [exact I|assumption].
    + destruct (String.eqb s "--").
      * intros H. apply bind_Ok in H as (l & Hl & [= <-]).
        apply IH in Hl as [<- Hall]. split; [reflexivity|].
        constructor; [exact I|assumption].
      * intros H. apply bind_Ok in H as (t & Ht & H).
        apply bind_Ok in H as (l & Hl & [= <-]).
        apply IH in Hl as [<- Hall]. split; [reflexivity|].
        constructor; [|assumption]. destruct t; [exact Ht|exact I].
Qed.

Lemma classify_valid b args toks :
  classify p b args = Ok toks → Forall (λ tok, valid_pat p tok.2) toks.
Proof.
  intros H. apply classify_tuples in H as [_ H].
  eapply Forall_impl; [exact H|]. intros [s pat]. simpl.
  destruct pat as [| |tup]; try (intros; exact I).
  apply _parse_optional_valid.
Qed.


(** *** Taking the help action *)

Lemma take_action_help a args st :
  is_help p a = true → ∃ ex, take_action invoke p a args st = Exit ex.
Proof.
  unfold is_help, take_action. destruct (_actions p !! a) as [act|]; [|discriminate].
  simpl. destruct (class act) eqn:Hc; try discriminate. intros _.
  unfold _get_values. rewrite Hc. simpl.
  destruct (List.find _ _); [eauto|].
  unfold call. rewrite Hc. simpl. eauto.
Qed.

Lemma take_action_Exit_Help a args st act :
  _actions p !! a = Some act →
  (∀ choices, class act ≠ _SubParsersAction choices) →
  take_action invoke p a args st = Exit Help → is_help p a = true.
Proof.
  intros Ha Hsub. unfold take_action, is_help. rewrite Ha. simpl.
  destruct (class act) eqn:Hc; try reflexivity.
  - unfold _get_values, call. rewrite Hc.
    destruct (remove_dashes args) as [|? [|? ?]]; simpl;
      destruct (List.find _ _); discriminate.
  - unfold _get_values, call. rewrite Hc. simpl.
    destruct (List.find _ _); discriminate.
  - exfalso. eapply Hsub. reflexivity.
Qed.

(** *** The loop of [consume_optional] for an explicit argument *)

Lemma _match_argument_explicit a :
  _match_argument p a [pat_A]
  = Ok (match class <$> _actions p !! a with Some _StoreAction => 1 | _ => 0 end)%nat.
Proof.
  unfold _match_argument.
  destruct (class <$> _actions p !! a) as [[]|]; reflexivity.
Qed.

Lemma _match_argument_not_Help a pats : _match_argument p a pats ≠ Exit Help.
Proof.
  unfold _match_argument.
  destruct (class <$> _actions p !! a) as [[]|]; try discriminate.
  destruct pats as [|[] ?]; discriminate.
Qed.

Lemma consume_explicit_acc e : ∀ a o following acc tuples n,
  consume_explicit p a o e following acc = Ok (tuples, n) →
  ∃ more, tuples = acc ++ more.
Proof.
  induction e as [|c e IH]; intros a o following acc tuples n.
  - simpl. rewrite _match_argument_explicit. simpl.
    destruct (class <$> _actions p !! a) as [[]|]; try discriminate.
    intros [= <- <-]. eauto.
  - simpl. rewrite _match_argument_explicit. simpl.
    destruct (class <$> _actions p !! a) as [[]|];
      try (intros [= <- <-]; eauto; fail);
      (destruct o as [|c0 [|c1 t]]; try discriminate;
       destruct (negb _); try discriminate;
       destruct (lookup_option p _) as [a'|]; try discriminate;
       destruct e as [|d e'];
       [ intros H; apply bind_Ok in H as (k & _ & [= <- <-]);
         rewrite <- app_assoc; eauto
       | intros H; apply IH in H as [more ->];
         rewrite <- app_assoc; eauto ]).
Qed.

Lemma consume_explicit_not_Help e : ∀ a o following acc,
  consume_explicit p a o e following acc ≠ Exit Help.
Proof.
  induction e as [|c e IH]; intros a o following acc.
  - simpl. rewrite _match_argument_explicit. simpl.
    destruct (class <$> _actions p !! a) as [[]|]; discriminate.
  - simpl. rewrite _match_argument_explicit. simpl.
    destruct (class <$> _actions p !! a) as [[]|]; try discriminate;
      (destruct o as [|c0 [|c1 t]]; try discriminate;
       destruct (negb _); try discriminate;
       destruct (lookup_option p _) as [a'|]; try discriminate;
       destruct e as [|d e'];
       [ intros H; apply bind_Exit in H as [H|(k & _ & H)];
         [eapply _match_argument_not_Help; exact H|discriminate]
       | apply IH ]).
Qed.

(** The first action of the tuples is the one the option string names: a
    [store] action with the explicit argument, or an action without
    arguments written with a single dash. *)
Lemma consume_explicit_first e a o following tuples n :
  consume_explicit p a o e following [] = Ok (tuples, n) →
  (class <$> _actions p !! a = Some _StoreAction ∧ tuples = [(a, [e], o)] ∧ n = 0%nat)
  ∨ (class <$> _actions p !! a ≠ Some _StoreAction
     ∧ Str.startswith o "--" = false
     ∧ ∃ more, tuples = (a, [], o) :: more).
Proof.
  destruct e as [|c e]; simpl; rewrite _match_argument_explicit; simpl.
  - destruct (class <$> _actions p !! a) as [[]|]; try discriminate.
    intros [= <- <-]. left. auto.
  - destruct (class <$> _actions p !! a) as [[]|] eqn:Hc;
      try (intros [= <- <-]; left; auto; fail);
      (destruct o as [|c0 [|c1 t]]; try discriminate;
       destruct (negb _) eqn:Hneg; try discriminate;
       destruct (lookup_option p _) as [a'|]; try discriminate;
       intros H; right; split; [discriminate|]; split;
       [ | destruct e as [|d e'];
           [ apply bind_Ok in H as (k & _ & [= <- <-]); simpl; eauto
           | apply consume_explicit_acc in H as [more ->]; simpl; eauto ] ]).
    all: apply negb_true_iff in Hneg; simpl in Hneg |- *;
      rewrite orb_false_r in Hneg; rewrite Hneg;
      destruct (Ascii.eqb c0 "-"); reflexivity.
Qed.


(** *** Parsers whose actions are all options *)

Section plain_parser.

Hypothesis Hplain : plain_options p = true.

Lemma plain_class o a :
  In (o, a) (_option_string_actions p) →
  ∃ act, _actions p !! a = Some act
         ∧ (class act = _StoreAction
            ∨ class act = _HelpAction
            ∨ (∃ c, class act = _StoreConstAction c) ∧ Str.startswith o "--" = true).
Proof.
  intros Hin. pose proof Hplain as H. unfold plain_options in H.
  rewrite forallb_forall in H. specialize (H _ Hin). simpl in H.
  destruct (_actions p !! a) as [act|]; [|discriminate]. exists act.
  split; [reflexivity|]. simpl in H.
  destruct (class act); try discriminate; eauto 6.
Qed.

(** One option string of a plain parser: it fails, or it takes the one
    action it names, which is not help, with at most one of the following
    argument strings. *)
Lemma consume_optional_plain a o e s following st :
  In (o, a) (_option_string_actions p) →
  match consume_optional invoke p (Some a, o, e) s following st with
  | Ok (st1, n) =>
      is_help p a = false
      ∧ (∃ args, take_action invoke p a args st = Ok st1)
      ∧ (n = 0%nat ∨ n = 1%nat ∧ ∃ x rest, following = (x, pat_A) :: rest)
  | Exit Help => is_help p a = true
  | Exit (Error _) => True
  end.
Proof.
  intros Hin. destruct (plain_class o a Hin) as (act & Ha & Hclass).
  assert (Hsub : ∀ choices, class act ≠ _SubParsersAction choices).
  { intros choices Hc. rewrite Hc in Hclass.
    destruct Hclass as [|[|[[? ?] _]]]; discriminate. }
  assert (Hnh : ∀ args st1, take_action invoke p a args st = Ok st1 → is_help p a = false).
  { intros args st1 H. destruct (is_help p a) eqn:Hh; [|reflexivity].
    destruct (take_action_help a args st Hh) as [ex Hex]. congruence. }
  assert (Hstep : ∀ args k,
             (k = 0%nat ∨ k = 1%nat ∧ ∃ x rest, following = (x, pat_A) :: rest) →
             match take_action invoke p a args st
                   ≫= (λ st', Ok (st', k)) with
             | Ok (st1, n) =>
                 is_help p a = false
                 ∧ (∃ args, take_action invoke p a args st = Ok st1)
                 ∧ (n = 0%nat ∨ n = 1%nat ∧ ∃ x rest, following = (x, pat_A) :: rest)
             | Exit Help => is_help p a = true
             | Exit (Error _) => True
             end).
  { intros args k Hk.
    destruct (take_action invoke p a args st) as [st1|[msg|]] eqn:Hta; simpl.
    - split; [eapply Hnh; eassumption|]. split; [eauto|assumption].
    - exact I.
    - eapply take_action_Exit_Help; eauto. }
  destruct e as [e|]; simpl.
  - destruct (consume_explicit p a o e following []) as [[tuples n]|ex] eqn:Hce; simpl.
    + apply consume_explicit_first in Hce
        as [(Hc & -> & ->)|(Hc & Hdash & more & ->)]; simpl.
      * specialize (Hstep [e] 0%nat (or_introl eq_refl)).
        destruct (take_action invoke p a [e] st); exact Hstep.
      * assert (Hh : is_help p a = true).
        { unfold is_help. rewrite Ha in Hc |- *. simpl in Hc |- *.
          destruct Hclass as [Hcl|[Hcl|[_ Hcl]]]; rewrite ?Hcl in *;
            try congruence. }
        destruct (take_action_help a [] st Hh) as [[msg|] ->]; simpl; auto.
    + destruct ex as [msg|]; [exact I|].
      exfalso. eapply consume_explicit_not_Help. exact Hce.
  - unfold _match_argument. rewrite Ha. simpl.
    destruct (class act) eqn:Hc.
    + destruct following as [|[x [| |tup]] rest]; simpl; try exact I.
      apply Hstep. right. eauto.
    + apply Hstep. auto.
    + apply Hstep. auto.
    + exfalso. eapply Hsub. reflexivity.
Qed.

Lemma take_action_positionals a args st st1 :
  take_action invoke p a args st = Ok st1 → positionals st1 = positionals st.
Proof.
  intros H. apply take_action_Ok in H as [[_ ->]|(? & ? & H)]; [reflexivity|].
  apply H.
Qed.

(** Induction over a run of the loop of a plain parser: an argument string
    that names no action is an extra; an option string fails, or takes its
    action and then possibly the following argument string. *)
Lemma plain_consume_ind (P : list (string * pattern) → state → res state → Prop) :
  (∀ st, P [] st (Ok st)) →
  (∀ s pat rest st r,
     (∀ a, names a pat = false) → names_help p pat = false →
     P rest (add_extras [s] st) r → P ((s, pat) :: rest) st r) →
  (∀ s a o e rest st ex,
     (ex = Help → is_help p a = true) →
     P ((s, pat_O (Some a, o, e)) :: rest) st (Exit ex)) →
  (∀ s a o e rest args st st1 r,
     is_Some (_actions p !! a) →
     is_help p a = false → take_action invoke p a args st = Ok st1 →
     P rest st1 r → P ((s, pat_O (Some a, o, e)) :: rest) st r) →
  (∀ s a o e x rest args st st1 r,
     is_Some (_actions p !! a) →
     is_help p a = false → take_action invoke p a args st = Ok st1 →
     P rest st1 r → P ((s, pat_O (Some a, o, e)) :: (x, pat_A) :: rest) st r) →
  ∀ toks st,
    Forall (λ tok, valid_pat p tok.2) toks → positionals st = [] →
    P toks st (consume invoke p toks st).
Proof.
  intros Hnil Hskip Hfail Htake0 Htake1 toks.
  remember (List.length toks) as n eqn:Hn.
  assert (Hle : (List.length toks <= n)%nat) by lia. clear Hn.
  revert toks Hle. induction n as [|n IH]; intros toks Hle st Hvalid Hpos.
  { destruct toks; [apply Hnil|simpl in Hle; lia]. }
  destruct toks as [|[s pat] rest]; [apply Hnil|]. simpl in Hle.
  inversion Hvalid as [|? ? Hv Hvalid']; subst.
  assert (Hextra : (∀ a, names a pat = false) → names_help p pat = false →
                   P ((s, pat) :: rest) st (consume invoke p rest (add_extras [s] st))).
  { intros. apply Hskip; try assumption. apply IH; [lia|assumption|assumption]. }
  destruct pat as [| |[[[a|] o] e]].
  - simpl. unfold consume_positionals. rewrite Hpos. apply Hextra; reflexivity.
  - simpl. unfold consume_positionals. rewrite Hpos. apply Hextra; reflexivity.
  - simpl in Hv. cbn [consume].
    pose proof (consume_optional_plain a o e s rest st Hv) as Hstep.
    assert (Hsome : is_Some (_actions p !! a)).
    { destruct (plain_class o a Hv) as (act & -> & _). eauto. }
    destruct (consume_optional invoke p (Some a, o, e) s rest st)
      as [[st1 k]|ex]; simpl.
    + destruct Hstep as (Hh & [args Hta] & Hk).
      pose proof (take_action_positionals _ _ _ _ Hta) as Hpos1.
      rewrite Hpos in Hpos1.
      destruct Hk as [->|(-> & x & rest' & ->)].
      * eapply Htake0; try eassumption. apply IH; [lia|assumption|assumption].
      * eapply Htake1; try eassumption.
        inversion Hvalid'; subst.
        apply IH; [simpl in Hle; lia|assumption|assumption].
    + apply Hfail. intros ->. exact Hstep.
  - cbn [consume consume_optional]. simpl. apply Hextra; reflexivity.
Qed.


Lemma take_action_seen a args st st1 :
  is_Some (_actions p !! a) → take_action invoke p a args st = Ok st1 →
  seen_non_default_actions st1 = {[a]} ∪ seen_non_default_actions st
  ∧ seen_actions st1 = {[a]} ∪ seen_actions st.
Proof.
  intros [act Ha] H. apply take_action_Ok in H as [[Hn _]|(? & ? & H)]; [congruence|].
  split; apply H.
Qed.

(** The actions a successful run has seen are those it had seen before and
    those the argument strings name. *)
Lemma plain_consume_seen toks st st' :
  Forall (λ tok, valid_pat p tok.2) toks → positionals st = [] →
  consume invoke p toks st = Ok st' →
  ∀ a, (a ∈ seen_non_default_actions st'
        ↔ a ∈ seen_non_default_actions st ∨ existsb (names a) toks.*2 = true)
       ∧ (a ∈ seen_actions st'
          ↔ a ∈ seen_actions st ∨ existsb (names a) toks.*2 = true).
Proof.
  intros Hvalid Hpos.
  pose (P := λ (toks : list (string * pattern)) st (r : res state),
             r = Ok st' →
             ∀ a, (a ∈ seen_non_default_actions st'
                   ↔ a ∈ seen_non_default_actions st ∨ existsb (names a) toks.*2 = true)
                  ∧ (a ∈ seen_actions st'
                     ↔ a ∈ seen_actions st ∨ existsb (names a) toks.*2 = true)).
  apply (plain_consume_ind P); try assumption; unfold P; clear P.
  - intros st0 [= ->] a. simpl. split; split; intros; intuition discriminate.
  - intros s pat rest st0 r Hn _ IH Hr a. specialize (IH Hr a). simpl in IH |- *.
    rewrite Hn. exact IH.
  - discriminate.
  - intros s a0 o e rest args st0 st1 r Hsome _ Hta IH Hr a.
    destruct (take_action_seen _ _ _ _ Hsome Hta) as [Hnd Hs].
    specialize (IH Hr a). rewrite Hnd, Hs, !elem_of_union, !elem_of_singleton in IH.
    simpl. rewrite orb_true_iff, Nat.eqb_eq.
    assert (Hsym : a0 = a ↔ a = a0) by (split; congruence). tauto.
  - intros s a0 o e x rest args st0 st1 r Hsome _ Hta IH Hr a.
    destruct (take_action_seen _ _ _ _ Hsome Hta) as [Hnd Hs].
    specialize (IH Hr a). rewrite Hnd, Hs, !elem_of_union, !elem_of_singleton in IH.
    simpl. rewrite orb_true_iff, Nat.eqb_eq.
    assert (Hsym : a0 = a ↔ a = a0) by (split; congruence). tauto.
Qed.

(** A run that ends with help has met an argument string naming help. *)
Lemma plain_consume_Help toks st :
  Forall (λ tok, valid_pat p tok.2) toks → positionals st = [] →
  consume invoke p toks st = Exit Help →
  existsb (names_help p) toks.*2 = true.
Proof.
  intros Hvalid Hpos.
  pose (P := λ (toks : list (string * pattern)) (st : state) (r : res state),
             r = Exit Help → existsb (names_help p) toks.*2 = true).
  apply (plain_consume_ind P); try assumption; unfold P; clear P.
  - discriminate.
  - intros s pat rest st0 r _ Hn IH Hr. simpl. rewrite Hn. auto.
  - intros s a o e rest st0 ex Hex [= ->]. simpl. rewrite Hex; reflexivity.
  - intros s a o e rest args st0 st1 r _ Hh _ IH Hr. simpl. rewrite Hh. auto.
  - intros s a o e x rest args st0 st1 r _ Hh _ IH Hr. simpl. rewrite Hh. auto.
Qed.

End plain_parser.

(** *** [parse_known_args] *)

Lemma _parse_optional_not_Help s : _parse_optional p s ≠ Exit Help.
Proof.
  unfold _parse_optional. destruct s as [|c0 s']; [discriminate|].
  destruct (negb _); [discriminate|].
  destruct (lookup_option p _); [discriminate|].
  destruct (_ =? 1)%nat; [discriminate|].
  destruct (if Str.contains "=" _ then _ else _); [discriminate|].
  destruct (_get_option_tuples p _) as [[|? [|? ?]]|[msg|]] eqn:Ht;
    try discriminate.
  - unfold mbind, res_bind.
    repeat match goal with |- context [if ?b then _ else _] => destruct b end;
      discriminate.
  - exfalso. unfold _get_option_tuples in Ht.
    destruct s' as [|c1 tail]; [discriminate|].
    repeat match type of Ht with
           | context [if ?b then _ else _] => destruct b
           | context [let '(_, _) := ?x in _] => destruct x
           end; discriminate.
Qed.

Lemma classify_not_Help args : ∀ b, classify p b args ≠ Exit Help.
Proof.
  induction args as [|s args IH]; intros b; simpl; [discriminate|].
  destruct b.
  - intros H. apply bind_Exit in H as [H|(? & _ & H)]; [eapply IH; eauto|discriminate].
  - destruct (String.eqb s "--").
    + intros H. apply bind_Exit in H as [H|(? & _ & H)]; [eapply IH; eauto|discriminate].
    + intros H. apply bind_Exit in H as [H|(? & _ & H)].
      * eapply _parse_optional_not_Help; eauto.
      * apply bind_Exit in H as [H|(? & _ & H)]; [eapply IH; eauto|discriminate].
Qed.

(** What a successful [parse_known_args] went through. *)
Lemma parse_known_args_Ok args ns ex :
  parse_known_args invoke p args = Ok (ns, ex) →
  ∃ toks st,
    classify p false args = Ok toks
    ∧ consume invoke p toks (initial p (defaults p)) = Ok st
    ∧ required_actions p st = []
    ∧ missing_group p st = None
    ∧ (∀ k, k ≠ _UNRECOGNIZED_ARGS_ATTR → ns !! k = namespace st !! k)
    ∧ ns !! _UNRECOGNIZED_ARGS_ATTR = None
    ∧ ∃ l, ex = extras st ++ l.
Proof.
  unfold parse_known_args, _parse_known_args. intros H.
  apply bind_Ok in H as ([ns' ex'] & H & Hns).
  apply bind_Ok in H as (toks & Htoks & H).
  apply bind_Ok in H as (st & Hst & H).
  destruct (required_actions p st) eqn:Hreq; [|discriminate].
  destruct (missing_group p st) eqn:Hgrp; [discriminate|].
  injection H as <- <-. exists toks, st. repeat (split; [assumption|]).
  destruct (namespace st !! _UNRECOGNIZED_ARGS_ATTR) as [v|] eqn:Hu;
    injection Hns as <- <-.
  - split; [intros k Hk; apply lookup_delete_ne; congruence|].
    split; [apply lookup_delete_eq|eauto].
  - split; [reflexivity|]. split; [assumption|]. exists []. rewrite app_nil_r. reflexivity.
Qed.

Lemma names_help_asks b args toks :
  classify p b args = Ok toks →
  existsb (names_help p) toks.*2 = true → asks_help p args = true.
Proof.
  intros Hc H. apply classify_tuples in Hc as [<- Hall].
  apply existsb_exists in H as (pat & Hin & Hpat).
  apply list_elem_of_In, list_elem_of_fmap in Hin as ([s pat'] & -> & Hin).
  rewrite Forall_forall in Hall. specialize (Hall _ Hin). simpl in *.
  destruct pat' as [| |[[[a|] o] e]]; try discriminate.
  unfold asks_help. apply existsb_exists. exists s. split.
  - apply list_elem_of_In, list_elem_of_fmap. exists (s, pat_O (Some a, o, e)). auto.
  - rewrite Hall. exact Hpat.
Qed.

(** A plain parser ends with help only if an argument string names help. *)
Lemma parse_known_args_Help args :
  plain p = true →
  parse_known_args invoke p args = Exit Help → asks_help p args = true.
Proof.
  intros Hplain. apply andb_true_iff in Hplain as [Hopt Hpos].
  unfold parse_known_args, _parse_known_args. intros H.
  apply bind_Exit in H as [H|([ns ex] & _ & H)];
    [|destruct (ns !! _); discriminate].
  apply bind_Exit in H as [H|(toks & Htoks & H)];
    [exfalso; eapply classify_not_Help; eauto|].
  apply bind_Exit in H as [H|(st & _ & H)].
  - eapply names_help_asks; [eassumption|].
    eapply plain_consume_Help; try eassumption.
    + eapply classify_valid; eassumption.
    + simpl. destruct (_get_positional_actions p); [reflexivity|discriminate].
  - destruct (required_actions p st); [|discriminate].
    destruct (missing_group p st); discriminate.
Qed.


(** *** Extras only grow *)

Lemma consume_extras toks st st' :
  consume invoke p toks st = Ok st' → ∃ l, extras st' = extras st ++ l.
Proof.
  intros H. apply consume_steps in H.
  apply (steps_invariant (λ st0, ∃ l, extras st0 = extras st ++ l) st st');
    try assumption.
  - intros a args st0 st1 [l Hl] Hta.
    apply take_action_Ok in Hta
      as [[_ ->]|(? & ? & _ & _ & _ & _ & _ & _ & -> & _)]; eauto.
  - intros l st0 [l0 Hl]. simpl. rewrite Hl, <- app_assoc. eauto.
  - intros l st0 [l0 Hl]. simpl. eauto.
  - exists []. rewrite app_nil_r. reflexivity.
Qed.

(** *** Mutual exclusion *)

(** Two actions that exclude each other are never both present. *)
Lemma exclusive_steps a b st st' :
  exclusive p a b = true →
  steps invoke p st st' →
  ¬ (a ∈ seen_non_default_actions st ∧ b ∈ seen_non_default_actions st) →
  ¬ (a ∈ seen_non_default_actions st' ∧ b ∈ seen_non_default_actions st').
Proof.
  unfold exclusive. rewrite !andb_true_iff, negb_true_iff, Nat.eqb_neq.
  intros [[Hne Hab] Hba].
  apply existsb_exists in Hab as (b' & Hab & <-%Nat.eqb_eq).
  apply existsb_exists in Hba as (a' & Hba & <-%Nat.eqb_eq).
  apply (steps_invariant
           (λ st, ¬ (a ∈ seen_non_default_actions st ∧ b ∈ seen_non_default_actions st))).
  - intros c args st0 st1 Hst0 Hta.
    apply take_action_Ok in Hta
      as [[_ ->]|(? & ? & _ & _ & Hcf & _ & _ & -> & _)]; [assumption|].
    rewrite Forall_forall in Hcf.
    rewrite !elem_of_union, !elem_of_singleton. intros [[->|Ha] [->|Hb]].
    + congruence.
    + apply (Hcf b); [apply list_elem_of_In|]; assumption.
    + apply (Hcf a); [apply list_elem_of_In|]; assumption.
    + tauto.
  - intros l st0 H. exact H.
  - intros l st0 H. exact H.
Qed.

(** *** What a plain parser rejects *)

Lemma plain_seen_supplied args toks st :
  plain p = true →
  classify p false args = Ok toks →
  consume invoke p toks (initial p (defaults p)) = Ok st →
  ∀ a, (a ∈ seen_non_default_actions st ↔ supplied p a args = true)
       ∧ (a ∈ seen_actions st ↔ supplied p a args = true).
Proof.
  intros Hplain Hcls Hcons a. apply andb_true_iff in Hplain as [Hopt Hpos].
  unfold supplied. rewrite Hcls.
  destruct (plain_consume_seen Hopt toks (initial p (defaults p)) st)
    with (a := a) as [H1 H2]; try assumption.
  - eapply classify_valid; eassumption.
  - simpl. destruct (_get_positional_actions p); [reflexivity|discriminate].
  - simpl in H1, H2. rewrite H1, H2.
    split; split; try tauto; intros [H|H]; try assumption;
      apply not_elem_of_empty in H; contradiction.
Qed.

(** A plain parser does not accept a command line on which a required
    action or group is missing or two exclusive actions are both given. *)
Lemma plain_rejects args ns ex :
  plain p = true →
  missing_required p args || conflicting p args = true →
  parse_known_args invoke p args ≠ Ok (ns, ex).
Proof.
  intros Hplain Hbad Hok.
  apply parse_known_args_Ok in Hok as (toks & st & Hcls & Hcons & Hreq & Hgrp & _).
  pose proof (plain_seen_supplied args toks st Hplain Hcls Hcons) as Hseen.
  apply orb_true_iff in Hbad as [Hbad|Hbad].
  - unfold missing_required in Hbad. apply orb_true_iff in Hbad as [Hbad|Hbad].
    + apply existsb_exists in Hbad as ([a act] & Hin & Hbad).
      apply andb_true_iff in Hbad as [Hr Hs]. apply negb_true_iff in Hs.
      assert (Hmem : _get_action_name p a ∈ required_actions p st).
      { unfold required_actions. apply list_elem_of_omap. exists (a, act).
        split; [apply list_elem_of_In; exact Hin|].
        rewrite Hr, bool_decide_eq_true_2; [reflexivity|].
        intros Ha. apply Hseen in Ha. congruence. }
      rewrite Hreq in Hmem. apply not_elem_of_nil in Hmem. exact Hmem.
    + apply existsb_exists in Hbad as (group & Hin & Hbad).
      apply (find_none _ _ Hgrp) in Hin.
      apply andb_true_iff in Hbad as [Hr Hs]. rewrite Hr in Hin. simpl in Hin.
      apply negb_false_iff, existsb_exists in Hin as (a & Ha & Hsa).
      apply bool_decide_eq_true in Hsa. apply Hseen in Hsa.
      apply negb_true_iff in Hs.
      assert (existsb (λ a, supplied p a args) (_group_actions group) = true);
        [|congruence].
      apply existsb_exists. eauto.
  - unfold conflicting in Hbad.
    apply existsb_exists in Hbad as (a & _ & Hbad).
    apply existsb_exists in Hbad as (b & _ & Hbad).
    apply andb_true_iff in Hbad as [Hbad Hb].
    apply andb_true_iff in Hbad as [Hex Ha].
    apply (exclusive_steps a b (initial p (defaults p)) st Hex).
    + eapply consume_steps. eassumption.
    + simpl. intros [H _]. apply not_elem_of_empty in H. exact H.
    + split; apply Hseen; assumption.
Qed.


(** *** What an action writes *)

(** A successful [take_action] leaves the state as it is (no such action),
    or marks the action as seen and lets it write its destination: a
    [store] action a value that is not [None], a [store_const] action its
    constant. *)
Lemma take_action_written a args st st1 :
  take_action invoke p a args st = Ok st1 →
  (_actions p !! a = None ∧ st1 = st)
  ∨ ∃ act,
      _actions p !! a = Some act
      ∧ seen_non_default_actions st1 = {[a]} ∪ seen_non_default_actions st
      ∧ seen_actions st1 = {[a]} ∪ seen_actions st
      ∧ match class act, dest act with
        | _StoreAction, Some d =>
            ∃ v, v ≠ PyNone ∧ namespace st1 = <[d := v]> (namespace st)
        | _StoreConstAction const, Some d =>
            namespace st1 = <[d := const]> (namespace st)
        | (_StoreAction | _StoreConstAction _), None => namespace st1 = namespace st
        | _HelpAction, _ => False
        | _SubParsersAction _, _ => True
        end.
Proof.
  intros H. apply take_action_Ok in H
    as [?|(act & v & Ha & Hv & _ & Hcall & Hs & Hnd & _)]; [left; assumption|].
  right. exists act. repeat (split; [assumption|]).
  unfold call in Hcall. unfold _get_values in Hv.
  destruct (class act); try discriminate; try exact I.
  - injection Hcall as <-. destruct (dest act); [|reflexivity].
    exists v. split; [|reflexivity].
    destruct (remove_dashes args) as [|? [|? ?]]; injection Hv as <-; discriminate.
  - injection Hcall as <-. destruct (dest act); reflexivity.
Qed.


Lemma steps_seen_eq st st' :
  steps invoke p st st' →
  seen_actions st = seen_non_default_actions st →
  seen_actions st' = seen_non_default_actions st'.
Proof.
  apply (steps_invariant (λ st, seen_actions st = seen_non_default_actions st));
    try (intros; assumption).
  intros a args st0 st1 H0 Hta.
  apply take_action_written in Hta as [[_ ->]|(act & _ & -> & -> & _)];
    congruence.
Qed.

(** Once an action with destination [d] has been seen, the attribute [d]
    holds one of the values these actions write. *)
Lemma steps_written d V st st' :
  writes_only p d V →
  steps invoke p st st' →
  ((∃ a, a ∈ seen_non_default_actions st ∧ has_dest p a d) →
   ∃ v, namespace st !! d = Some v ∧ V v) →
  (∃ a, a ∈ seen_non_default_actions st' ∧ has_dest p a d) →
  ∃ v, namespace st' !! d = Some v ∧ V v.
Proof.
  intros Hw.
  apply (steps_invariant
           (λ st, (∃ a, a ∈ seen_non_default_actions st ∧ has_dest p a d) →
                  ∃ v, namespace st !! d = Some v ∧ V v));
    try (intros; auto; fail).
  intros a args st0 st1 H0 Hta (a0 & Ha0 & Hd0).
  apply take_action_written in Hta as [[_ ->]|(act & Ha & Hnd & _ & Hns)];
    [eauto|].
  unfold writes_only in Hw. rewrite Forall_forall in Hw.
  destruct (Hw act) as [Hsub Hval]; [eapply list_elem_of_lookup_2; eassumption|].
  assert (Hother : dest act ≠ Some d → namespace st1 !! d = namespace st0 !! d →
                   ∃ v, namespace st1 !! d = Some v ∧ V v).
  { intros Hne ->. apply H0. exists a0. split; [|assumption].
    rewrite Hnd, elem_of_union, elem_of_singleton in Ha0.
    destruct Ha0 as [->|?]; [|assumption].
    destruct Hd0 as (act' & Ha' & Hd'). congruence. }
  destruct (class act) eqn:Hc.
  - destruct (dest act) as [d'|] eqn:Hd.
    + destruct Hns as (v & Hv & Hns). destruct (decide (d' = d)) as [->|Hne].
      * exists v. rewrite Hns, lookup_insert_eq. auto.
      * apply Hother; [congruence|]. rewrite Hns. apply lookup_insert_ne. assumption.
    + apply Hother; [discriminate|]. rewrite Hns. reflexivity.
  - destruct (dest act) as [d'|] eqn:Hd.
    + destruct (decide (d' = d)) as [->|Hne].
      * exists const. rewrite Hns, lookup_insert_eq. auto.
      * apply Hother; [congruence|]. rewrite Hns. apply lookup_insert_ne. assumption.
    + apply Hother; [discriminate|]. rewrite Hns. reflexivity.
  - contradiction.
  - exfalso. eapply Hsub. reflexivity.
Qed.

(** While no action with destination [d] has been seen, the attribute [d]
    is what it was. *)
Lemma steps_unwritten d V st st' :
  writes_only p d V →
  steps invoke p st st' →
  (∀ a, a ∈ seen_non_default_actions st' → ¬ has_dest p a d) →
  namespace st' !! d = namespace st !! d.
Proof.
  intros Hw Hsteps.
  apply (steps_invariant
           (λ st0, (∀ a, a ∈ seen_non_default_actions st0 → ¬ has_dest p a d) →
                   namespace st0 !! d = namespace st !! d) st st');
    try (intros; auto; fail); try assumption.
  intros a args st0 st1 H0 Hta Hno.
  apply take_action_written in Hta as [[_ ->]|(act & Ha & Hnd & _ & Hns)];
    [auto|].
  unfold writes_only in Hw. rewrite Forall_forall in Hw.
  destruct (Hw act) as [Hsub _]; [eapply list_elem_of_lookup_2; eassumption|].
  assert (Hd : dest act ≠ Some d).
  { intros Hd. apply (Hno a).
    - rewrite Hnd. apply elem_of_union_l, elem_of_singleton. reflexivity.
    - exists act. auto. }
  rewrite <- H0.
  - destruct (class act) eqn:Hc.
    + destruct (dest act) as [d'|]; [|congruence].
      destruct Hns as (v & _ & Hns). rewrite Hns. apply lookup_insert_ne. congruence.
    + destruct (dest act) as [d'|]; [|congruence].
      rewrite Hns. apply lookup_insert_ne. congruence.
    + contradiction.
    + exfalso. eapply Hsub. reflexivity.
  - intros a' Ha'. apply Hno. rewrite Hnd. apply elem_of_union_r. assumption.
Qed.


(** *** What an accepted command line tells *)

Section accepted.

Hypothesis Hplain : plain p = true.
Variables (args : list string) (ns : gmap string pyval) (ex : list string).
Hypothesis Hok : parse_known_args invoke p args = Ok (ns, ex).

Lemma accepted_valid : missing_required p args = false ∧ conflicting p args = false.
Proof.
  apply orb_false_elim. destruct (_ || _) eqn:H; [|reflexivity].
  exfalso. eapply plain_rejects; eassumption.
Qed.

Lemma accepted_written d V a :
  writes_only p d V → d ≠ _UNRECOGNIZED_ARGS_ATTR →
  supplied p a args = true → has_dest p a d →
  ∃ v, ns !! d = Some v ∧ V v.
Proof.
  intros Hw Hd Ha Hdest.
  apply parse_known_args_Ok in Hok as (toks & st & Hcls & Hcons & _ & _ & Hns & _).
  rewrite (Hns d Hd).
  apply (steps_written d V (initial p (defaults p)) st Hw).
  - eapply consume_steps. eassumption.
  - simpl. intros (? & H & _). apply not_elem_of_empty in H. contradiction.
  - exists a. split; [|assumption].
    apply (plain_seen_supplied args toks st Hplain Hcls Hcons). assumption.
Qed.

Lemma accepted_unwritten d V :
  writes_only p d V → d ≠ _UNRECOGNIZED_ARGS_ATTR →
  (∀ a, has_dest p a d → supplied p a args = false) →
  ns !! d = defaults p !! d.
Proof.
  intros Hw Hd Hno.
  apply parse_known_args_Ok in Hok as (toks & st & Hcls & Hcons & _ & _ & Hns & _).
  rewrite (Hns d Hd).
  apply (steps_unwritten d V (initial p (defaults p)) st Hw).
  - eapply consume_steps. eassumption.
  - intros a Ha Hdest.
    apply (plain_seen_supplied args toks st Hplain Hcls Hcons) in Ha.
    rewrite (Hno a Hdest) in Ha. discriminate.
Qed.

End accepted.

End loop.
End ArgparseFacts.

(** ** The parsers of the program *)

Module ProgramFacts.
Import argparse spec ArgparseFacts.

(** *** The top-level parser *)

(** No argument string is ambiguous for the top-level parser: its only
    option strings are [-h] and [--help]. *)
Lemma top_parse_optional s : ∃ r, _parse_optional parser s = Ok r.
Proof.
  unfold _parse_optional. destruct s as [|c0 s']; [eauto|].
  destruct (negb _) eqn:Hc0; [eauto|].
  destruct (lookup_option parser _); [eauto|].
  destruct s' as [|c1 tail]; [eauto|].
  destruct (_ =? 1)%nat; [eauto|].
  destruct (if Str.contains "=" _ then _ else _); [eauto|].
  apply negb_false_iff in Hc0. simpl in Hc0. rewrite orb_false_r in Hc0.
  apply Ascii.eqb_eq in Hc0 as ->.
  unfold _get_option_tuples.
  change (Str.contains "-" prefix_chars) with true. cbn [andb].
  destruct (Str.contains c1 prefix_chars) eqn:Hc1.
  - simpl in Hc1. rewrite orb_false_r in Hc1. apply Ascii.eqb_eq in Hc1 as ->.
    destruct (if Str.contains "=" _ then _ else _) as [pre expl] eqn:Hpre.
    assert (Hp : ∃ pre', pre = String "-" (String "-" pre')).
    { destruct (Str.contains "=" _).
      - simpl in Hpre. destruct (Str.split1 "=" tail). injection Hpre as <- _. eauto.
      - injection Hpre as <- _. eauto. }
    destruct Hp as [pre' ->].
    change (_option_string_actions parser) with [("-h", 0%nat); ("--help", 0%nat)].
    cbn [omap list_omap]. 
    change (Str.startswith "-h" (String "-" (String "-" pre'))) with false. cbv iota.
    destruct (Str.startswith "--help" _); unfold mbind, res_bind;
    repeat match goal with |- context [if ?b then _ else _] => destruct b end; eauto.
  - change (_option_string_actions parser) with [("-h", 0%nat); ("--help", 0%nat)].
    cbn [omap list_omap].
    assert (Str.startswith "--help" (String "-" (String c1 tail)) = false) as ->.
    { simpl in Hc1. rewrite orb_false_r in Hc1.
      change (Ascii.eqb "-" "-" && (Ascii.eqb "-" c1 && Str.startswith "help" tail) = false).
      rewrite (Ascii.eqb_sym "-" c1), Hc1. reflexivity. }
    assert (String.eqb "--help" (String "-" (String c1 "")) = false) as ->.
    { change (Ascii.eqb "-" "-" && (Ascii.eqb "-" c1 && false) = false).
      rewrite andb_false_r. reflexivity. }
    unfold mbind, res_bind;
    repeat match goal with |- context [if ?b then _ else _] => destruct b end; eauto.
Qed.

Lemma top_classify args : ∀ b, ∃ toks, classify parser b args = Ok toks.
Proof.
  induction args as [|s args IH]; intros b; simpl; [eauto|].
  destruct b.
  - destruct (IH true) as [l ->]. simpl. eauto.
  - destruct (String.eqb s "--").
    + destruct (IH true) as [l ->]. simpl. eauto.
    + destruct (top_parse_optional s) as [r ->]. destruct (IH false) as [l ->].
      simpl. eauto.
Qed.

(** An option tuple of the top-level parser that names an action names help. *)
Lemma top_valid a o e : valid_pat parser (pat_O (Some a, o, e)) → a = 0%nat.
Proof.
  simpl. change (_option_string_actions parser) with [("-h", 0%nat); ("--help", 0%nat)].
  simpl. intros [[= _ <-]|[[= _ <-]|[]]]; reflexivity.
Qed.

Lemma top_required st : required_actions parser st = [].
Proof. unfold required_actions. cbn. rewrite !andb_false_r. reflexivity. Qed.

(** A command line that starts with the name of a sub-command is handed to
    that sub-parser; what it leaves unrecognized is an error. *)
Lemma parse_subcommand sub sp rest :
  In (sub, sp) subparsers →
  parse (sub :: rest)
  = match parse_known_args no_subparsers sp rest with
    | Ok (ns, []) => Ok ns
    | Ok (ns, ex) => Exit (Error (unrecognized_arguments ex))
    | Exit e => Exit e
    end.
Proof.
  intros Hin.
  assert (Hinv : invoke_subparser subparsers sub rest = parse_known_args no_subparsers sp rest).
  { simpl in Hin. destruct Hin as [[= <- <-]|[[= <- <-]|[[= <- <-]|[[= <- <-]|[]]]]]; reflexivity. }
  assert (Hcls : ∃ toks, classify parser false (sub :: rest) = Ok ((sub, pat_A) :: toks)
                          ∧ toks.*1 = rest).
  { destruct (top_classify rest false) as [toks Ht]. exists toks. split.
    - simpl in Hin.
      destruct Hin as [[= <- <-]|[[= <- <-]|[[= <- <-]|[[= <- <-]|[]]]]];
        cbn [classify]; rewrite Ht; reflexivity.
    - apply classify_tuples in Ht. apply Ht. }
  destruct Hcls as (toks & Hcls & Hfst).
  set (r := parse_known_args no_subparsers sp rest) in *.
  unfold parse, parse_args, parse_known_args, _parse_known_args. rewrite Hcls.
  cbn [mbind res_bind consume]. unfold consume_positionals.
  change (positionals (initial parser (defaults parser))) with [1%nat].
  cbn [fmap list_fmap snd match_PARSER fst]. rewrite Hfst.
  unfold take_action.
  change (_actions parser !! 1%nat)
    with (Some {| option_strings := []; dest := None; required := false;
                  class := _SubParsersAction (subparsers.*1) |}).
  unfold _get_values. cbn [class].
  assert (existsb (String.eqb sub) subparsers.*1 = true) as ->.
  { apply existsb_exists. exists sub. split; [|apply String.eqb_refl].
    apply (in_map fst) in Hin. exact Hin. }
  cbn [mbind res_bind]. change (action_conflicts parser 1) with (@nil nat).
  cbn [List.find]. unfold call. cbn [class]. rewrite Hinv.
  assert (Hu : ∀ ns ex, r = Ok (ns, ex) → ns !! _UNRECOGNIZED_ARGS_ATTR = None).
  { intros ns ex Hr. apply parse_known_args_Ok in Hr as (? & ? & H). apply H. }
  destruct r as [[ns ex]|e]; [|reflexivity].
  specialize (Hu _ _ eq_refl). cbn [mbind res_bind].
  change (namespace (initial parser (defaults parser))) with (∅ : gmap string pyval).
  rewrite (right_id_L ∅ (∪) ns).
  destruct ex as [|x ex].
  - cbn [mbind res_bind]. rewrite top_required. cbn. rewrite Hu. reflexivity.
  - rewrite Hu. cbn [mbind res_bind]. rewrite top_required. cbn. rewrite lookup_insert_eq. reflexivity.
Qed.

Lemma top_plain_options : plain_options parser = true.
Proof. reflexivity. Qed.

Lemma top_is_help a o e : valid_pat parser (pat_O (Some a, o, e)) → is_help parser a = true.
Proof. intros ->%top_valid. reflexivity. Qed.

(** The sub-commands action on a first argument string that is not the name
    of a sub-command. *)
Lemma top_take_action_invalid s rest st st1 :
  is_subcommand s = false →
  take_action (invoke_subparser subparsers) parser 1 (s :: rest) st ≠ Ok st1.
Proof.
  intros Hs H. apply take_action_Ok in H as [[H _]|(act & v & Ha & Hv & _)];
    [discriminate|].
  injection Ha as <-. unfold _get_values in Hv. cbn [class] in Hv.
  change (existsb (String.eqb s) _) with (is_subcommand s) in Hv.
  rewrite Hs in Hv. discriminate.
Qed.

(** A command line whose first argument string is not the name of a
    sub-command is not accepted. *)
Lemma parse_no_subcommand s rest ns :
  is_subcommand s = false → parse (s :: rest) ≠ Ok ns.
Proof.
  intros Hs H. unfold parse, parse_args in H.
  apply bind_Ok in H as ([ns' argv] & H & Hargv).
  destruct argv; [|discriminate].
  apply parse_known_args_Ok in H
    as (toks & st & Hcls & Hcons & _ & _ & _ & _ & l & Hex).
  symmetry in Hex. apply app_eq_nil in Hex as [Hex _].
  pose proof (classify_valid _ _ _ _ Hcls) as Hvalid.
  apply classify_tuples in Hcls as [Hfst _].
  destruct toks as [|[s' pat] toks]; [discriminate|]. injection Hfst as -> Hfst.
  assert (Hextra : ∀ st0, extras st0 ≠ [] → consume (invoke_subparser subparsers) parser toks st0 ≠ Ok st).
  { intros st0 Hne Hc. apply consume_extras in Hc as [l' Hl'].
    rewrite Hex in Hl'. symmetry in Hl'. apply app_eq_nil in Hl' as [? _]. auto. }
  assert (Hpos : match consume_positionals (invoke_subparser subparsers) parser
                         ((s, pat) :: toks) (initial parser (defaults parser)) with
                 | Some r => r
                 | None => consume (invoke_subparser subparsers) parser toks
                             (add_extras [s] (initial parser (defaults parser)))
                 end ≠ Ok st).
  { unfold consume_positionals.
    change (positionals (initial parser (defaults parser))) with [1%nat].
    destruct (match_PARSER _).
    - intros H. apply bind_Ok in H as (st1 & H & _).
      eapply top_take_action_invalid; eassumption.
    - apply Hextra. discriminate. }
  destruct pat as [| |[[[a|] o] e]]; try (exact (Hpos Hcons)).
  cbn [consume] in Hcons. apply bind_Ok in Hcons as ([st1 k] & Hopt & _).
    inversion Hvalid as [|? ? Hv _]; subst. simpl in Hv.
    pose proof (consume_optional_plain (invoke_subparser subparsers) parser
                  top_plain_options a o e s toks
                  (initial parser (defaults parser)) Hv) as Hstep.
    rewrite Hopt in Hstep. destruct Hstep as [Hh _].
    rewrite (top_is_help a o e) in Hh; [discriminate|exact Hv].
Qed.

Lemma parse_nil : parse [] = Ok ∅.
Proof. reflexivity. Qed.

Lemma is_subcommand_In s :
  is_subcommand s = true → ∃ sp, In (s, sp) subparsers.
Proof.
  unfold is_subcommand. intros H. apply existsb_exists in H as (x & Hin & ->%String.eqb_eq).
  apply in_map_iff in Hin as ([n sp] & <- & Hin). eauto.
Qed.

(** What the parser accepts: no argument at all, or the name of a
    sub-command followed by arguments its sub-parser accepts entirely. *)
Lemma parse_Ok args ns :
  parse args = Ok ns →
  args = [] ∧ ns = ∅
  ∨ ∃ sub sp rest,
      args = sub :: rest ∧ In (sub, sp) subparsers
      ∧ parse_known_args no_subparsers sp rest = Ok (ns, []).
Proof.
  destruct args as [|s rest].
  - rewrite parse_nil. intros [= <-]. auto.
  - intros H. right. destruct (is_subcommand s) eqn:Hs.
    + apply is_subcommand_In in Hs as [sp Hin]. exists s, sp, rest.
      split; [reflexivity|]. split; [assumption|].
      rewrite (parse_subcommand s sp rest Hin) in H.
      destruct (parse_known_args no_subparsers sp rest) as [[ns' [|? ?]]|];
        try discriminate. congruence.
    + exfalso. eapply parse_no_subcommand; eassumption.
Qed.

(** *** Help *)

Lemma subparsers_plain sub sp : In (sub, sp) subparsers → plain sp = true.
Proof.
  simpl. intros [[= _ <-]|[[= _ <-]|[[= _ <-]|[[= _ <-]|[]]]]]; reflexivity.
Qed.

Lemma asks_help_cons p s args :
  asks_help p args = true → asks_help p (s :: args) = true.
Proof. unfold asks_help. simpl. intros ->. apply orb_true_r. Qed.

Lemma top_take_action_Help args st :
  take_action (invoke_subparser subparsers) parser 1 args st = Exit Help →
  existsb (λ sp, asks_help sp args) subparsers.*2 = true.
Proof.
  unfold take_action.
  change (_actions parser !! 1%nat)
    with (Some {| option_strings := []; dest := None; required := false;
                  class := _SubParsersAction (subparsers.*1) |}).
  unfold _get_values. cbn [class]. destruct args as [|s rest]; [discriminate|].
  destruct (existsb (String.eqb s) subparsers.*1); [|discriminate].
  cbn [mbind res_bind]. change (action_conflicts parser 1) with (@nil nat).
  cbn [List.find]. unfold call. cbn [class]. intros H.
  apply bind_Exit in H as [H|(ns & _ & H)]; [|discriminate].
  apply bind_Exit in H as [H|([subns ex] & _ & H)];
    [|destruct ex; discriminate].
  unfold invoke_subparser in H.
  destruct (List.find _ subparsers) as [[n sp]|] eqn:Hf; [|discriminate].
  apply find_some in Hf as [Hin _].
  apply parse_known_args_Help in H; [|eapply subparsers_plain; eassumption].
  apply existsb_exists. exists sp. split.
  - apply (in_map snd) in Hin. exact Hin.
  - apply asks_help_cons. exact H.
Qed.

Lemma top_consume_Help toks : ∀ st,
  Forall (λ tok, valid_pat parser tok.2) toks → positionals st = [1%nat] →
  consume (invoke_subparser subparsers) parser toks st = Exit Help →
  existsb (names_help parser) toks.*2 = true
  ∨ existsb (λ sp, asks_help sp toks.*1) subparsers.*2 = true.
Proof.
  induction toks as [|[s pat] toks IH]; intros st Hvalid Hpos; [discriminate|].
  inversion Hvalid as [|? ? Hv Hvalid']; subst.
  assert (Hrest : ∀ st0, positionals st0 = [1%nat] →
            consume (invoke_subparser subparsers) parser toks st0 = Exit Help →
            names_help parser pat = false →
            existsb (names_help parser) ((s, pat) :: toks).*2 = true
            ∨ existsb (λ sp, asks_help sp ((s, pat) :: toks).*1) subparsers.*2 = true).
  { intros st0 Hpos0 H Hn. destruct (IH st0 Hvalid' Hpos0 H) as [Hl|Hr].
    - left. simpl. rewrite Hn. exact Hl.
    - right. apply existsb_exists in Hr as (sp & Hin & Hsp).
      apply existsb_exists. exists sp. split; [assumption|].
      apply asks_help_cons. exact Hsp. }
  assert (Hp : match consume_positionals (invoke_subparser subparsers) parser
                       ((s, pat) :: toks) st with
               | Some r => r
               | None => consume (invoke_subparser subparsers) parser toks
                           (add_extras [s] st)
               end = Exit Help →
               names_help parser pat = false →
               existsb (names_help parser) ((s, pat) :: toks).*2 = true
               ∨ existsb (λ sp, asks_help sp ((s, pat) :: toks).*1) subparsers.*2 = true).
  { unfold consume_positionals. rewrite Hpos. destruct (match_PARSER _).
    - intros H _. right. apply bind_Exit in H as [H|(? & _ & H)]; [|discriminate].
      apply top_take_action_Help in H. exact H.
    - apply Hrest. exact Hpos. }
  destruct pat as [| |[[[a|] o] e]].
  - intros H. apply Hp; [exact H|reflexivity].
  - intros H. apply Hp; [exact H|reflexivity].
  - intros _. left. simpl. rewrite (top_is_help a o e Hv). reflexivity.
  - intros H. cbn [consume consume_optional mbind res_bind] in H.
    apply (Hrest (add_extras [s] st)); [exact Hpos|exact H|reflexivity].
Qed.

(** The parser ends with help only if an argument string names the help
    option of the top-level parser or of a sub-parser. *)
Lemma parse_Help args : parse args = Exit Help → help_requested args = true.
Proof.
  unfold parse, parse_args. intros H.
  apply bind_Exit in H as [H|([ns argv] & _ & H)]; [|destruct argv; discriminate].
  unfold parse_known_args in H.
  apply bind_Exit in H as [H|([ns ex] & _ & H)]; [|destruct (ns !! _); discriminate].
  unfold _parse_known_args in H.
  apply bind_Exit in H as [H|(toks & Hcls & H)];
    [exfalso; eapply classify_not_Help; eassumption|].
  apply bind_Exit in H as [H|(st & _ & H)].
  - unfold help_requested. apply orb_true_iff.
    apply top_consume_Help in H as [H|H].
    + left. eapply names_help_asks; eassumption.
    + right. apply classify_tuples in Hcls as [<- _]. exact H.
    + eapply classify_valid; eassumption.
    + reflexivity.
  - rewrite top_required in H. destruct (missing_group parser st); discriminate.
Qed.

(** *** Running the script *)

Section script.

Variable exec : list string → option Z.

Lemma subprocess_run_eq args cmd :
  all_str args = Some cmd →
  subprocess_run exec args = ([Run cmd (exec cmd)], run_result exec cmd).
Proof.
  intros H. unfold subprocess_run, run_result. rewrite H, M_emit_bind.
  destruct (exec cmd) as [rc|]; [destruct (rc =? 0)%Z|]; reflexivity.
Qed.

Lemma subprocess_run_shape args : shape exec (subprocess_run exec args).
Proof.
  destruct (all_str args) as [cmd|] eqn:H.
  - rewrite (subprocess_run_eq args cmd H). apply shape_run.
  - unfold subprocess_run. rewrite H. apply shape_raise. discriminate.
Qed.

Lemma getattr_shape args name (k : pyval → M unit) :
  (∀ v, shape exec (k v)) → shape exec (getattr args name ≫= k).
Proof.
  intros Hk. unfold getattr. destruct (args !! name) as [v|].
  - rewrite M_ret_bind. apply Hk.
  - apply shape_raise. discriminate.
Qed.

Lemma str_add_shape s v (k : string → M unit) :
  (∀ t, shape exec (k t)) → shape exec (str_add s v ≫= k).
Proof.
  intros Hk. destruct v; try (apply shape_raise; discriminate).
  cbn [str_add]. rewrite M_ret_bind. apply Hk.
Qed.

Lemma opt_delete_shape args : shape exec (opt_delete exec args).
Proof. apply getattr_shape. intros v. apply subprocess_run_shape. Qed.

Lemma opt_info_shape args : shape exec (opt_info exec args).
Proof.
  apply getattr_shape. intros v. destruct (is_not_None v); apply subprocess_run_shape.
Qed.

Lemma opt_status_shape args : shape exec (opt_status exec args).
Proof.
  apply getattr_shape. intros v.
  destruct (eq_str v "start"); [|destruct (eq_str v "stop")].
  - apply getattr_shape. intros w. apply subprocess_run_shape.
  - apply getattr_shape. intros w. apply subprocess_run_shape.
  - apply shape_print.
Qed.

Lemma M_bind_assoc {A B C} (m : M A) (f : A → M B) (g : B → M C) :
  (m ≫= f) ≫= g = m ≫= (λ a, f a ≫= g).
Proof.
  destruct m as [t [a|e]]; [|reflexivity]. unfold mbind, M_bind.
  destruct (f a) as [t1 [b|e1]]; [|reflexivity].
  destruct (g b) as [t2 r]. rewrite app_assoc. reflexivity.
Qed.

Lemma opt_create_shape args : shape exec (opt_create exec args).
Proof.
  apply getattr_shape. intros name. apply str_add_shape. intros s.
  apply getattr_shape. intros groups.
  destruct (is_not_None groups).
  - rewrite M_bind_assoc. apply str_add_shape. intros t.
    rewrite M_ret_bind. apply subprocess_run_shape.
  - rewrite M_bind_assoc. apply getattr_shape. intros os.
    destruct (is_not_None os).
    + rewrite M_bind_assoc. apply str_add_shape. intros t.
      rewrite M_ret_bind. apply subprocess_run_shape.
    + rewrite M_ret_bind. apply subprocess_run_shape.
Qed.

(** When the parser exits, nothing else happens. *)
Lemma run_script_Exit sys_argv e :
  parse (drop 1 sys_argv) = Exit e →
  run_script exec sys_argv
  = match e with
    | Error msg => ([Write stderr usage_text; Write stderr (error_text msg)], 2%Z)
    | Help => ([Write stdout help_text], 0%Z)
    end.
Proof.
  intros H. unfold run_script, main. rewrite H. destruct e; reflexivity.
Qed.

(** When the parser accepts, the sub-command named first is the operation. *)
Lemma main_Ok script sub rest ns :
  parse (sub :: rest) = Ok ns →
  main exec (script :: sub :: rest)
  = if String.eqb sub "create" then opt_create exec ns
    else if String.eqb sub "delete" then opt_delete exec ns
    else if String.eqb sub "info" then opt_info exec ns
    else opt_status exec ns.
Proof.
  intros H. unfold main. cbn [drop]. rewrite H.
  cbn [run_parser]. rewrite M_ret_bind. cbn [getitem lookup list_lookup].
  rewrite M_ret_bind.
  apply ProgramFacts.parse_Ok in H as [[? _]|(? & sp & ? & [= <- <-] & Hin & _)];
    [discriminate|].
  simpl in Hin.
  destruct Hin as [[= <- <-]|[[= <- <-]|[[= <- <-]|[[= <- <-]|[]]]]]; reflexivity.
Qed.

Lemma main_shape sys_argv ns :
  parse (drop 1 sys_argv) = Ok ns → shape exec (main exec sys_argv).
Proof.
  intros H. destruct sys_argv as [|script [|sub rest]].
  - unfold main. rewrite H. apply shape_raise. discriminate.
  - unfold main. rewrite H. apply shape_raise. discriminate.
  - rewrite (main_Ok script sub rest ns H).
    repeat match goal with |- context [if ?b then _ else _] => destruct b end;
      auto using opt_create_shape, opt_delete_shape, opt_info_shape, opt_status_shape.
Qed.

End script.

(** *** The sub-parsers *)

Lemma delete_plain : plain parser_delete = true.
Proof. reflexivity. Qed.
Lemma info_plain : plain parser_info = true.
Proof. reflexivity. Qed.
Lemma status_plain : plain parser_status = true.
Proof. reflexivity. Qed.
Lemma create_plain : plain parser_create = true.
Proof. reflexivity. Qed.

Ltac writes_only_tac :=
  unfold writes_only;
  repeat (apply Forall_cons_2;
          [split; [discriminate|simpl; try discriminate; intros _; auto]|]);
  apply Forall_nil_2.

Lemma delete_writes : writes_only parser_delete "vbox_vm_identifier" (λ v, v ≠ PyNone).
Proof. writes_only_tac. Qed.

Lemma info_writes : writes_only parser_info "vbox_vm_identifier" (λ v, v ≠ PyNone).
Proof. writes_only_tac. Qed.

Lemma status_writes_identifier :
  writes_only parser_status "vbox_vm_identifier" (λ v, v ≠ PyNone).
Proof. writes_only_tac. Qed.

Lemma status_writes_action :
  writes_only parser_status "vbox_vm_action"
              (λ v, v = PyStr "start" ∨ v = PyStr "stop").
Proof. writes_only_tac. Qed.

Lemma create_writes : writes_only parser_create "vbox_vm_name" (λ v, v ≠ PyNone).
Proof. writes_only_tac. Qed.

(** Required and exclusive arguments of each sub-parser, spelled out. *)
Lemma delete_missing rest :
  missing_required parser_delete rest
  = negb (supplied parser_delete 1 rest || supplied parser_delete 2 rest).
Proof.
  unfold missing_required. cbn -[supplied].
  destruct (supplied parser_delete 1 rest), (supplied parser_delete 2 rest); reflexivity.
Qed.

Lemma delete_conflicting rest :
  conflicting parser_delete rest
  = supplied parser_delete 1 rest && supplied parser_delete 2 rest.
Proof.
  unfold conflicting. cbn -[supplied].
  destruct (supplied parser_delete 0 rest), (supplied parser_delete 1 rest),
    (supplied parser_delete 2 rest); reflexivity.
Qed.

Lemma info_conflicting rest :
  conflicting parser_info rest
  = supplied parser_info 1 rest && supplied parser_info 2 rest.
Proof.
  unfold conflicting. cbn -[supplied].
  destruct (supplied parser_info 0 rest), (supplied parser_info 1 rest),
    (supplied parser_info 2 rest); reflexivity.
Qed.

Lemma status_missing rest :
  missing_required parser_status rest
  = negb (supplied parser_status 1 rest || supplied parser_status 2 rest)
    || negb (supplied parser_status 3 rest || supplied parser_status 4 rest).
Proof.
  unfold missing_required. cbn -[supplied].
  destruct (supplied parser_status 1 rest), (supplied parser_status 2 rest),
    (supplied parser_status 3 rest), (supplied parser_status 4 rest); reflexivity.
Qed.

Lemma status_conflicting rest :
  conflicting parser_status rest
  = supplied parser_status 1 rest && supplied parser_status 2 rest
    || supplied parser_status 3 rest && supplied parser_status 4 rest.
Proof.
  unfold conflicting. cbn -[supplied].
  destruct (supplied parser_status 0 rest), (supplied parser_status 1 rest),
    (supplied parser_status 2 rest), (supplied parser_status 3 rest),
    (supplied parser_status 4 rest); reflexivity.
Qed.

Lemma create_missing rest :
  missing_required parser_create rest = negb (supplied parser_create 1 rest).
Proof.
  unfold missing_required. cbn -[supplied].
  destruct (supplied parser_create 1 rest); reflexivity.
Qed.

(** *** Command lines the parsers do not accept *)

Section rejection.

Variable exec : list string → option Z.

Lemma run_script_spawned sys_argv :
  spawned (run_script exec sys_argv).1 = spawned (main exec sys_argv).1.
Proof.
  unfold run_script. destruct (main exec sys_argv) as [t [u|[]]]; simpl;
    rewrite ?spawned_app; simpl; rewrite ?app_nil_r; reflexivity.
Qed.

Lemma rejected_Exit sys_argv e :
  parse (drop 1 sys_argv) = Exit e → rejected exec sys_argv.
Proof.
  intros H. unfold rejected. rewrite (run_script_Exit exec sys_argv e H).
  destruct e as [msg|].
  - split; [reflexivity|]. left. eauto.
  - split; [reflexivity|]. right. split; [|reflexivity].
    apply parse_Help. exact H.
Qed.

Lemma parse_not_Ok_Exit args :
  (∀ ns, parse args ≠ Ok ns) → ∃ e, parse args = Exit e.
Proof. destruct (parse args) as [ns|e]; [intros H; destruct (H ns eq_refl)|eauto]. Qed.

(** A first argument string that is not a sub-command, a required argument
    that is missing, or two exclusive arguments: the script is rejected. *)
Lemma rejected_no_subcommand script s rest :
  is_subcommand s = false → rejected exec (script :: s :: rest).
Proof.
  intros Hs. destruct (parse_not_Ok_Exit (s :: rest)) as [e He].
  - intros ns. apply parse_no_subcommand. exact Hs.
  - eapply rejected_Exit. exact He.
Qed.

Lemma rejected_invalid script sub sp rest :
  In (sub, sp) subparsers →
  missing_required sp rest || conflicting sp rest = true →
  rejected exec (script :: sub :: rest).
Proof.
  intros Hin Hbad. destruct (parse_not_Ok_Exit (sub :: rest)) as [e He].
  - intros ns. rewrite (parse_subcommand sub sp rest Hin).
    destruct (parse_known_args no_subparsers sp rest) as [[ns' ex]|] eqn:H;
      [|discriminate].
    exfalso. eapply plain_rejects; try eassumption.
    eapply subparsers_plain. eassumption.
  - eapply rejected_Exit. exact He.
Qed.

End rejection.

End ProgramFacts.

(** * The dispatcher *)

Import argparse spec ArgparseFacts ProgramFacts.

(** ** The value of an attribute *)

Module ValueFacts.

Lemma stored_cases v :
  (v ≠ "--" ∧ stored v = PyStr v) ∨ (v = "--" ∧ stored v = PyList []).
Proof.
  unfold stored. destruct (String.eqb_spec v "--"); auto.
Qed.

Lemma stored_not_None v : stored v ≠ PyNone.
Proof. unfold stored. destruct (String.eqb v "--"); discriminate. Qed.

Section values.

Variable invoke : string → list string → res (gmap string pyval * list string).
Variable p : ArgumentParser.

Hypothesis Hplain : plain_options p = true.

(** What a [store] action does with one argument string. *)
Lemma take_action_stored a act v st st1 :
  _actions p !! a = Some act → class act = _StoreAction →
  take_action invoke p a [v] st = Ok st1 →
  namespace st1 = match dest act with
                  | Some d' => <[d' := stored v]> (namespace st)
                  | None => namespace st
                  end.
Proof.
  intros Ha Hc H. apply take_action_Ok in H as [[Hn _]|(act' & val & Ha' & Hv & _ & Hcall & _)];
    [congruence|].
  assert (act' = act) as -> by congruence.
  unfold _get_values in Hv. rewrite Hc in Hv. cbn [remove_dashes] in Hv.
  unfold call in Hcall. rewrite Hc in Hcall. injection Hcall as <-.
  unfold stored. destruct (String.eqb v "--"); injection Hv as <-; reflexivity.
Qed.

(** What a [store_const] action does. *)
Lemma take_action_const_value a act c args st st1 :
  _actions p !! a = Some act → class act = _StoreConstAction c →
  take_action invoke p a args st = Ok st1 →
  namespace st1 = match dest act with
                  | Some d' => <[d' := c]> (namespace st)
                  | None => namespace st
                  end.
Proof.
  intros Ha Hc H. apply take_action_Ok in H as [[Hn _]|(act' & val & Ha' & _ & _ & Hcall & _)];
    [congruence|].
  assert (act' = act) as -> by congruence.
  unfold call in Hcall. rewrite Hc in Hcall. injection Hcall as <-. reflexivity.
Qed.

(** One option string of a plain parser that is taken: a [store] action
    with the value attached or with the argument string that follows, or a
    [store_const] action. *)
Lemma consume_optional_value a o e s following st st1 n :
  In (o, a) (_option_string_actions p) →
  consume_optional invoke p (Some a, o, e) s following st = Ok (st1, n) →
  ∃ act, _actions p !! a = Some act
    ∧ ((class act = _StoreAction
        ∧ ∃ v, take_action invoke p a [v] st = Ok st1
               ∧ ((e = Some v ∧ n = 0%nat)
                  ∨ (e = None ∧ n = 1%nat ∧ ∃ rest, following = (v, pat_A) :: rest)))
       ∨ ((∃ c, class act = _StoreConstAction c)
          ∧ e = None ∧ n = 0%nat ∧ take_action invoke p a [] st = Ok st1)).
Proof.
  intros Hin H. destruct (plain_class p Hplain o a Hin) as (act & Ha & Hclass).
  exists act. split; [exact Ha|].
  assert (Hhelp : class act = _HelpAction →
                  ∀ args st2, take_action invoke p a args st ≠ Ok st2).
  { intros Hc args st2 Hta.
    destruct (take_action_help invoke p a args st) as [ex Hex]; [|congruence].
    unfold is_help. rewrite Ha. simpl. rewrite Hc. reflexivity. }
  destruct e as [e|]; cbn [consume_optional] in H.
  - apply bind_Ok in H as ([tuples k] & Hce & H).
    apply bind_Ok in H as (st' & Hta & [= <- <-]).
    apply consume_explicit_first in Hce as [(Hc & -> & ->)|(Hc & Hdash & more & ->)].
    + left. rewrite Ha in Hc. simpl in Hc. injection Hc as Hc. split; [exact Hc|].
      exists e. cbn [take_actions] in Hta. apply bind_Ok in Hta as (st2 & Hta & [= <-]).
      split; [exact Hta|]. left. auto.
    + exfalso. cbn [take_actions] in Hta. apply bind_Ok in Hta as (st2 & Hta & _).
      destruct Hclass as [Hcl|[Hcl|[_ Hcl]]].
      * rewrite Ha in Hc. simpl in Hc. rewrite Hcl in Hc. congruence.
      * eapply Hhelp; eassumption.
      * congruence.
  - apply bind_Ok in H as (k & Hk & H).
    apply bind_Ok in H as (st' & Hta & [= <- <-]).
    unfold _match_argument in Hk. rewrite Ha in Hk. simpl in Hk.
    destruct Hclass as [Hcl|[Hcl|[[c Hcl] _]]]; rewrite Hcl in Hk.
    + left. split; [exact Hcl|].
      destruct following as [|[x [| |tup]] rest]; try discriminate.
      injection Hk as <-. exists x. split; [exact Hta|]. right. eauto.
    + exfalso. eapply Hhelp; eassumption.
    + right. injection Hk as <-. split; [eauto|]. auto.
Qed.


Variable d : string.
Hypothesis Honly : only_stores p d = true.

Lemma stores_dest a act :
  _actions p !! a = Some act → class act = _StoreAction →
  stores p a d = match dest act with Some d' => String.eqb d' d | None => false end.
Proof. intros Ha Hc. unfold stores. rewrite Ha, Hc. reflexivity. Qed.

Lemma stores_const a act c :
  _actions p !! a = Some act → class act = _StoreConstAction c → stores p a d = false.
Proof. intros Ha Hc. unfold stores. rewrite Ha, Hc. reflexivity. Qed.

(** A [store_const] action does not write [d]. *)
Lemma const_other_dest a act c :
  _actions p !! a = Some act → class act = _StoreConstAction c → dest act ≠ Some d.
Proof.
  intros Ha Hc Hd. pose proof Honly as H. unfold only_stores in H.
  rewrite forallb_forall in H. specialize (H act).
  rewrite Hc, Hd, String.eqb_refl in H. discriminate H.
  apply list_elem_of_In. eapply list_elem_of_lookup_2. exact Ha.
Qed.

Lemma last_given v l (x : option pyval) :
  match last (v :: l) with Some w => Some (stored w) | None => x end
  = match last l with Some w => Some (stored w) | None => Some (stored v) end.
Proof. rewrite last_cons. destruct (last l); reflexivity. Qed.

(** After a successful run of the loop, the attribute [d] holds what was
    stored for the last value given to it, or what it held before. *)
Lemma plain_consume_given toks : ∀ st st',
  Forall (λ tok, valid_pat p tok.2) toks → positionals st = [] →
  consume invoke p toks st = Ok st' →
  namespace st' !! d
  = match last (given p d toks) with
    | Some v => Some (stored v)
    | None => namespace st !! d
    end.
Proof.
  remember (List.length toks) as n eqn:Hn.
  assert (Hle : (List.length toks <= n)%nat) by lia. clear Hn.
  revert toks Hle. induction n as [|n IH]; intros toks Hle st st' Hvalid Hpos.
  { destruct toks; [|simpl in Hle; lia]. intros [= <-]. reflexivity. }
  destruct toks as [|[s pat] rest]; [intros [= <-]; reflexivity|]. simpl in Hle.
  inversion Hvalid as [|? ? Hv Hvalid']; subst.
  assert (Hskip : consume invoke p rest (add_extras [s] st) = Ok st' →
                  namespace st' !! d
                  = match last (given p d rest) with
                    | Some v => Some (stored v)
                    | None => namespace st !! d
                    end).
  { intros H. apply (IH rest) in H; [exact H|lia|assumption|assumption]. }
  destruct pat as [| |[[[a|] o] e]].
  - cbn [consume given]. unfold consume_positionals. rewrite Hpos. exact Hskip.
  - cbn [consume given]. unfold consume_positionals. rewrite Hpos. exact Hskip.
  - intros H. cbn [consume] in H. apply bind_Ok in H as ([st1 k] & Hopt & H).
    simpl in Hv.
    apply (consume_optional_value a o e s rest st st1 k Hv) in Hopt
      as (act & Ha & [(Hc & v & Hta & Hcase)|((c & Hc) & -> & -> & Hta)]).
    + pose proof (take_action_positionals _ _ _ _ _ _ Hta) as Hpos1.
      rewrite Hpos in Hpos1.
      pose proof (take_action_stored a act v st st1 Ha Hc Hta) as Hns.
      assert (Hstep : ∀ rest', (List.length rest' <= n)%nat →
                Forall (λ tok, valid_pat p tok.2) rest' →
                consume invoke p rest' st1 = Ok st' →
                namespace st' !! d
                = match last (if stores p a d then v :: given p d rest'
                              else given p d rest') with
                  | Some w => Some (stored w)
                  | None => namespace st !! d
                  end).
      { intros rest' Hlen Hval Hcons.
        rewrite (IH rest' Hlen st1 st' Hval Hpos1 Hcons).
        rewrite (stores_dest a act Ha Hc), Hns.
        destruct (dest act) as [d'|]; [|reflexivity].
        destruct (String.eqb_spec d' d) as [->|Hne].
        - rewrite last_given, lookup_insert_eq. reflexivity.
        - rewrite lookup_insert_ne by exact Hne. reflexivity. }
      destruct Hcase as [[-> ->]|(-> & -> & rest' & ->)].
      * cbn [given]. apply Hstep; [lia|assumption|exact H].
      * cbn [given]. inversion Hvalid'; subst.
        apply Hstep; [simpl in Hle; lia|assumption|exact H].
    + pose proof (take_action_positionals _ _ _ _ _ _ Hta) as Hpos1.
      rewrite Hpos in Hpos1.
      cbn [given]. rewrite (stores_const a act c Ha Hc).
      rewrite (IH rest) with (st := st1) (st' := st'); [|lia|assumption..].
      rewrite (take_action_const_value a act c [] st st1 Ha Hc Hta).
      pose proof (const_other_dest a act c Ha Hc) as Hd.
      destruct (dest act) as [d'|]; [|reflexivity].
      rewrite lookup_insert_ne by congruence. reflexivity.
  - cbn [consume consume_optional mbind res_bind given]. exact Hskip.
Qed.

(** The attribute [d] of an accepted command line: what was stored for the
    last value given to it, or its default. *)
Lemma accepted_value args ns ex :
  plain p = true → d ≠ _UNRECOGNIZED_ARGS_ATTR →
  parse_known_args invoke p args = Ok (ns, ex) →
  ns !! d = match last (values p d args) with
            | Some v => Some (stored v)
            | None => defaults p !! d
            end.
Proof.
  intros Hp Hd H. apply andb_true_iff in Hp as [_ Hpos].
  apply parse_known_args_Ok in H as (toks & st & Hcls & Hcons & _ & _ & Hns & _).
  rewrite (Hns d Hd). unfold values. rewrite Hcls.
  apply (plain_consume_given toks (initial p (defaults p)) st).
  - eapply classify_valid. eassumption.
  - simpl. destruct (_get_positional_actions p); [reflexivity|discriminate].
  - exact Hcons.
Qed.

End values.

End ValueFacts.

Import ValueFacts.

(** ** The identifier and the action *)

Module IdentifierFacts.

Section seen.

Variable invoke : string → list string → res (gmap string pyval * list string).
Variable p : ArgumentParser.

Lemma steps_seen_mono a st st' :
  steps invoke p st st' →
  a ∈ seen_non_default_actions st → a ∈ seen_non_default_actions st'.
Proof.
  apply (steps_invariant invoke p (λ st, a ∈ seen_non_default_actions st));
    try (intros; assumption).
  intros a0 args st0 st1 H0 Hta.
  apply take_action_written in Hta as [[_ ->]|(act & _ & -> & _)]; [assumption|].
  apply elem_of_union_r. exact H0.
Qed.

(** Once an action with destination [d] has been seen, the attribute [d]
    holds a value written by one of the actions that were seen. *)
Lemma steps_written_seen d (V : pyval → Prop) st st' :
  Forall (λ act, ∀ choices, class act ≠ _SubParsersAction choices) (_actions p) →
  steps invoke p st st' →
  (∀ a act,
     a ∈ seen_non_default_actions st' → _actions p !! a = Some act →
     dest act = Some d →
     match class act with
     | _StoreAction => ∀ v, v ≠ PyNone → V v
     | _StoreConstAction const => V const
     | _ => True
     end) →
  ((∃ a, a ∈ seen_non_default_actions st ∧ has_dest p a d) →
   ∃ v, namespace st !! d = Some v ∧ V v) →
  (∃ a, a ∈ seen_non_default_actions st' ∧ has_dest p a d) →
  ∃ v, namespace st' !! d = Some v ∧ V v.
Proof.
  intros Hsub Hsteps.
  induction Hsteps as [st|a args st st1 st2 Hta Hsteps IH
                      |l st st2 Hsteps IH|l st st2 Hsteps IH];
    intros Hgood Hpre; [exact Hpre|..]; try (apply IH; assumption).
  apply IH; [exact Hgood|]. intros (a0 & Ha0 & Hd0).
  pose proof Hta as Hta'.
  apply take_action_written in Hta as [[_ ->]|(act & Ha & Hnd & _ & Hns)];
    [apply Hpre; eauto|].
  assert (Hseen : a ∈ seen_non_default_actions st2).
  { eapply steps_seen_mono; [exact Hsteps|].
    rewrite Hnd. apply elem_of_union_l, elem_of_singleton. reflexivity. }
  rewrite Forall_forall in Hsub.
  pose proof (Hsub act (list_elem_of_lookup_2 _ _ _ Ha)) as Hnosub.
  assert (Hother : dest act ≠ Some d → namespace st1 !! d = namespace st !! d →
                   ∃ v, namespace st1 !! d = Some v ∧ V v).
  { intros Hne ->. apply Hpre. exists a0. split; [|assumption].
    rewrite Hnd, elem_of_union, elem_of_singleton in Ha0.
    destruct Ha0 as [->|?]; [|assumption].
    destruct Hd0 as (act' & Ha' & Hd'). congruence. }
  specialize (Hgood a act Hseen Ha).
  destruct (class act) eqn:Hc.
  - destruct (dest act) as [d'|] eqn:Hd.
    + destruct Hns as (v & Hv & Hns). destruct (decide (d' = d)) as [->|Hne].
      * exists v. rewrite Hns, lookup_insert_eq. split; [reflexivity|].
        apply Hgood; [reflexivity|exact Hv].
      * apply Hother; [congruence|]. rewrite Hns. apply lookup_insert_ne. assumption.
    + apply Hother; [discriminate|]. rewrite Hns. reflexivity.
  - destruct (dest act) as [d'|] eqn:Hd.
    + destruct (decide (d' = d)) as [->|Hne].
      * exists const. rewrite Hns, lookup_insert_eq. split; [reflexivity|].
        apply Hgood. reflexivity.
      * apply Hother; [congruence|]. rewrite Hns. apply lookup_insert_ne. assumption.
    + apply Hother; [discriminate|]. rewrite Hns. reflexivity.
  - contradiction.
  - exfalso. eapply Hnosub. reflexivity.
Qed.

End seen.

(** The action of an accepted Status command is the one of [--start] and
    [--stop] that was supplied. *)
Lemma status_action_supplied rest ns ex :
  parse_known_args no_subparsers parser_status rest = Ok (ns, ex) →
  xorb (supplied parser_status 1 rest) (supplied parser_status 2 rest) = true
  ∧ ns !! "vbox_vm_action"
    = Some (PyStr (if supplied parser_status 1 rest then "start" else "stop")).
Proof.
  intros Hok.
  destruct (accepted_valid no_subparsers parser_status status_plain rest ns ex Hok)
    as [Hm Hc].
  rewrite status_missing in Hm. rewrite status_conflicting in Hc.
  apply orb_false_elim in Hm as [Hm _]. apply orb_false_elim in Hc as [Hc _].
  assert (Hx : xorb (supplied parser_status 1 rest) (supplied parser_status 2 rest) = true).
  { destruct (supplied parser_status 1 rest), (supplied parser_status 2 rest);
      try discriminate; reflexivity. }
  split; [exact Hx|].
  apply parse_known_args_Ok in Hok as (toks & st & Hcls & Hcons & _ & _ & Hns & _).
  rewrite (Hns "vbox_vm_action") by discriminate.
  pose proof (plain_seen_supplied no_subparsers parser_status rest toks st
                status_plain Hcls Hcons) as Hseen.
  destruct (steps_written_seen no_subparsers parser_status "vbox_vm_action"
              (λ v, v = PyStr (if supplied parser_status 1 rest then "start" else "stop"))
              (initial parser_status (defaults parser_status)) st)
    as (v & Hv & ->).
  - repeat (apply Forall_cons_2; [discriminate|]). apply Forall_nil_2.
  - eapply consume_steps. exact Hcons.
  - intros a act Ha Hact Hd. apply Hseen in Ha.
    destruct a as [|[|[|[|[|a]]]]]; simpl in Hact; try discriminate;
      injection Hact as <-; try discriminate Hd; simpl.
    + rewrite Ha. reflexivity.
    + rewrite Ha in Hx. destruct (supplied parser_status 1 rest); [discriminate|reflexivity].
  - simpl. intros (? & H & _). apply not_elem_of_empty in H. contradiction.
  - destruct (supplied parser_status 1 rest) eqn:H1.
    + exists 1%nat. split; [apply Hseen; exact H1|]. eexists. split; reflexivity.
    + exists 2%nat. split; [apply Hseen; simpl in Hx; exact Hx|].
      eexists. split; reflexivity.
  - exact Hv.
Qed.

Lemma only_stores_delete : only_stores parser_delete "vbox_vm_identifier" = true.
Proof. reflexivity. Qed.
Lemma only_stores_info : only_stores parser_info "vbox_vm_identifier" = true.
Proof. reflexivity. Qed.
Lemma only_stores_status : only_stores parser_status "vbox_vm_identifier" = true.
Proof. reflexivity. Qed.

(** The values given with [--name] and [--uuid] in the two ways of writing
    them: the argument string that follows the option string, and the text
    attached to it with [=]. *)
Lemma values_following sp o v :
  In sp [parser_delete; parser_info; parser_status] →
  o = "--name" ∨ o = "--uuid" → Str.startswith v "-" = false →
  values sp "vbox_vm_identifier" [o; v] = [v].
Proof.
  intros Hsp Ho Hv.
  assert (Hd : String.eqb v "--" = false).
  { destruct v as [|c v]; [reflexivity|]. simpl in Hv |- *.
    rewrite andb_true_r in Hv. rewrite Hv. reflexivity. }
  assert (Hp : _parse_optional sp v = Ok None).
  { destruct v as [|c v]; [reflexivity|]. simpl in Hv |- *.
    rewrite andb_true_r in Hv. rewrite orb_false_r, Hv. reflexivity. }
  unfold values. simpl in Hsp.
  destruct Hsp as [<-|[<-|[<-|[]]]]; destruct Ho as [-> | ->];
    cbn [classify];
    match goal with
    | |- context [String.eqb ?o "--"] =>
        match o with
        | v => fail 1
        | _ => change (String.eqb o "--") with false
        end
    end;
    match goal with
    | |- context [_parse_optional ?sp ?o] =>
        match o with
        | v => fail 1
        | _ => let r := eval vm_compute in (_parse_optional sp o) in
               change (_parse_optional sp o) with r
        end
    end;
    rewrite Hd, Hp; reflexivity.
Qed.

Lemma values_attached sp o v :
  In sp [parser_delete; parser_info; parser_status] →
  o = "--name" ∨ o = "--uuid" →
  values sp "vbox_vm_identifier" [o +:+ "=" +:+ v] = [v].
Proof.
  intros Hsp Ho. simpl in Hsp.
  destruct Hsp as [<-|[<-|[<-|[]]]]; destruct Ho as [-> | ->]; reflexivity.
Qed.

(** The identifier of an accepted command line is what was stored for the
    last value given with [--name] or [--uuid]. *)
Lemma identifier_value sub sp rest ns :
  In (sub, sp) [("delete", parser_delete); ("info", parser_info);
                ("status", parser_status)] →
  parse (sub :: rest) = Ok ns →
  ns !! "vbox_vm_identifier"
  = match last (values sp "vbox_vm_identifier" rest) with
    | Some v => Some (stored v)
    | None => Some PyNone
    end.
Proof.
  intros Hin Hp.
  assert (Hsub : In (sub, sp) subparsers).
  { simpl in Hin |- *. tauto. }
  rewrite (parse_subcommand sub sp rest Hsub) in Hp.
  destruct (parse_known_args no_subparsers sp rest) as [[ns' [|? ?]]|] eqn:Hk;
    try discriminate.
  injection Hp as ->. simpl in Hin.
  destruct Hin as [[= <- <-]|[[= <- <-]|[[= <- <-]|[]]]].
  - apply (accepted_value no_subparsers parser_delete eq_refl
             "vbox_vm_identifier" only_stores_delete rest ns [] delete_plain);
      [discriminate|exact Hk].
  - apply (accepted_value no_subparsers parser_info eq_refl
             "vbox_vm_identifier" only_stores_info rest ns [] info_plain);
      [discriminate|exact Hk].
  - apply (accepted_value no_subparsers parser_status eq_refl
             "vbox_vm_identifier" only_stores_status rest ns [] status_plain);
      [discriminate|exact Hk].
Qed.

(** Delete and Status: the identifier was given. *)
Lemma identifier_given sub sp rest ns :
  In (sub, sp) [("delete", parser_delete); ("status", parser_status)] →
  parse (sub :: rest) = Ok ns →
  ∃ v, last (values sp "vbox_vm_identifier" rest) = Some v
       ∧ ns !! "vbox_vm_identifier" = Some (stored v).
Proof.
  intros Hin Hp.
  assert (Hv : ns !! "vbox_vm_identifier"
               = match last (values sp "vbox_vm_identifier" rest) with
                 | Some v => Some (stored v)
                 | None => Some PyNone
                 end).
  { apply (identifier_value sub sp rest ns); [simpl in Hin |- *; tauto|exact Hp]. }
  assert (Hset : ∃ v, ns !! "vbox_vm_identifier" = Some v ∧ v ≠ PyNone).
  { assert (Hsub : In (sub, sp) subparsers) by (simpl in Hin |- *; tauto).
    rewrite (parse_subcommand sub sp rest Hsub) in Hp.
    destruct (parse_known_args no_subparsers sp rest) as [[ns' [|? ?]]|] eqn:Hk;
      try discriminate.
    injection Hp as ->. simpl in Hin.
    destruct Hin as [[= <- <-]|[[= <- <-]|[]]].
    - destruct (accepted_valid no_subparsers parser_delete delete_plain rest ns [] Hk)
        as [Hm _].
      rewrite delete_missing in Hm. apply negb_false_iff, orb_true_iff in Hm.
      destruct Hm as [Hm|Hm];
        [apply (accepted_written no_subparsers parser_delete delete_plain rest ns [] Hk
                  _ _ 1%nat delete_writes)
        |apply (accepted_written no_subparsers parser_delete delete_plain rest ns [] Hk
                  _ _ 2%nat delete_writes)];
        try assumption; try discriminate; eexists; split; reflexivity.
    - destruct (accepted_valid no_subparsers parser_status status_plain rest ns [] Hk)
        as [Hm _].
      rewrite status_missing in Hm. apply orb_false_elim in Hm as [_ Hm].
      apply negb_false_iff, orb_true_iff in Hm.
      destruct Hm as [Hm|Hm];
        [apply (accepted_written no_subparsers parser_status status_plain rest ns [] Hk
                  _ _ 3%nat status_writes_identifier)
        |apply (accepted_written no_subparsers parser_status status_plain rest ns [] Hk
                  _ _ 4%nat status_writes_identifier)];
        try assumption; try discriminate; eexists; split; reflexivity. }
  destruct (last (values sp "vbox_vm_identifier" rest)) as [v|].
  - exists v. auto.
  - destruct Hset as (v & Hv' & Hne). congruence.
Qed.

Section typeerror.

Variable exec : list string → option Z.

Lemma subprocess_run_TypeError args :
  all_str args = None → subprocess_run exec args = ([], inr TypeError).
Proof. intros H. unfold subprocess_run. rewrite H. reflexivity. Qed.

Lemma opt_delete_list args l :
  args !! "vbox_vm_identifier" = Some (PyList l) →
  opt_delete exec args = ([], inr TypeError).
Proof.
  intros H. unfold opt_delete, getattr. rewrite H, M_ret_bind.
  apply subprocess_run_TypeError. reflexivity.
Qed.

Lemma opt_info_list args l :
  args !! "vbox_vm_identifier" = Some (PyList l) →
  opt_info exec args = ([], inr TypeError).
Proof.
  intros H. unfold opt_info, getattr. rewrite H, M_ret_bind. cbn [is_not_None].
  apply subprocess_run_TypeError. reflexivity.
Qed.

Lemma opt_status_list args l action :
  action = "start" ∨ action = "stop" →
  args !! "vbox_vm_action" = Some (PyStr action) →
  args !! "vbox_vm_identifier" = Some (PyList l) →
  opt_status exec args = ([], inr TypeError).
Proof.
  intros Hact Ha H. unfold opt_status, getattr. rewrite Ha, M_ret_bind.
  destruct Hact as [-> | ->]; cbn [eq_str String.eqb Ascii.eqb Bool.eqb andb];
    rewrite H, M_ret_bind; apply subprocess_run_TypeError; reflexivity.
Qed.

Lemma run_script_TypeError sys_argv :
  main exec sys_argv = ([], inr TypeError) →
  run_script exec sys_argv = ([Write stderr (traceback TypeError)], 1%Z).
Proof. intros H. unfold run_script. rewrite H. reflexivity. Qed.

End typeerror.

End IdentifierFacts.

Import IdentifierFacts.

(** ** Delete, Info and Status *)










(** ** The action of Status *)

Lemma subprocess_run_silent exec args : written stdout (subprocess_run exec args).1 = [].
Proof.
  destruct (all_str args) as [cmd|] eqn:H.
  - rewrite (subprocess_run_eq exec args cmd H). reflexivity.
  - unfold subprocess_run. rewrite H. reflexivity.
Qed.

(** C10.  Every namespace the status sub-parser produces has the action
    ['start'] or ['stop'], so [opt_status] never reaches the branch that
    prints the placeholder message: it prints nothing. *)
Theorem status_action_is_start_or_stop rest ns ex :
  parse_known_args no_subparsers parser_status rest = Ok (ns, ex) →
  (ns !! "vbox_vm_action" = Some (PyStr "start")
   ∨ ns !! "vbox_vm_action" = Some (PyStr "stop"))
  ∧ ∀ exec, written stdout (opt_status exec ns).1 = [].
Proof.
  intros Hok.
  assert (Ha : ns !! "vbox_vm_action" = Some (PyStr "start")
               ∨ ns !! "vbox_vm_action" = Some (PyStr "stop")).
  { destruct (accepted_valid no_subparsers parser_status status_plain rest ns ex Hok)
      as [Hm _].
    rewrite status_missing in Hm. apply orb_false_elim in Hm as [Hm _].
    apply negb_false_iff, orb_true_iff in Hm.
    assert (Hw : ∃ a, supplied parser_status a rest = true
                      ∧ has_dest parser_status a "vbox_vm_action").
    { destruct Hm as [Hm|Hm]; [exists 1%nat|exists 2%nat];
        (split; [exact Hm|eexists; split; reflexivity]). }
    destruct Hw as (a & Hs & Hd).
    destruct (accepted_written no_subparsers parser_status status_plain rest ns ex Hok
                "vbox_vm_action" _ a status_writes_action) as (v & Hv & [->| ->]);
      try assumption; try discriminate; auto. }
  split; [exact Ha|]. intros exec. unfold opt_status, getattr.
  destruct Ha as [Ha|Ha]; rewrite Ha, M_ret_bind;
    cbn [eq_str String.eqb Ascii.eqb Bool.eqb andb];
    (destruct (ns !! "vbox_vm_identifier") as [v|]; [|reflexivity]);
    rewrite M_ret_bind; apply subprocess_run_silent.
Qed.

Lemma status_action_is_start_or_stop_witness :
  written stdout
    (opt_status (λ _, Some 0%Z)
       {["vbox_vm_action" := PyStr "stop"; "vbox_vm_identifier" := PyStr "vm1"]}).1
  = [].
Proof.
  apply (status_action_is_start_or_stop ["--stop"; "--name"; "vm1"]
           {["vbox_vm_action" := PyStr "stop"; "vbox_vm_identifier" := PyStr "vm1"]} []).
  vm_compute. reflexivity.
Defined.

(** ** What parsing guarantees *)

(** C8, as stated, fails: an empty identifier and an empty name are
    accepted. *)
Lemma empty_identifier_is_accepted :
  parse ["delete"; "--name"; ""] = Ok {["vbox_vm_identifier" := PyStr ""]}
  ∧ parse ["status"; "--start"; "--uuid"; ""]
    = Ok {["vbox_vm_action" := PyStr "start"; "vbox_vm_identifier" := PyStr ""]}
  ∧ parse ["create"; "--name"; ""]
    = Ok {["vbox_vm_name" := PyStr ""; "vbox_vm_groups" := PyNone;
           "vbox_vm_os" := PyNone]}.
Proof. repeat split; vm_compute; reflexivity. Qed.

(** C8, amended.  For every Delete and Status command accepted by parsing,
    exactly one of [--name] and [--uuid] was supplied and the identifier is
    set (it is not [None], but it may be empty); for every Create command
    accepted by parsing, [--name] was supplied and the name is set. *)
Theorem accepted_commands_are_identified rest ns :
  (parse ("delete" :: rest) = Ok ns →
   xorb (supplied parser_delete 1 rest) (supplied parser_delete 2 rest) = true
   ∧ ∃ v, ns !! "vbox_vm_identifier" = Some v ∧ v ≠ PyNone)
  ∧ (parse ("status" :: rest) = Ok ns →
     xorb (supplied parser_status 3 rest) (supplied parser_status 4 rest) = true
     ∧ ∃ v, ns !! "vbox_vm_identifier" = Some v ∧ v ≠ PyNone)
  ∧ (parse ("create" :: rest) = Ok ns →
     supplied parser_create 1 rest = true
     ∧ ∃ v, ns !! "vbox_vm_name" = Some v ∧ v ≠ PyNone).
Proof.
  assert (Hsub : ∀ sub sp, In (sub, sp) subparsers → parse (sub :: rest) = Ok ns →
                 parse_known_args no_subparsers sp rest = Ok (ns, [])).
  { intros sub sp Hin Hp. rewrite (parse_subcommand sub sp rest Hin) in Hp.
    destruct (parse_known_args no_subparsers sp rest) as [[ns' [|? ?]]|];
      try discriminate. congruence. }
  repeat split.
  - apply (Hsub "delete" parser_delete) in H; [|simpl; auto].
    destruct (accepted_valid no_subparsers parser_delete delete_plain rest ns [] H)
      as [Hm Hc].
    rewrite delete_missing in Hm. rewrite delete_conflicting in Hc.
    destruct (supplied parser_delete 1 rest), (supplied parser_delete 2 rest);
      try discriminate; reflexivity.
  - apply (Hsub "delete" parser_delete) in H; [|simpl; auto].
    destruct (accepted_valid no_subparsers parser_delete delete_plain rest ns [] H)
      as [Hm _].
    rewrite delete_missing in Hm. apply negb_false_iff, orb_true_iff in Hm.
    destruct Hm as [Hm|Hm];
      [apply (accepted_written no_subparsers parser_delete delete_plain rest ns [] H
                _ _ 1%nat delete_writes)
      |apply (accepted_written no_subparsers parser_delete delete_plain rest ns [] H
                _ _ 2%nat delete_writes)];
      try assumption; try discriminate; eexists; split; reflexivity.
  - apply (Hsub "status" parser_status) in H; [|simpl; auto].
    destruct (accepted_valid no_subparsers parser_status status_plain rest ns [] H)
      as [Hm Hc].
    rewrite status_missing in Hm. rewrite status_conflicting in Hc.
    apply orb_false_elim in Hm as [_ Hm]. apply orb_false_elim in Hc as [_ Hc].
    destruct (supplied parser_status 3 rest), (supplied parser_status 4 rest);
      try discriminate; reflexivity.
  - apply (Hsub "status" parser_status) in H; [|simpl; auto].
    destruct (accepted_valid no_subparsers parser_status status_plain rest ns [] H)
      as [Hm _].
    rewrite status_missing in Hm. apply orb_false_elim in Hm as [_ Hm].
    apply negb_false_iff, orb_true_iff in Hm.
    destruct Hm as [Hm|Hm];
      [apply (accepted_written no_subparsers parser_status status_plain rest ns [] H
                _ _ 3%nat status_writes_identifier)
      |apply (accepted_written no_subparsers parser_status status_plain rest ns [] H
                _ _ 4%nat status_writes_identifier)];
      try assumption; try discriminate; eexists; split; reflexivity.
  - apply (Hsub "create" parser_create) in H; [|simpl; auto].
    destruct (accepted_valid no_subparsers parser_create create_plain rest ns [] H)
      as [Hm _].
    rewrite create_missing in Hm. apply negb_false_iff in Hm. exact Hm.
  - apply (Hsub "create" parser_create) in H; [|simpl; auto].
    destruct (accepted_valid no_subparsers parser_create create_plain rest ns [] H)
      as [Hm _].
    rewrite create_missing in Hm. apply negb_false_iff in Hm.
    apply (accepted_written no_subparsers parser_create create_plain rest ns [] H
             _ _ 1%nat create_writes);
      try assumption; try discriminate; eexists; split; reflexivity.
Qed.

Lemma accepted_commands_are_identified_witness :
  xorb (supplied parser_delete 1 ["--uuid"; "abc-123"])
       (supplied parser_delete 2 ["--uuid"; "abc-123"]) = true
  ∧ ∃ v, ({["vbox_vm_identifier" := PyStr "abc-123"]} : gmap string pyval)
         !! "vbox_vm_identifier" = Some v ∧ v ≠ PyNone.
Proof.
  apply (proj1 (accepted_commands_are_identified ["--uuid"; "abc-123"]
                  {["vbox_vm_identifier" := PyStr "abc-123"]})).
  vm_compute. reflexivity.
Defined.

(** ** Command lines that are rejected *)

(** C4, as stated, fails: [delete -h] supplies neither [--name] nor
    [--uuid], yet the script prints the help text and exits with status 0. *)
Lemma delete_help_is_not_a_usage_error :
  supplied parser_delete 1 ["-h"] = false
  ∧ supplied parser_delete 2 ["-h"] = false
  ∧ run_script (λ _, Some 0%Z) ["vbox_cli.py"; "delete"; "-h"]
    = ([Write stdout help_text], 0%Z).
Proof. repeat split; vm_compute; reflexivity. Qed.

(** C4, amended.  For Delete and Status, supplying neither of [--name] and
    [--uuid], or both, ends the script before any process is spawned: with
    a usage error, or, when an argument names a help option, possibly with
    the help text and exit status 0. *)
Theorem neither_or_both_identifiers_rejected (exec : list string → option Z) script rest :
  (supplied parser_delete 1 rest = supplied parser_delete 2 rest →
   rejected exec (script :: "delete" :: rest))
  ∧ (supplied parser_status 3 rest = supplied parser_status 4 rest →
     rejected exec (script :: "status" :: rest)).
Proof.
  split; intros H.
  - apply (rejected_invalid exec script "delete" parser_delete rest); [simpl; auto|].
    rewrite delete_missing, delete_conflicting, H.
    destruct (supplied parser_delete 2 rest); reflexivity.
  - apply (rejected_invalid exec script "status" parser_status rest); [simpl; auto|].
    rewrite status_missing, status_conflicting, H.
    destruct (supplied parser_status 1 rest), (supplied parser_status 2 rest),
      (supplied parser_status 4 rest); reflexivity.
Qed.

Lemma neither_or_both_identifiers_rejected_witness :
  rejected (λ _, Some 0%Z) ["vbox_cli.py"; "delete"; "--name"; "a"; "--uuid"; "b"]
  ∧ rejected (λ _, Some 0%Z) ["vbox_cli.py"; "status"; "--start"].
Proof.
  split.
  - apply (proj1 (neither_or_both_identifiers_rejected (λ _, Some 0%Z) "vbox_cli.py"
                    ["--name"; "a"; "--uuid"; "b"])).
    vm_compute. reflexivity.
  - apply (proj2 (neither_or_both_identifiers_rejected (λ _, Some 0%Z) "vbox_cli.py"
                    ["--start"])).
    vm_compute. reflexivity.
Defined.

(** C3, as stated, fails: without any argument parsing succeeds and the
    script then ends with an uncaught [IndexError] (exit status 1, no usage
    message); and [create -h] lacks the required [--name], yet the script
    prints the help text and exits with status 0. *)
Lemma no_argument_is_not_a_usage_error :
  parse [] = Ok ∅
  ∧ run_script (λ _, Some 0%Z) ["vbox_cli.py"]
    = ([Write stderr (traceback IndexError)], 1%Z)
  ∧ supplied parser_create 1 ["-h"] = false
  ∧ run_script (λ _, Some 0%Z) ["vbox_cli.py"; "create"; "-h"]
    = ([Write stdout help_text], 0%Z).
Proof. repeat split; vm_compute; reflexivity. Qed.

(** C3, amended.  When the first argument is not the name of a sub-command,
    or a required argument (or every argument of a required group) is
    missing, or two mutually exclusive arguments are both supplied, the
    script ends before any process is started: with a usage error (usage
    and message on standard error, exit status 2), or, when an argument
    names a help option, possibly with the help text and exit status 0. *)
Theorem invalid_arguments_rejected (exec : list string → option Z) script sub rest :
  (is_subcommand sub = false → rejected exec (script :: sub :: rest))
  ∧ (∀ sp, In (sub, sp) subparsers →
           missing_required sp rest = true ∨ conflicting sp rest = true →
           rejected exec (script :: sub :: rest)).
Proof.
  split.
  - apply rejected_no_subcommand.
  - intros sp Hin Hbad. apply (rejected_invalid exec script sub sp rest Hin).
    apply orb_true_iff. exact Hbad.
Qed.

Lemma invalid_arguments_rejected_witness :
  rejected (λ _, Some 0%Z) ["vbox_cli.py"; "--name"; "vm1"]
  ∧ rejected (λ _, Some 0%Z) ["vbox_cli.py"; "create"; "--groups"; "g"]
  ∧ rejected (λ _, Some 0%Z) ["vbox_cli.py"; "status"; "--start"; "--stop"; "--name"; "a"].
Proof.
  split; [|split].
  - apply (proj1 (invalid_arguments_rejected (λ _, Some 0%Z) "vbox_cli.py"
                    "--name" ["vm1"])).
    vm_compute. reflexivity.
  - apply (proj2 (invalid_arguments_rejected (λ _, Some 0%Z) "vbox_cli.py"
                    "create" ["--groups"; "g"]) parser_create).
    + simpl. auto.
    + left. vm_compute. reflexivity.
  - apply (proj2 (invalid_arguments_rejected (λ _, Some 0%Z) "vbox_cli.py"
                    "status" ["--start"; "--stop"; "--name"; "a"]) parser_status).
    + simpl. auto 6.
    + right. vm_compute. reflexivity.
Defined.

(** ** Exit status *)

(** C2, as stated, fails: the process runs and returns 3; the exit status of
    the script is 1. *)
Lemma exit_status_is_not_the_return_code :
  run_script (λ _, Some 3%Z) ["vbox_cli.py"; "info"]
  = ([Run ["vboxmanage"; "list"; "vms"] (Some 3%Z);
      Write stderr (traceback (CalledProcessError 3 ["vboxmanage"; "list"; "vms"]))],
     1%Z).
Proof. vm_compute. reflexivity. Qed.

(** C2, amended.  Whenever the external process runs, the exit status of
    the script is 0 if the process returned 0 and 1 if it returned anything
    else; when the parser rejects the arguments with a usage error, no
    process is spawned and the exit status is 2. *)
Theorem exit_status_of_script (exec : list string → option Z) sys_argv :
  (∀ cmd returncode,
     Run cmd (Some returncode) ∈ (run_script exec sys_argv).1 →
     (run_script exec sys_argv).2 = if (returncode =? 0)%Z then 0%Z else 1%Z)
  ∧ (∀ msg,
       parse (drop 1 sys_argv) = Exit (Error msg) →
       run_script exec sys_argv
       = ([Write stderr usage_text; Write stderr (error_text msg)], 2%Z)).
Proof.
  split.
  - intros cmd rc Hin.
    destruct (parse (drop 1 sys_argv)) as [ns|e] eqn:Hp.
    + pose proof (main_shape exec sys_argv ns Hp) as Hs.
      unfold run_script in *. inversion Hs as [e He Hm|cmd0 Hm|s Hm];
        rewrite <- Hm in *; clear Hm.
      * destruct e; try (exfalso; eapply He; reflexivity);
          simpl in Hin; apply list_elem_of_singleton in Hin; discriminate.
      * unfold run_result in *. destruct (exec cmd0) as [rc0|].
        -- destruct (rc0 =? 0)%Z eqn:Hrc; simpl in Hin |- *.
           ++ apply list_elem_of_singleton in Hin. injection Hin as _ ->.
              rewrite Hrc. reflexivity.
           ++ apply elem_of_cons in Hin as [Hin|Hin].
              ** injection Hin as _ ->. rewrite Hrc. reflexivity.
              ** apply list_elem_of_singleton in Hin. discriminate.
        -- simpl in Hin. apply elem_of_cons in Hin as [Hin|Hin]; [discriminate|].
           apply list_elem_of_singleton in Hin. discriminate.
      * simpl in Hin. apply list_elem_of_singleton in Hin. discriminate.
    + rewrite (run_script_Exit exec sys_argv e Hp) in Hin.
      destruct e; simpl in Hin.
      * apply elem_of_cons in Hin as [Hin|Hin]; [discriminate|].
        apply list_elem_of_singleton in Hin. discriminate.
      * apply list_elem_of_singleton in Hin. discriminate.
  - intros msg Hp. apply (run_script_Exit exec sys_argv _ Hp).
Qed.

Lemma exit_status_of_script_witness :
  (run_script (λ _, Some 3%Z) ["vbox_cli.py"; "info"]).2 = 1%Z
  ∧ run_script (λ _, Some 3%Z) ["vbox_cli.py"; "delete"]
    = ([Write stderr usage_text;
        Write stderr (error_text (one_of_arguments_required ["--name"; "--uuid"]))],
       2%Z).
Proof.
  split.
  - apply (proj1 (exit_status_of_script (λ _, Some 3%Z) ["vbox_cli.py"; "info"])
             ["vboxmanage"; "list"; "vms"] 3%Z).
    vm_compute. apply list_elem_of_here.
  - apply (proj2 (exit_status_of_script (λ _, Some 3%Z) ["vbox_cli.py"; "delete"])).
    vm_compute. reflexivity.
Defined.

(** ** Create *)

(** C1.  The script run on [create --name vm --groups "/g1, /g2"]: the
    groups value is ["/g1, /g2"], but what follows the flag [--groups] in
    the argument list is ["/g1,"], because the command line is split on
    whitespace. *)
Theorem create_groups_value_is_split (exec : list string → option Z) :
  parse ["create"; "--name"; "vm"; "--groups"; "/g1, /g2"]
  = Ok {["vbox_vm_name" := PyStr "vm"; "vbox_vm_groups" := PyStr "/g1, /g2";
         "vbox_vm_os" := PyNone]}
  ∧ spawned (run_script exec
               ["vbox_cli.py"; "create"; "--name"; "vm"; "--groups"; "/g1, /g2"]).1
    = [["vboxmanage"; "createvm"; "--register"; "--name"; "vm";
        "--groups"; "/g1,"; "/g2"]].
Proof.
  assert (Hp : parse ["create"; "--name"; "vm"; "--groups"; "/g1, /g2"]
               = Ok {["vbox_vm_name" := PyStr "vm";
                      "vbox_vm_groups" := PyStr "/g1, /g2";
                      "vbox_vm_os" := PyNone]})
    by (vm_compute; reflexivity).
  split; [exact Hp|].
  rewrite run_script_spawned, (main_Ok exec _ _ _ _ Hp).
  cbn [String.eqb Ascii.eqb Bool.eqb andb].
  rewrite (opt_create_str exec _ "vm" (Some "/g1, /g2") None);
    vm_compute; reflexivity.
Qed.

(** C9, as stated, fails: the name ["vm "] contains whitespace and is
    forwarded as the single element ["vm"]; an os-type with whitespace is
    not forwarded at all when groups is supplied. *)
Lemma value_with_whitespace_forwarded_as_one_element :
  Str.has_space "vm " = true
  ∧ spawned (run_script (λ _, Some 0%Z) ["vbox_cli.py"; "create"; "--name"; "vm "]).1
    = [["vboxmanage"; "createvm"; "--register"; "--name"; "vm"]]
  ∧ spawned (run_script (λ _, Some 0%Z)
               ["vbox_cli.py"; "create"; "--name"; "vm"; "-g"; "g"; "-o"; "a b"]).1
    = [["vboxmanage"; "createvm"; "--register"; "--name"; "vm"; "--groups"; "g"]].
Proof. repeat split; vm_compute; reflexivity. Qed.

(** C9, amended.  Create concatenates the supplied values into one string
    and splits it on whitespace, so the name, then the groups or else the
    os-type, are forwarded as their whitespace-separated words: no element
    of the argument list holds whitespace, and a value with whitespace
    between two words gives several elements.  Delete, Info and Status
    forward the identifier as one element, whatever it holds. *)
Theorem create_forwards_words (exec : list string → option Z) :
  (∀ args name (groups os : option string),
     args !! "vbox_vm_name" = Some (PyStr name) →
     args !! "vbox_vm_groups" = Some (from_option PyStr PyNone groups) →
     args !! "vbox_vm_os" = Some (from_option PyStr PyNone os) →
     spawned (opt_create exec args).1
     = [["vboxmanage"; "createvm"; "--register"; "--name"] ++ Str.split name
        ++ match groups, os with
           | Some g, _ => "--groups" :: Str.split g
           | None, Some o => "--ostype" :: Str.split o
           | None, None => []
           end])
  ∧ (∀ value word, In word (Str.split value) → Str.has_space word = false ∧ word ≠ "")
  ∧ (∀ a c b,
       Str.isspace c = true → Str.has_word a = true → Str.has_word b = true →
       (2 <= List.length (Str.split (a +:+ String c b)))%nat)
  ∧ (∀ args id,
       args !! "vbox_vm_identifier" = Some (PyStr id) →
       spawned (opt_delete exec args).1
       = [["vboxmanage"; "unregistervm"; "--delete"; id]]
       ∧ spawned (opt_info exec args).1
         = [["vboxmanage"; "showvminfo"; "--details"; id]]
       ∧ (args !! "vbox_vm_action" = Some (PyStr "start") →
          spawned (opt_status exec args).1
          = [["vboxmanage"; "startvm"; id; "--type"; "headless"]])
       ∧ (args !! "vbox_vm_action" = Some (PyStr "stop") →
          spawned (opt_status exec args).1
          = [["vboxmanage"; "controlvm"; id; "poweroff"]])).
Proof.
  split; [|split; [|split]].
  - intros args name groups os Hn Hg Ho.
    rewrite (opt_create_str exec args name groups os Hn Hg Ho). reflexivity.
  - intros value word. apply StrFacts.split_words.
  - intros a c b Hc Ha Hb. rewrite StrFacts.split_app_space by exact Hc.
    rewrite length_app.
    pose proof (StrFacts.split_nonempty a Ha). pose proof (StrFacts.split_nonempty b Hb).
    destruct (Str.split a), (Str.split b); simpl; try congruence; lia.
  - intros args id Hid. repeat split.
    + rewrite (opt_delete_str exec args id Hid). reflexivity.
    + rewrite (opt_info_str exec args id Hid). reflexivity.
    + intros Ha. rewrite (opt_status_start exec args id Ha Hid). reflexivity.
    + intros Ha. rewrite (opt_status_stop exec args id Ha Hid). reflexivity.
Qed.

Lemma create_forwards_words_witness :
  spawned (opt_create (λ _, Some 0%Z)
             {["vbox_vm_name" := PyStr "my vm"; "vbox_vm_groups" := PyNone;
               "vbox_vm_os" := PyStr "Ubuntu_64"]}).1
  = [["vboxmanage"; "createvm"; "--register"; "--name"; "my"; "vm";
      "--ostype"; "Ubuntu_64"]].
Proof.
  apply (proj1 (create_forwards_words (λ _, Some 0%Z))
           {["vbox_vm_name" := PyStr "my vm"; "vbox_vm_groups" := PyNone;
             "vbox_vm_os" := PyStr "Ubuntu_64"]}
           "my vm" None (Some "Ubuntu_64")); vm_compute; reflexivity.
Defined.

(** * The script as a whole *)

(** ** How a run ends *)

Module OutcomeFacts.

(** *** The namespace keeps its attributes *)

Section keys.

Variable invoke : string → list string → res (gmap string pyval * list string).
Variable p : ArgumentParser.

Lemma call_keeps act v ns ns' k :
  call invoke act v ns = Ok ns' → is_Some (ns !! k) → is_Some (ns' !! k).
Proof.
  unfold call. intros H Hk. destruct (class act).
  - injection H as <-. destruct (dest act); [|assumption].
    apply lookup_insert_is_Some'. auto.
  - injection H as <-. destruct (dest act); [|assumption].
    apply lookup_insert_is_Some'. auto.
  - discriminate.
  - destruct v as [| |[|name rest]]; try (injection H as <-; assumption).
    apply bind_Ok in H as ([subns ex] & _ & H).
    assert (is_Some ((subns ∪ ns) !! k)) by (apply lookup_union_is_Some; auto).
    destruct ex; injection H as <-; [assumption|].
    apply lookup_insert_is_Some'. auto.
Qed.

Lemma steps_keeps k st st' :
  steps invoke p st st' → is_Some (namespace st !! k) → is_Some (namespace st' !! k).
Proof.
  apply (steps_invariant invoke p (λ st, is_Some (namespace st !! k)));
    try (intros; assumption).
  intros a args st0 st1 H0 Hta.
  apply take_action_Ok in Hta as [[_ ->]|(act & v & _ & _ & _ & Hcall & _)];
    [assumption|].
  eapply call_keeps; eassumption.
Qed.

(** Every attribute that has a default is in the namespace of an accepted
    command line. *)
Lemma parse_known_args_keys args ns ex k :
  parse_known_args invoke p args = Ok (ns, ex) →
  k ≠ _UNRECOGNIZED_ARGS_ATTR → is_Some (defaults p !! k) → is_Some (ns !! k).
Proof.
  intros H Hk Hd.
  apply parse_known_args_Ok in H as (toks & st & _ & Hcons & _ & _ & Hns & _).
  rewrite (Hns k Hk). apply (steps_keeps k (initial p (defaults p)) st).
  - eapply consume_steps. eassumption.
  - exact Hd.
Qed.

End keys.

(** *** How the operations end *)

Section outcomes.

Variable exec : list string → option Z.

Lemma subprocess_run_attempt args : attempt exec (subprocess_run exec args).
Proof.
  destruct (all_str args) as [cmd|] eqn:H.
  - rewrite (subprocess_run_eq exec args cmd H). apply attempt_run.
  - unfold subprocess_run. rewrite H. apply attempt_TypeError.
Qed.

Lemma getattr_attempt args name (k : pyval → M unit) :
  is_Some (args !! name) → (∀ v, attempt exec (k v)) →
  attempt exec (getattr args name ≫= k).
Proof.
  intros [v Hv] Hk. unfold getattr. rewrite Hv, M_ret_bind. apply Hk.
Qed.

Lemma str_add_attempt s v (k : string → M unit) :
  (∀ t, attempt exec (k t)) → attempt exec (str_add s v ≫= k).
Proof.
  intros Hk. destruct v; try apply attempt_TypeError.
  cbn [str_add]. rewrite M_ret_bind. apply Hk.
Qed.

Lemma opt_delete_attempt args :
  is_Some (args !! "vbox_vm_identifier") → attempt exec (opt_delete exec args).
Proof.
  intros H. apply getattr_attempt; [exact H|]. intros v. apply subprocess_run_attempt.
Qed.

Lemma opt_info_attempt args :
  is_Some (args !! "vbox_vm_identifier") → attempt exec (opt_info exec args).
Proof.
  intros H. apply getattr_attempt; [exact H|]. intros v.
  destruct (is_not_None v); apply subprocess_run_attempt.
Qed.

Lemma opt_status_attempt args :
  args !! "vbox_vm_action" = Some (PyStr "start")
  ∨ args !! "vbox_vm_action" = Some (PyStr "stop") →
  is_Some (args !! "vbox_vm_identifier") → attempt exec (opt_status exec args).
Proof.
  intros Ha Hid. unfold opt_status, getattr.
  destruct Ha as [Ha|Ha]; rewrite Ha, M_ret_bind;
    cbn [eq_str String.eqb Ascii.eqb Bool.eqb andb];
    (apply getattr_attempt; [exact Hid|]); intros v; apply subprocess_run_attempt.
Qed.

Lemma opt_create_attempt args :
  is_Some (args !! "vbox_vm_name") → is_Some (args !! "vbox_vm_groups") →
  is_Some (args !! "vbox_vm_os") → attempt exec (opt_create exec args).
Proof.
  intros Hn Hg Ho.
  apply getattr_attempt; [exact Hn|]. intros name. apply str_add_attempt. intros s.
  apply getattr_attempt; [exact Hg|]. intros groups.
  destruct (is_not_None groups).
  - rewrite M_bind_assoc. apply str_add_attempt. intros t.
    rewrite M_ret_bind. apply subprocess_run_attempt.
  - rewrite M_bind_assoc. apply getattr_attempt; [exact Ho|]. intros os.
    destruct (is_not_None os).
    + rewrite M_bind_assoc. apply str_add_attempt. intros t.
      rewrite M_ret_bind. apply subprocess_run_attempt.
    + rewrite M_ret_bind. apply subprocess_run_attempt.
Qed.

(** The action of an accepted Status command. *)
Lemma status_action rest ns ex :
  parse_known_args no_subparsers parser_status rest = Ok (ns, ex) →
  ns !! "vbox_vm_action" = Some (PyStr "start")
  ∨ ns !! "vbox_vm_action" = Some (PyStr "stop").
Proof.
  intros Hok.
  destruct (accepted_valid no_subparsers parser_status status_plain rest ns ex Hok)
    as [Hm _].
  rewrite status_missing in Hm. apply orb_false_elim in Hm as [Hm _].
  apply negb_false_iff, orb_true_iff in Hm.
  assert (Hw : ∃ a, supplied parser_status a rest = true
                    ∧ has_dest parser_status a "vbox_vm_action").
  { destruct Hm as [Hm|Hm]; [exists 1%nat|exists 2%nat];
      (split; [exact Hm|eexists; split; reflexivity]). }
  destruct Hw as (a & Hs & Hd).
  destruct (accepted_written no_subparsers parser_status status_plain rest ns ex Hok
              "vbox_vm_action" _ a status_writes_action) as (v & Hv & [->| ->]);
    try assumption; try discriminate; auto.
Qed.

(** An accepted command line names a sub-command, and its operation gets a
    namespace with every attribute it reads. *)
Lemma main_attempt script sub rest ns :
  parse (sub :: rest) = Ok ns → attempt exec (main exec (script :: sub :: rest)).
Proof.
  intros Hp. rewrite (main_Ok exec script sub rest ns Hp).
  apply parse_Ok in Hp as [[? _]|(? & sp & ? & [= <- <-] & Hin & Hk)]; [discriminate|].
  assert (Hkey : ∀ k, k ≠ _UNRECOGNIZED_ARGS_ATTR → is_Some (defaults sp !! k) →
                      is_Some (ns !! k)).
  { intros k. apply (parse_known_args_keys no_subparsers sp rest ns [] k Hk). }
  simpl in Hin.
  destruct Hin as [[= <- <-]|[[= <- <-]|[[= <- <-]|[[= <- <-]|[]]]]];
    cbn [String.eqb Ascii.eqb Bool.eqb andb].
  - apply opt_create_attempt; apply Hkey; try discriminate; eexists; reflexivity.
  - apply opt_delete_attempt; apply Hkey; try discriminate; eexists; reflexivity.
  - apply opt_info_attempt; apply Hkey; try discriminate; eexists; reflexivity.
  - apply opt_status_attempt.
    + eapply status_action. eassumption.
    + apply Hkey; try discriminate; eexists; reflexivity.
Qed.

(** Without an argument after the script name, parsing succeeds and
    [sys.argv[1]] does not exist. *)
Lemma main_no_argument sys_argv :
  (List.length sys_argv <= 1)%nat → main exec sys_argv = ([], inr IndexError).
Proof.
  intros H. destruct sys_argv as [|script [|sub rest]]; [reflexivity..|].
  simpl in H. lia.
Qed.

(** How a run of [main] ends. *)
Lemma main_cases sys_argv :
  (∃ e, parse (drop 1 sys_argv) = Exit e)
  ∨ ((List.length sys_argv <= 1)%nat ∧ main exec sys_argv = ([], inr IndexError))
  ∨ ((2 <= List.length sys_argv)%nat ∧ attempt exec (main exec sys_argv)).
Proof.
  destruct (parse (drop 1 sys_argv)) as [ns|e] eqn:Hp; [|eauto].
  right. destruct sys_argv as [|script [|sub rest]].
  - left. split; [simpl; lia|reflexivity].
  - left. split; [simpl; lia|reflexivity].
  - right. split; [simpl; lia|]. eapply main_attempt. exact Hp.
Qed.

End outcomes.

End OutcomeFacts.

Import OutcomeFacts.

(** ** The process that is started *)

Module CommandFacts.

Lemma append_assoc a b c : (a +:+ b) +:+ c = a +:+ (b +:+ c).
Proof.
  induction a as [|x a IH]; [reflexivity|].
  rewrite !StrFacts.app_cons, IH. reflexivity.
Qed.

Lemma create_words name t :
  Str.split (("vboxmanage createvm --register --name " +:+ name) +:+ t)
  = ["vboxmanage"; "createvm"; "--register"; "--name"] ++ Str.split (name +:+ t).
Proof. rewrite append_assoc. apply create_split_name. Qed.

Section spawned.

Variable exec : list string → option Z.

Lemma subprocess_run_spawned args :
  spawned (subprocess_run exec args).1
  = match all_str args with Some cmd => [cmd] | None => [] end.
Proof.
  destruct (all_str args) as [cmd|] eqn:H.
  - rewrite (subprocess_run_eq exec args cmd H). reflexivity.
  - unfold subprocess_run. rewrite H. reflexivity.
Qed.

Lemma getattr_begins verb args name (k : pyval → M unit) :
  (∀ v, begins verb (k v)) → begins verb (getattr args name ≫= k).
Proof.
  intros Hk. unfold getattr. destruct (args !! name) as [v|].
  - rewrite M_ret_bind. apply Hk.
  - left. reflexivity.
Qed.

Lemma str_add_begins verb s v (k : string → M unit) :
  (∀ t, begins verb (k (s +:+ t))) → begins verb (str_add s v ≫= k).
Proof.
  intros Hk. destruct v; try (left; reflexivity).
  cbn [str_add]. rewrite M_ret_bind. apply Hk.
Qed.

Lemma subprocess_run_begins verb tail :
  begins verb (subprocess_run exec (PyStr "vboxmanage" :: PyStr verb :: tail)).
Proof.
  unfold begins. rewrite subprocess_run_spawned. cbn [all_str].
  destruct (all_str tail) as [l|]; simpl; eauto.
Qed.

Lemma opt_delete_begins args : begins "unregistervm" (opt_delete exec args).
Proof. apply getattr_begins. intros v. apply subprocess_run_begins. Qed.

Lemma opt_info_begins args :
  begins "showvminfo" (opt_info exec args) ∨ begins "list" (opt_info exec args).
Proof.
  unfold opt_info, getattr. destruct (args !! "vbox_vm_identifier") as [v|].
  - rewrite M_ret_bind. destruct (is_not_None v); [left|right];
      apply subprocess_run_begins.
  - left. left. reflexivity.
Qed.

Lemma opt_status_begins args :
  begins "startvm" (opt_status exec args) ∨ begins "controlvm" (opt_status exec args).
Proof.
  unfold opt_status, getattr. destruct (args !! "vbox_vm_action") as [v|].
  - rewrite M_ret_bind.
    destruct (eq_str v "start"); [|destruct (eq_str v "stop")].
    + left. apply getattr_begins. intros w. apply subprocess_run_begins.
    + right. apply getattr_begins. intros w. apply subprocess_run_begins.
    + left. left. reflexivity.
  - left. left. reflexivity.
Qed.

Lemma create_run_begins name t :
  begins "createvm"
    (subprocess_run exec
       (PyStr <$> Str.split (("vboxmanage createvm --register --name " +:+ name) +:+ t))).
Proof.
  rewrite create_words. right. rewrite subprocess_run_str. simpl. eauto.
Qed.

Lemma opt_create_begins args : begins "createvm" (opt_create exec args).
Proof.
  apply getattr_begins. intros name. apply str_add_begins. intros n.
  apply getattr_begins. intros groups.
  destruct (is_not_None groups).
  - rewrite M_bind_assoc. apply str_add_begins. intros t.
    rewrite M_ret_bind. apply create_run_begins.
  - rewrite M_bind_assoc. apply getattr_begins. intros os.
    destruct (is_not_None os).
    + rewrite M_bind_assoc. apply str_add_begins. intros t.
      rewrite M_ret_bind. apply create_run_begins.
    + rewrite M_ret_bind. rewrite <- (StrFacts.app_nil_r (_ +:+ n)).
      apply create_run_begins.
Qed.

End spawned.

End CommandFacts.

Import CommandFacts.

(** ** Command lines with values left open *)

Module StepFacts.

Lemma startswith_dash_eqb v : Str.startswith v "-" = false → String.eqb v "--" = false.
Proof.
  destruct v as [|c v]; [reflexivity|]. simpl. rewrite andb_true_r.
  intros H. rewrite H. reflexivity.
Qed.

Section steps.

Variable invoke : string → list string → res (gmap string pyval * list string).
Variable p : ArgumentParser.

(** An argument string that does not start with [-] is an argument. *)
Lemma _parse_optional_positional v :
  Str.startswith v "-" = false → _parse_optional p v = Ok None.
Proof.
  destruct v as [|c v]; [reflexivity|]. simpl. rewrite andb_true_r, orb_false_r.
  intros H. rewrite H. reflexivity.
Qed.

Lemma classify_option s tup rest toks :
  String.eqb s "--" = false → _parse_optional p s = Ok (Some tup) →
  classify p false rest = Ok toks →
  classify p false (s :: rest) = Ok ((s, pat_O tup) :: toks).
Proof. intros Hs Ht Hr. cbn [classify]. rewrite Hs, Ht, Hr. reflexivity. Qed.

Lemma classify_argument v rest toks :
  Str.startswith v "-" = false → classify p false rest = Ok toks →
  classify p false (v :: rest) = Ok ((v, pat_A) :: toks).
Proof.
  intros Hv Hr. cbn [classify].
  rewrite (startswith_dash_eqb v Hv), (_parse_optional_positional v Hv), Hr.
  reflexivity.
Qed.

Lemma classify_Ok {A} args toks (f : list (string * pattern) → res A) :
  classify p false args = Ok toks → classify p false args ≫= f = f toks.
Proof. intros ->. reflexivity. Qed.

Lemma take_action_store a act d v st :
  _actions p !! a = Some act → class act = _StoreAction → dest act = Some d →
  String.eqb v "--" = false →
  List.find (λ c, bool_decide (c ∈ seen_non_default_actions st)) (action_conflicts p a)
  = None →
  take_action invoke p a [v] st = Ok (took a (<[d := PyStr v]> (namespace st)) st).
Proof.
  intros Ha Hc Hd Hv Hf. unfold take_action, _get_values, call.
  rewrite Ha, Hc. cbn [remove_dashes]. rewrite Hv. cbn [mbind res_bind].
  rewrite Hf, Hd. reflexivity.
Qed.

Lemma take_action_const a act d c st :
  _actions p !! a = Some act → class act = _StoreConstAction c → dest act = Some d →
  List.find (λ c, bool_decide (c ∈ seen_non_default_actions st)) (action_conflicts p a)
  = None →
  take_action invoke p a [] st = Ok (took a (<[d := c]> (namespace st)) st).
Proof.
  intros Ha Hc Hd Hf. unfold take_action, _get_values, call.
  rewrite Ha, Hc. cbn [remove_dashes mbind res_bind].
  rewrite Hf, Hd. reflexivity.
Qed.

(** A [store] option followed by its value. *)
Lemma consume_store s a o v rest act st st1 :
  _actions p !! a = Some act → class act = _StoreAction →
  take_action invoke p a [v] st = Ok st1 →
  consume invoke p ((s, pat_O (Some a, o, None)) :: (v, pat_A) :: rest) st
  = consume invoke p rest st1.
Proof.
  intros Ha Hc Hta. cbn [consume consume_optional]. unfold _match_argument.
  rewrite Ha. cbn [fmap option_fmap option_map list_fmap snd]. rewrite Hc.
  cbn [mbind res_bind take fst fmap list_fmap]. rewrite take_0.
  cbn [fmap list_fmap]. rewrite Hta. reflexivity.
Qed.

(** A [store] option written with its value attached. *)
Lemma consume_store_explicit s a o e rest act st st1 :
  _actions p !! a = Some act → class act = _StoreAction →
  take_action invoke p a [e] st = Ok st1 →
  consume invoke p ((s, pat_O (Some a, o, Some e)) :: rest) st
  = consume invoke p rest st1.
Proof.
  intros Ha Hc Hta. cbn [consume consume_optional].
  assert (consume_explicit p a o e rest [] = Ok ([(a, [e], o)], 0%nat)) as ->.
  { destruct e; cbn [consume_explicit]; rewrite _match_argument_explicit, Ha;
      cbn [fmap option_fmap option_map]; rewrite Hc; reflexivity. }
  cbn [mbind res_bind take_actions]. rewrite Hta. reflexivity.
Qed.

(** An option that takes no value. *)
Lemma consume_const s a o c rest act st st1 :
  _actions p !! a = Some act → class act = _StoreConstAction c →
  take_action invoke p a [] st = Ok st1 →
  consume invoke p ((s, pat_O (Some a, o, None)) :: rest) st
  = consume invoke p rest st1.
Proof.
  intros Ha Hc Hta. cbn [consume consume_optional]. unfold _match_argument.
  rewrite Ha. cbn [fmap option_fmap option_map]. rewrite Hc.
  cbn [mbind res_bind]. rewrite take_0. cbn [fmap list_fmap].
  rewrite Hta. reflexivity.
Qed.

(** A command line is accepted when its argument strings classify, the
    loop ends, and nothing required is missing. *)
Lemma parse_known_args_intro args toks st ns ex :
  classify p false args = Ok toks →
  consume invoke p toks (initial p (defaults p)) = Ok st →
  required_actions p st = [] → missing_group p st = None →
  namespace st !! _UNRECOGNIZED_ARGS_ATTR = None →
  namespace st = ns → extras st = ex →
  parse_known_args invoke p args = Ok (ns, ex).
Proof.
  intros Hcls Hcons Hreq Hgrp Hu <- <-. unfold parse_known_args, _parse_known_args.
  rewrite Hcls. cbn [mbind res_bind]. rewrite Hcons. cbn [mbind res_bind].
  rewrite Hreq, Hgrp. cbn [mbind res_bind]. rewrite Hu. reflexivity.
Qed.

End steps.

Lemma defaults_create :
  defaults parser_create
  = {["vbox_vm_name" := PyNone; "vbox_vm_groups" := PyNone; "vbox_vm_os" := PyNone]}.
Proof. reflexivity. Qed.

Lemma defaults_delete : defaults parser_delete = {["vbox_vm_identifier" := PyNone]}.
Proof. reflexivity. Qed.

Lemma defaults_info : defaults parser_info = {["vbox_vm_identifier" := PyNone]}.
Proof. reflexivity. Qed.

Lemma defaults_status :
  defaults parser_status
  = {["vbox_vm_action" := PyNone; "vbox_vm_identifier" := PyNone]}.
Proof. reflexivity. Qed.

End StepFacts.

Import StepFacts.

(** Symbolic evaluation of a sub-parser on a command line whose values are
    variables: classification, then one step of the loop per option. *)
Ltac classify_tac :=
  repeat first
    [ apply classify_argument; [assumption|]
    | eapply classify_option; [reflexivity|reflexivity|] ];
  reflexivity.

Ltac conflicts_tac := vm_compute; reflexivity.

Ltac value_tac :=
  first [ assumption | apply startswith_dash_eqb; assumption ].

Ltac consume_tac :=
  repeat first
    [ erewrite consume_store;
        [|reflexivity|reflexivity
         |eapply take_action_store;
            [reflexivity|reflexivity|reflexivity|value_tac|conflicts_tac]]
    | erewrite consume_store_explicit;
        [|reflexivity|reflexivity
         |eapply take_action_store;
            [reflexivity|reflexivity|reflexivity|value_tac|conflicts_tac]]
    | erewrite consume_const;
        [|reflexivity|reflexivity
         |eapply take_action_const;
            [reflexivity|reflexivity|reflexivity|conflicts_tac]] ];
  cbn [consume]; reflexivity.

Ltac map_tac :=
  rewrite ?defaults_create, ?defaults_delete, ?defaults_info, ?defaults_status;
  apply map_eq; intros ?;
  rewrite ?lookup_insert, ?lookup_singleton, ?lookup_empty;
  repeat case_decide; subst; try reflexivity; try congruence.

Ltac parse_known_args_tac :=
  eapply parse_known_args_intro;
  [ classify_tac | consume_tac
  | vm_compute; reflexivity | vm_compute; reflexivity | vm_compute; reflexivity
  | cbn [namespace took initial]; reflexivity | reflexivity ].

Ltac parse_tac sub sp :=
  rewrite (parse_subcommand sub sp) by (simpl; auto 6);
  match goal with
  | |- context [parse_known_args no_subparsers sp ?args] =>
      let H := fresh in
      eassert (H : parse_known_args no_subparsers sp args = Ok (_, []))
        by parse_known_args_tac;
      rewrite H; clear H; f_equal; map_tac
  end.

(** ** Help, errors and what is not accepted *)

Module HelpFacts.

Section errors.

Variable p : ArgumentParser.

(** The only error of [_parse_optional] is an ambiguous abbreviation. *)
Lemma _parse_optional_Exit s e :
  _parse_optional p s = Exit e → ∃ matches, e = Error (ambiguous_option s matches).
Proof.
  unfold _parse_optional. destruct s as [|c0 s']; [discriminate|].
  destruct (negb _) eqn:Hc0; [discriminate|].
  destruct (lookup_option p _); [discriminate|].
  destruct s' as [|c1 tail]; [discriminate|].
  destruct (_ =? 1)%nat; [discriminate|].
  destruct (if Str.contains "=" _ then _ else _); [discriminate|].
  apply negb_false_iff in Hc0.
  unfold _get_option_tuples. rewrite Hc0. cbn [andb].
  destruct (Str.contains c1 prefix_chars).
  - destruct (if Str.contains "=" _ then _ else _) as [pre expl].
    cbn [mbind res_bind].
    destruct (omap _ _) as [|t [|t' l]].
    + repeat match goal with |- context [if ?b then _ else _] => destruct b end;
        discriminate.
    + discriminate.
    + intros [= <-]. eauto.
  - cbn [mbind res_bind].
    destruct (omap _ _) as [|t [|t' l]].
    + repeat match goal with |- context [if ?b then _ else _] => destruct b end;
        discriminate.
    + discriminate.
    + intros [= <-]. eauto.
Qed.

End errors.

(** The help option of the top-level parser, met first. *)
Lemma top_help o rest :
  o = "-h" ∨ o = "--help" → parse (o :: rest) = Exit Help.
Proof.
  intros Ho. destruct (top_classify rest false) as [toks Ht].
  unfold parse, parse_args, parse_known_args, _parse_known_args.
  destruct Ho as [-> | ->].
  - erewrite (classify_Ok parser)
      by (eapply classify_option; [reflexivity|reflexivity|exact Ht]).
    reflexivity.
  - erewrite (classify_Ok parser)
      by (eapply classify_option; [reflexivity|reflexivity|exact Ht]).
    reflexivity.
Qed.

(** The help option of a sub-parser, met first. *)
Lemma sub_help sp o rest toks :
  In sp subparsers.*2 → o = "-h" ∨ o = "--help" →
  classify sp false rest = Ok toks →
  parse_known_args no_subparsers sp (o :: rest) = Exit Help.
Proof.
  intros Hsp Ho Ht. unfold parse_known_args, _parse_known_args.
  simpl in Hsp.
  destruct Hsp as [<-|[<-|[<-|[<-|[]]]]]; destruct Ho as [-> | ->];
    (erewrite classify_Ok
       by (eapply classify_option; [reflexivity|reflexivity|exact Ht]));
    reflexivity.
Qed.

Section ambiguous.

Variable p : ArgumentParser.

Lemma classify_after_dashes args : ∃ toks, classify p true args = Ok toks.
Proof.
  induction args as [|s args [toks IH]]; [eexists; reflexivity|].
  cbn [classify]. rewrite IH. eexists. reflexivity.
Qed.

(** Classification fails at the first ambiguous argument string before
    [--], and only there. *)
Lemma classify_first_ambiguous args :
  match first_ambiguous p args with
  | None => ∃ toks, classify p false args = Ok toks
  | Some (arg, matches) =>
      classify p false args = Exit (Error (ambiguous_option arg matches))
  end.
Proof.
  induction args as [|s args IH]; [eexists; reflexivity|].
  cbn [first_ambiguous classify]. destruct (String.eqb s "--").
  - destruct (classify_after_dashes args) as [toks ->]. eexists. reflexivity.
  - destruct (_parse_optional p s) as [t|e] eqn:Ht.
    + destruct (first_ambiguous p args) as [[arg ms]|].
      * rewrite IH. reflexivity.
      * destruct IH as [toks ->]. eexists. reflexivity.
    + apply _parse_optional_Exit in Ht as Hm. destruct Hm as [ms ->]. reflexivity.
Qed.

End ambiguous.

(** The help option of a sub-parser, met first: every argument string is
    classified before any action is taken, so an ambiguous one comes
    before help. *)
Lemma sub_help_first sp o rest :
  In sp subparsers.*2 → o = "-h" ∨ o = "--help" →
  parse_known_args no_subparsers sp (o :: rest)
  = match first_ambiguous sp rest with
    | None => Exit Help
    | Some (arg, matches) => Exit (Error (ambiguous_option arg matches))
    end.
Proof.
  intros Hsp Ho. pose proof (classify_first_ambiguous sp rest) as Hcls.
  destruct (first_ambiguous sp rest) as [[arg ms]|].
  - unfold parse_known_args, _parse_known_args. cbn [classify].
    assert (String.eqb o "--" = false) as -> by (destruct Ho as [-> | ->]; reflexivity).
    assert (∃ tup, _parse_optional sp o = Ok tup) as [tup ->].
    { simpl in Hsp.
      destruct Hsp as [<-|[<-|[<-|[<-|[]]]]]; destruct Ho as [-> | ->];
        eexists; reflexivity. }
    cbn [mbind res_bind]. rewrite Hcls. reflexivity.
  - destruct Hcls as [toks Hcls]. eapply sub_help; eassumption.
Qed.

(** A first argument that is no option and no sub-command. *)
Lemma parse_invalid_choice s rest :
  Str.startswith s "-" = false → is_subcommand s = false →
  parse (s :: rest) = Exit (Error (invalid_choice s)).
Proof.
  intros Hs Hsub. destruct (top_classify rest false) as [toks Ht].
  unfold parse, parse_args, parse_known_args, _parse_known_args.
  rewrite (classify_Ok parser (s :: rest) ((s, pat_A) :: toks))
    by (apply classify_argument; assumption).
  cbn [consume]. unfold consume_positionals.
  change (positionals (initial parser (defaults parser))) with [1%nat].
  cbn [fmap list_fmap snd match_PARSER]. unfold take_action.
  change (_actions parser !! 1%nat)
    with (Some {| option_strings := []; dest := None; required := false;
                  class := _SubParsersAction (subparsers.*1) |}).
  unfold _get_values. cbn [class fmap list_fmap fst].
  change (existsb (String.eqb s) _) with (is_subcommand s). rewrite Hsub.
  reflexivity.
Qed.

(** A sub-parser takes no argument without an option: a first argument
    string that is no option string is left unrecognized. *)
Lemma sub_positional sp x rest ns ex :
  plain sp = true → Str.startswith x "-" = false →
  parse_known_args no_subparsers sp (x :: rest) = Ok (ns, ex) → ex ≠ [].
Proof.
  intros Hplain Hx H.
  apply parse_known_args_Ok in H as (toks & st & Hcls & Hcons & _ & _ & _ & _ & l & ->).
  cbn [classify] in Hcls.
  rewrite (startswith_dash_eqb x Hx), (_parse_optional_positional sp x Hx) in Hcls.
  cbn [mbind res_bind] in Hcls.
  destruct (classify sp false rest) as [toks'|]; [|discriminate].
  injection Hcls as <-. cbn [consume] in Hcons. unfold consume_positionals in Hcons.
  apply andb_true_iff in Hplain as [_ Hpos].
  change (positionals (initial sp (defaults sp))) with (_get_positional_actions sp) in Hcons.
  destruct (_get_positional_actions sp); [|discriminate].
  apply consume_extras in Hcons as [l' ->]. discriminate.
Qed.

End HelpFacts.

Import HelpFacts.

(** ** Blank values *)

Module BlankFacts.
Import Str.

Lemma split_from_blank s : has_word s = false → split_from "" s = [].
Proof.
  induction s as [|c s IH]; [reflexivity|]. simpl.
  intros H. apply orb_false_elim in H as [Hc Hs]. apply negb_false_iff in Hc.
  rewrite Hc. simpl. apply IH. exact Hs.
Qed.

(** A string of whitespace only has no words. *)
Lemma split_blank s : has_word s = false → split s = [].
Proof. apply split_from_blank. Qed.

Lemma blank_no_dash s : has_word s = false → startswith s "-" = false.
Proof.
  destruct s as [|c s]; [reflexivity|]. simpl. rewrite andb_true_r.
  intros H. apply orb_false_elim in H as [Hc _]. apply negb_false_iff in Hc.
  destruct (Ascii.eqb_spec c "-") as [->|]; [discriminate|reflexivity].
Qed.

End BlankFacts.

Import BlankFacts.

(** ** The command lines of the four sub-commands *)

Module LineFacts.

Lemma delete_parse o v :
  o = "--name" ∨ o = "--uuid" → Str.startswith v "-" = false →
  parse ["delete"; o; v] = Ok {["vbox_vm_identifier" := PyStr v]}.
Proof. intros [-> | ->] Hv; parse_tac "delete" parser_delete. Qed.

Lemma delete_parse_attached o v :
  o = "--name" ∨ o = "--uuid" → String.eqb v "--" = false →
  parse ["delete"; o +:+ "=" +:+ v] = Ok {["vbox_vm_identifier" := PyStr v]}.
Proof. intros [-> | ->] Hv; parse_tac "delete" parser_delete. Qed.

Lemma info_parse o v :
  o = "--name" ∨ o = "--uuid" → Str.startswith v "-" = false →
  parse ["info"; o; v] = Ok {["vbox_vm_identifier" := PyStr v]}.
Proof. intros [-> | ->] Hv; parse_tac "info" parser_info. Qed.

Lemma info_parse_attached o v :
  o = "--name" ∨ o = "--uuid" → String.eqb v "--" = false →
  parse ["info"; o +:+ "=" +:+ v] = Ok {["vbox_vm_identifier" := PyStr v]}.
Proof. intros [-> | ->] Hv; parse_tac "info" parser_info. Qed.

Lemma status_parse f action o v args :
  (f, action) = ("--start", "start") ∨ (f, action) = ("--stop", "stop") →
  o = "--name" ∨ o = "--uuid" → Str.startswith v "-" = false →
  args = [f; o; v] ∨ args = [o; v; f] →
  parse ("status" :: args)
  = Ok {["vbox_vm_action" := PyStr action; "vbox_vm_identifier" := PyStr v]}.
Proof.
  intros [[= -> ->] | [= -> ->]] [-> | ->] Hv [-> | ->];
    parse_tac "status" parser_status.
Qed.

Lemma create_parse n :
  Str.startswith n "-" = false →
  parse ["create"; "--name"; n]
  = Ok {["vbox_vm_name" := PyStr n; "vbox_vm_groups" := PyNone;
         "vbox_vm_os" := PyNone]}.
Proof. intros Hn; parse_tac "create" parser_create. Qed.

Lemma create_parse_groups n gopt g :
  Str.startswith n "-" = false →
  gopt = "-g" ∨ gopt = "--groups" → Str.startswith g "-" = false →
  parse ["create"; "--name"; n; gopt; g]
  = Ok {["vbox_vm_name" := PyStr n; "vbox_vm_groups" := PyStr g;
         "vbox_vm_os" := PyNone]}.
Proof. intros Hn [-> | ->] Hg; parse_tac "create" parser_create. Qed.

Lemma create_parse_os n oopt os :
  Str.startswith n "-" = false →
  oopt = "-o" ∨ oopt = "--operating-system" → Str.startswith os "-" = false →
  parse ["create"; "--name"; n; oopt; os]
  = Ok {["vbox_vm_name" := PyStr n; "vbox_vm_groups" := PyNone;
         "vbox_vm_os" := PyStr os]}.
Proof. intros Hn [-> | ->] Ho; parse_tac "create" parser_create. Qed.

Lemma create_parse_both n gopt g oopt os :
  Str.startswith n "-" = false →
  gopt = "-g" ∨ gopt = "--groups" → Str.startswith g "-" = false →
  oopt = "-o" ∨ oopt = "--operating-system" → Str.startswith os "-" = false →
  parse ["create"; "--name"; n; gopt; g; oopt; os]
  = Ok {["vbox_vm_name" := PyStr n; "vbox_vm_groups" := PyStr g;
         "vbox_vm_os" := PyStr os]}.
Proof. intros Hn [-> | ->] Hg [-> | ->] Ho; parse_tac "create" parser_create. Qed.

End LineFacts.

Import LineFacts.

Module WordFacts.

Lemma word_spec v :
  word v = true →
  Str.has_space v = false ∧ v ≠ "" ∧ Str.startswith v "-" = false.
Proof.
  unfold word. rewrite !andb_true_iff, !negb_true_iff, String.eqb_neq. tauto.
Qed.

Section create.

Variable exec : list string → option Z.

(** What [create] starts, given what the parser returned. *)
Lemma create_spawned script rest name (groups os : option string) :
  parse ("create" :: rest)
  = Ok {["vbox_vm_name" := PyStr name;
         "vbox_vm_groups" := from_option PyStr PyNone groups;
         "vbox_vm_os" := from_option PyStr PyNone os]} →
  spawned (run_script exec (script :: "create" :: rest)).1
  = [["vboxmanage"; "createvm"; "--register"; "--name"] ++ Str.split name
     ++ match groups, os with
        | Some g, _ => "--groups" :: Str.split g
        | None, Some o => "--ostype" :: Str.split o
        | None, None => []
        end].
Proof.
  intros Hp. rewrite run_script_spawned, (main_Ok exec _ _ _ _ Hp).
  cbn [String.eqb Ascii.eqb Bool.eqb andb].
  rewrite (opt_create_str exec _ name groups os); reflexivity.
Qed.

End create.

End WordFacts.

Import WordFacts.


(** ** Abbreviations and repetitions *)

Module AbbrevFacts.

(** The strings of at least three characters that [long] starts with. *)
Ltac prefix_tac H o :=
  destruct o as [|? o];
  [|cbn [Str.startswith] in H;
    first [ discriminate H
          | apply andb_true_iff in H as [?%Ascii.eqb_eq H]; subst; prefix_tac H o ]].

Lemma name_abbreviations o :
  Str.startswith "--name" o = true → (3 <= String.length o)%nat →
  o = "--n" ∨ o = "--na" ∨ o = "--nam" ∨ o = "--name".
Proof.
  intros H Hlen. prefix_tac H o; simpl in Hlen; try lia; auto.
Qed.

Lemma uuid_abbreviations o :
  Str.startswith "--uuid" o = true → (3 <= String.length o)%nat →
  o = "--u" ∨ o = "--uu" ∨ o = "--uui" ∨ o = "--uuid".
Proof.
  intros H Hlen. prefix_tac H o; simpl in Hlen; try lia; auto.
Qed.

Lemma delete_parse_abbreviation long o v :
  long = "--name" ∨ long = "--uuid" →
  Str.startswith long o = true → (3 <= String.length o)%nat →
  Str.startswith v "-" = false →
  parse ["delete"; o; v] = Ok {["vbox_vm_identifier" := PyStr v]}.
Proof.
  intros [-> | ->] Ho Hlen Hv.
  - destruct (name_abbreviations o Ho Hlen) as [-> |[-> |[-> | ->]]];
      parse_tac "delete" parser_delete.
  - destruct (uuid_abbreviations o Ho Hlen) as [-> |[-> |[-> | ->]]];
      parse_tac "delete" parser_delete.
Qed.

Lemma status_parse_ambiguous o rest :
  o = "--s" ∨ o = "--st" →
  parse ("status" :: o :: rest)
  = Exit (Error (ambiguous_option o ["--start"; "--stop"])).
Proof.
  intros Ho. rewrite (parse_subcommand "status" parser_status) by (simpl; auto 6).
  unfold parse_known_args, _parse_known_args. cbn [classify].
  destruct Ho as [-> | ->]; reflexivity.
Qed.

Lemma delete_parse_twice o v w :
  o = "--name" ∨ o = "--uuid" →
  Str.startswith v "-" = false → Str.startswith w "-" = false →
  parse ["delete"; o; v; o; w] = Ok {["vbox_vm_identifier" := PyStr w]}.
Proof. intros [-> | ->] Hv Hw; parse_tac "delete" parser_delete. Qed.

End AbbrevFacts.

Import AbbrevFacts.

(** ** Every run *)

(** X1.  Whatever the command line, the only thing the script itself writes
    on standard output is the help text of [argparse]: the placeholder
    message ["//TODO: proper error handling"] of [main] and [opt_status] is
    never printed. *)
Theorem script_prints_only_help (exec : list string → option Z) sys_argv :
  written stdout (run_script exec sys_argv).1 = []
  ∨ written stdout (run_script exec sys_argv).1 = [help_text].
Proof.
  destruct (main_cases exec sys_argv) as [[e He]|[[_ Hm]|[_ Ha]]].
  - rewrite (run_script_Exit exec sys_argv e He). destruct e; auto.
  - left. unfold run_script. rewrite Hm. reflexivity.
  - left. unfold run_script. inversion Ha as [Hm|cmd Hm]; [reflexivity|].
    unfold run_result. destruct (exec cmd) as [rc|]; [destruct (rc =? 0)%Z|];
      reflexivity.
Qed.

(** X2.  Whatever the command line, the script starts at most one process,
    and that process is [vboxmanage] with the command of the sub-command
    named first: [createvm] for [create], [unregistervm] for [delete],
    [showvminfo] or [list] for [info], [startvm] or [controlvm] for
    [status].  No value on the command line changes the program or its
    command. *)
Theorem script_starts_at_most_one_vboxmanage (exec : list string → option Z) sys_argv :
  spawned (run_script exec sys_argv).1 = []
  ∨ ∃ sub verb tail,
      sys_argv !! 1%nat = Some sub ∧ In (sub, verb) vboxmanage_commands
      ∧ spawned (run_script exec sys_argv).1 = ["vboxmanage" :: verb :: tail].
Proof.
  rewrite run_script_spawned.
  destruct (parse (drop 1 sys_argv)) as [ns|e] eqn:Hp.
  - destruct sys_argv as [|script [|sub rest]]; [left; reflexivity..|].
    assert (Hb : ∀ verb, In (sub, verb) vboxmanage_commands →
                 begins verb (main exec (script :: sub :: rest)) →
                 spawned (main exec (script :: sub :: rest)).1 = []
                 ∨ ∃ sub' verb' tail,
                     (script :: sub :: rest) !! 1%nat = Some sub'
                     ∧ In (sub', verb') vboxmanage_commands
                     ∧ spawned (main exec (script :: sub :: rest)).1
                       = ["vboxmanage" :: verb' :: tail]).
    { intros verb Hin [H|[tail H]]; [left; exact H|].
      right. exists sub, verb, tail. auto. }
    cbn [drop] in Hp. pose proof (main_Ok exec script sub rest ns Hp) as Hm.
    apply parse_Ok in Hp as [[? _]|(? & sp & ? & [= <- <-] & Hin & _)]; [discriminate|].
    simpl in Hin.
    destruct Hin as [[= <- <-]|[[= <- <-]|[[= <- <-]|[[= <- <-]|[]]]]];
      cbn [String.eqb Ascii.eqb Bool.eqb andb] in Hm.
    + apply (Hb "createvm"); [simpl; auto|]. rewrite Hm. apply opt_create_begins.
    + apply (Hb "unregistervm"); [simpl; auto|]. rewrite Hm. apply opt_delete_begins.
    + destruct (opt_info_begins exec ns) as [H|H];
        [apply (Hb "showvminfo")|apply (Hb "list")]; try (simpl; auto 8; fail);
        rewrite Hm; exact H.
    + destruct (opt_status_begins exec ns) as [H|H];
        [apply (Hb "startvm")|apply (Hb "controlvm")]; try (simpl; auto 8; fail);
        rewrite Hm; exact H.
  - left. unfold main. rewrite Hp. destruct e; reflexivity.
Qed.

(** X3.  Every run of the script ends in one of seven ways: the help text
    and exit status 0; a usage error and exit status 2; one process that
    returned 0 and exit status 0; one process that returned something else,
    the traceback of [CalledProcessError] and exit status 1; one process
    that could not be started, the traceback of the [OSError] raised
    ([FileNotFoundError], [PermissionError], ...) and exit status 1; the
    traceback of [TypeError] and exit status 1, nothing started; or, only
    when no argument follows the script name, the traceback of
    [IndexError] and exit status 1.  In particular the operations never
    miss an attribute of the namespace. *)
Theorem run_ends_in_one_of_seven_ways (exec : list string → option Z) sys_argv :
  run_script exec sys_argv = ([Write stdout help_text], 0%Z)
  ∨ (∃ msg, run_script exec sys_argv
            = ([Write stderr usage_text; Write stderr (error_text msg)], 2%Z))
  ∨ (∃ cmd, exec cmd = Some 0%Z
            ∧ run_script exec sys_argv = ([Run cmd (Some 0%Z)], 0%Z))
  ∨ (∃ cmd returncode,
       exec cmd = Some returncode ∧ returncode ≠ 0%Z
       ∧ run_script exec sys_argv
         = ([Run cmd (Some returncode);
             Write stderr (traceback (CalledProcessError returncode cmd))], 1%Z))
  ∨ (∃ cmd, exec cmd = None
            ∧ run_script exec sys_argv
              = ([Run cmd None; Write stderr (traceback OSError)], 1%Z))
  ∨ run_script exec sys_argv = ([Write stderr (traceback TypeError)], 1%Z)
  ∨ ((List.length sys_argv <= 1)%nat
     ∧ run_script exec sys_argv = ([Write stderr (traceback IndexError)], 1%Z)).
Proof.
  destruct (main_cases exec sys_argv) as [[e He]|[[Hlen Hm]|[_ Ha]]].
  - rewrite (run_script_Exit exec sys_argv e He). destruct e as [msg|]; eauto.
  - do 6 right. split; [exact Hlen|]. unfold run_script. rewrite Hm. reflexivity.
  - unfold run_script. inversion Ha as [Hm|cmd Hm]; clear Ha.
    + do 5 right. left. reflexivity.
    + unfold run_result. destruct (exec cmd) as [rc|] eqn:Hrc.
      * destruct (rc =? 0)%Z eqn:H0.
        -- apply Z.eqb_eq in H0 as ->. do 2 right. left. eauto.
        -- apply Z.eqb_neq in H0. do 3 right. left. exists cmd, rc. auto.
      * do 4 right. left. eauto.
Qed.

(** X4.  The script ends with the traceback of an uncaught [IndexError]
    (exit status 1, nothing else written or started) exactly when no
    argument follows the script name: [parse_args] accepts the empty
    command line and [sys.argv[1]] does not exist. *)
Theorem index_error_iff_no_argument (exec : list string → option Z) sys_argv :
  run_script exec sys_argv = ([Write stderr (traceback IndexError)], 1%Z)
  ↔ (List.length sys_argv <= 1)%nat.
Proof.
  split.
  - intros H. destruct (main_cases exec sys_argv) as [[e He]|[[Hlen _]|[_ Ha]]].
    + rewrite (run_script_Exit exec sys_argv e He) in H. destruct e; discriminate.
    + exact Hlen.
    + unfold run_script in H. inversion Ha as [Hm|cmd Hm]; rewrite <- Hm in H.
      * discriminate.
      * unfold run_result in H.
        destruct (exec cmd) as [rc|]; [destruct (rc =? 0)%Z|]; discriminate.
  - intros H. unfold run_script. rewrite (main_no_argument exec sys_argv H).
    reflexivity.
Qed.

Lemma index_error_iff_no_argument_witness :
  run_script (λ _, Some 0%Z) ["vbox_cli.py"]
  = ([Write stderr (traceback IndexError)], 1%Z).
Proof.
  apply (proj2 (index_error_iff_no_argument (λ _, Some 0%Z) ["vbox_cli.py"])).
  simpl. lia.
Defined.

(** ** Help and rejection *)

(** X5.  When the first argument is [-h] or [--help], the script prints the
    help text and exits with status 0, whatever follows. *)
Theorem help_first_prints_help (exec : list string → option Z) script o rest :
  o = "-h" ∨ o = "--help" →
  run_script exec (script :: o :: rest) = ([Write stdout help_text], 0%Z).
Proof.
  intros Ho. apply (run_script_Exit exec (script :: o :: rest) Help).
  apply top_help. exact Ho.
Qed.

Lemma help_first_prints_help_witness :
  run_script (λ _, Some 0%Z) ["vbox_cli.py"; "--help"; "delete"; "--name"; "vm1"]
  = ([Write stdout help_text], 0%Z).
Proof.
  apply (help_first_prints_help (λ _, Some 0%Z) "vbox_cli.py" "--help"
           ["delete"; "--name"; "vm1"]).
  right. reflexivity.
Defined.

(** X6.  When [-h] or [--help] directly follows the name of a sub-command,
    the script prints the help text and exits with status 0, unless an
    argument string after it (and before any [--]) is an ambiguous
    abbreviation of options of the sub-command: then the usage error of
    the first such argument string is reported instead (exit status 2),
    since every argument string is classified before the help action is
    taken.  No process is started either way. *)
Theorem subcommand_help_prints_help (exec : list string → option Z) script sub sp o rest :
  In (sub, sp) subparsers → o = "-h" ∨ o = "--help" →
  run_script exec (script :: sub :: o :: rest)
  = match first_ambiguous sp rest with
    | None => ([Write stdout help_text], 0%Z)
    | Some (arg, matches) =>
        ([Write stderr usage_text;
          Write stderr (error_text (ambiguous_option arg matches))], 2%Z)
    end.
Proof.
  intros Hin Ho.
  pose proof (parse_subcommand sub sp (o :: rest) Hin) as Hp.
  rewrite (sub_help_first sp o rest) in Hp;
    [|apply (in_map snd) in Hin; exact Hin|exact Ho].
  destruct (first_ambiguous sp rest) as [[arg ms]|].
  - apply (run_script_Exit exec _ (Error (ambiguous_option arg ms))). exact Hp.
  - apply (run_script_Exit exec _ Help). exact Hp.
Qed.

Lemma subcommand_help_prints_help_witness :
  run_script (λ _, Some 0%Z) ["vbox_cli.py"; "status"; "-h"; "--start"]
  = ([Write stdout help_text], 0%Z)
  ∧ run_script (λ _, Some 0%Z) ["vbox_cli.py"; "status"; "-h"; "--s"]
    = ([Write stderr usage_text;
        Write stderr (error_text (ambiguous_option "--s" ["--start"; "--stop"]))], 2%Z).
Proof.
  split.
  - apply (subcommand_help_prints_help (λ _, Some 0%Z) "vbox_cli.py" "status"
             parser_status "-h" ["--start"]).
    + simpl. auto 6.
    + left. reflexivity.
  - apply (subcommand_help_prints_help (λ _, Some 0%Z) "vbox_cli.py" "status"
             parser_status "-h" ["--s"]).
    + simpl. auto 6.
    + left. reflexivity.
Defined.

(** X7.  A first argument that does not start with [-] and is not one of
    [create], [delete], [info], [status] is reported as an invalid choice:
    usage and message on standard error, exit status 2, whatever follows. *)
Theorem unknown_subcommand_is_invalid_choice (exec : list string → option Z)
    script s rest :
  Str.startswith s "-" = false → is_subcommand s = false →
  run_script exec (script :: s :: rest)
  = ([Write stderr usage_text; Write stderr (error_text (invalid_choice s))], 2%Z).
Proof.
  intros Hs Hsub. apply (run_script_Exit exec _ (Error (invalid_choice s))).
  apply parse_invalid_choice; assumption.
Qed.

Lemma unknown_subcommand_is_invalid_choice_witness :
  run_script (λ _, Some 0%Z) ["vbox_cli.py"; "remove"; "--name"; "vm1"]
  = ([Write stderr usage_text; Write stderr (error_text (invalid_choice "remove"))],
     2%Z).
Proof.
  apply (unknown_subcommand_is_invalid_choice (λ _, Some 0%Z) "vbox_cli.py" "remove"
           ["--name"; "vm1"]); reflexivity.
Defined.

(** X8.  The sub-commands take no argument without an option: when the
    name of a sub-command is directly followed by an argument string that
    does not start with [-] (as in [delete vm1]), the script is rejected
    before any process is started. *)
Theorem value_without_option_rejected (exec : list string → option Z)
    script sub x rest :
  is_subcommand sub = true → Str.startswith x "-" = false →
  rejected exec (script :: sub :: x :: rest).
Proof.
  intros Hsub Hx. apply is_subcommand_In in Hsub as [sp Hin].
  destruct (parse_not_Ok_Exit (sub :: x :: rest)) as [e He].
  - intros ns. rewrite (parse_subcommand sub sp (x :: rest) Hin).
    destruct (parse_known_args no_subparsers sp (x :: rest)) as [[ns' ex]|] eqn:H;
      [|discriminate].
    apply sub_positional in H; [|eapply subparsers_plain; eassumption|exact Hx].
    destruct ex; [contradiction|discriminate].
  - eapply rejected_Exit. exact He.
Qed.

Lemma value_without_option_rejected_witness :
  rejected (λ _, Some 0%Z) ["vbox_cli.py"; "delete"; "vm1"].
Proof.
  apply (value_without_option_rejected (λ _, Some 0%Z) "vbox_cli.py" "delete" "vm1" []);
    reflexivity.
Defined.

(** ** From the command line to the process *)

(** X9.  [delete --name v] and [delete --uuid v], for every value [v] that
    does not start with [-]: the parser returns the namespace with the
    identifier [v], and the script starts exactly
    [vboxmanage unregistervm --delete v]. *)
Theorem delete_command_line (exec : list string → option Z) script o v :
  o = "--name" ∨ o = "--uuid" → Str.startswith v "-" = false →
  parse ["delete"; o; v] = Ok {["vbox_vm_identifier" := PyStr v]}
  ∧ spawned (run_script exec [script; "delete"; o; v]).1
    = [["vboxmanage"; "unregistervm"; "--delete"; v]].
Proof.
  intros Ho Hv. pose proof (delete_parse o v Ho Hv) as Hp. split; [exact Hp|].
  rewrite run_script_spawned, (main_Ok exec _ _ _ _ Hp).
  destruct Ho as [-> | ->]; cbn [String.eqb Ascii.eqb Bool.eqb andb];
    rewrite (opt_delete_str exec _ v) by reflexivity; reflexivity.
Qed.

Lemma delete_command_line_witness :
  parse ["delete"; "--name"; "my vm"] = Ok {["vbox_vm_identifier" := PyStr "my vm"]}
  ∧ spawned (run_script (λ _, Some 0%Z) ["vbox_cli.py"; "delete"; "--name"; "my vm"]).1
    = [["vboxmanage"; "unregistervm"; "--delete"; "my vm"]].
Proof.
  apply (delete_command_line (λ _, Some 0%Z) "vbox_cli.py" "--name" "my vm").
  - left. reflexivity.
  - reflexivity.
Defined.

(** X10.  [info] alone starts exactly [vboxmanage list vms]; [info --name v]
    and [info --uuid v], for every value [v] that does not start with [-],
    start exactly [vboxmanage showvminfo --details v]. *)
Theorem info_command_line (exec : list string → option Z) script :
  spawned (run_script exec [script; "info"]).1 = [["vboxmanage"; "list"; "vms"]]
  ∧ ∀ o v,
      o = "--name" ∨ o = "--uuid" → Str.startswith v "-" = false →
      parse ["info"; o; v] = Ok {["vbox_vm_identifier" := PyStr v]}
      ∧ spawned (run_script exec [script; "info"; o; v]).1
        = [["vboxmanage"; "showvminfo"; "--details"; v]].
Proof.
  split.
  - assert (Hp : parse ["info"] = Ok {["vbox_vm_identifier" := PyNone]})
      by (vm_compute; reflexivity).
    rewrite run_script_spawned, (main_Ok exec _ _ _ _ Hp).
    cbn [String.eqb Ascii.eqb Bool.eqb andb].
    rewrite (opt_info_None exec _) by reflexivity. reflexivity.
  - intros o v Ho Hv. pose proof (info_parse o v Ho Hv) as Hp. split; [exact Hp|].
    rewrite run_script_spawned, (main_Ok exec _ _ _ _ Hp).
    destruct Ho as [-> | ->]; cbn [String.eqb Ascii.eqb Bool.eqb andb];
      rewrite (opt_info_str exec _ v) by reflexivity; reflexivity.
Qed.

Lemma info_command_line_witness :
  parse ["info"; "--uuid"; "abc-123"] = Ok {["vbox_vm_identifier" := PyStr "abc-123"]}
  ∧ spawned (run_script (λ _, Some 0%Z) ["vbox_cli.py"; "info"; "--uuid"; "abc-123"]).1
    = [["vboxmanage"; "showvminfo"; "--details"; "abc-123"]].
Proof.
  apply (proj2 (info_command_line (λ _, Some 0%Z) "vbox_cli.py") "--uuid" "abc-123").
  - right. reflexivity.
  - reflexivity.
Defined.

(** X11.  [status] with [--start] and an identifier [v] that does not start
    with [-], given as [--name v] or [--uuid v] before or after the action,
    starts exactly [vboxmanage startvm v --type headless]; with [--stop] it
    starts exactly [vboxmanage controlvm v poweroff]. *)
Theorem status_command_line (exec : list string → option Z) script o v :
  o = "--name" ∨ o = "--uuid" → Str.startswith v "-" = false →
  (∀ args,
     args = ["--start"; o; v] ∨ args = [o; v; "--start"] →
     spawned (run_script exec (script :: "status" :: args)).1
     = [["vboxmanage"; "startvm"; v; "--type"; "headless"]])
  ∧ (∀ args,
       args = ["--stop"; o; v] ∨ args = [o; v; "--stop"] →
       spawned (run_script exec (script :: "status" :: args)).1
       = [["vboxmanage"; "controlvm"; v; "poweroff"]]).
Proof.
  intros Ho Hv. split; intros args Hargs.
  - pose proof (status_parse "--start" "start" o v args (or_introl eq_refl) Ho Hv Hargs)
      as Hp.
    rewrite run_script_spawned, (main_Ok exec _ _ _ _ Hp).
    cbn [String.eqb Ascii.eqb Bool.eqb andb].
    rewrite (opt_status_start exec _ v) by reflexivity. reflexivity.
  - pose proof (status_parse "--stop" "stop" o v args (or_intror eq_refl) Ho Hv Hargs)
      as Hp.
    rewrite run_script_spawned, (main_Ok exec _ _ _ _ Hp).
    cbn [String.eqb Ascii.eqb Bool.eqb andb].
    rewrite (opt_status_stop exec _ v) by reflexivity. reflexivity.
Qed.

Lemma status_command_line_witness :
  spawned (run_script (λ _, Some 0%Z)
             ["vbox_cli.py"; "status"; "--uuid"; "abc-123"; "--stop"]).1
  = [["vboxmanage"; "controlvm"; "abc-123"; "poweroff"]].
Proof.
  apply (proj2 (status_command_line (λ _, Some 0%Z) "vbox_cli.py" "--uuid" "abc-123"
                  (or_intror eq_refl) eq_refl)
           ["--uuid"; "abc-123"; "--stop"]).
  right. reflexivity.
Defined.

(** X12.  [create] on values that are words (not empty, no whitespace, not
    starting with [-]): [--name n] alone starts
    [vboxmanage createvm --register --name n]; with [-g] or [--groups] the
    list ends with [--groups g], also when [-o] or [--operating-system] is
    given as well; with [-o] or [--operating-system] alone it ends with
    [--ostype os]. *)
Theorem create_command_line (exec : list string → option Z) script n :
  word n = true →
  spawned (run_script exec [script; "create"; "--name"; n]).1
  = [["vboxmanage"; "createvm"; "--register"; "--name"; n]]
  ∧ (∀ gopt g,
       gopt = "-g" ∨ gopt = "--groups" → word g = true →
       spawned (run_script exec [script; "create"; "--name"; n; gopt; g]).1
       = [["vboxmanage"; "createvm"; "--register"; "--name"; n; "--groups"; g]]
       ∧ ∀ oopt os,
           oopt = "-o" ∨ oopt = "--operating-system" → word os = true →
           spawned (run_script exec
                      [script; "create"; "--name"; n; gopt; g; oopt; os]).1
           = [["vboxmanage"; "createvm"; "--register"; "--name"; n; "--groups"; g]])
  ∧ (∀ oopt os,
       oopt = "-o" ∨ oopt = "--operating-system" → word os = true →
       spawned (run_script exec [script; "create"; "--name"; n; oopt; os]).1
       = [["vboxmanage"; "createvm"; "--register"; "--name"; n; "--ostype"; os]]).
Proof.
  intros (Hns & Hne & Hnd)%word_spec.
  pose proof (StrFacts.split_no_space n Hns Hne) as Hn.
  split; [|split].
  - rewrite (create_spawned exec script _ n None None (create_parse n Hnd)), Hn.
    reflexivity.
  - intros gopt g Hgopt (Hgs & Hge & Hgd)%word_spec.
    pose proof (StrFacts.split_no_space g Hgs Hge) as Hg. split.
    + rewrite (create_spawned exec script _ n (Some g) None
                 (create_parse_groups n gopt g Hnd Hgopt Hgd)), Hn, Hg.
      reflexivity.
    + intros oopt os Hoopt (_ & _ & Hod)%word_spec.
      rewrite (create_spawned exec script _ n (Some g) (Some os)
                 (create_parse_both n gopt g oopt os Hnd Hgopt Hgd Hoopt Hod)), Hn, Hg.
      reflexivity.
  - intros oopt os Hoopt (Hos & Hoe & Hod)%word_spec.
    rewrite (create_spawned exec script _ n None (Some os)
               (create_parse_os n oopt os Hnd Hoopt Hod)), Hn,
      (StrFacts.split_no_space os Hos Hoe).
    reflexivity.
Qed.

Lemma create_command_line_witness :
  spawned (run_script (λ _, Some 0%Z)
             ["vbox_cli.py"; "create"; "--name"; "vm1"; "-o"; "Ubuntu_64"]).1
  = [["vboxmanage"; "createvm"; "--register"; "--name"; "vm1"; "--ostype"; "Ubuntu_64"]].
Proof.
  apply (proj2 (proj2 (create_command_line (λ _, Some 0%Z) "vbox_cli.py" "vm1" eq_refl))
           "-o" "Ubuntu_64").
  - left. reflexivity.
  - reflexivity.
Defined.

(** X13.  A name that is empty or holds only whitespace is accepted by the
    parser of [create] and then lost when the command line is split: the
    argument list ends with [--name], or [--name] is directly followed by
    [--groups]. *)
Theorem create_blank_name_is_dropped (exec : list string → option Z) script name :
  Str.has_word name = false →
  spawned (run_script exec [script; "create"; "--name"; name]).1
  = [["vboxmanage"; "createvm"; "--register"; "--name"]]
  ∧ ∀ gopt g,
      gopt = "-g" ∨ gopt = "--groups" → word g = true →
      spawned (run_script exec [script; "create"; "--name"; name; gopt; g]).1
      = [["vboxmanage"; "createvm"; "--register"; "--name"; "--groups"; g]].
Proof.
  intros Hblank. pose proof (blank_no_dash name Hblank) as Hnd.
  pose proof (split_blank name Hblank) as Hn. split.
  - rewrite (create_spawned exec script _ name None None (create_parse name Hnd)), Hn.
    reflexivity.
  - intros gopt g Hgopt (Hgs & Hge & Hgd)%word_spec.
    rewrite (create_spawned exec script _ name (Some g) None
               (create_parse_groups name gopt g Hnd Hgopt Hgd)), Hn,
      (StrFacts.split_no_space g Hgs Hge).
    reflexivity.
Qed.

Lemma create_blank_name_is_dropped_witness :
  spawned (run_script (λ _, Some 0%Z)
             ["vbox_cli.py"; "create"; "--name"; " "; "--groups"; "/g1"]).1
  = [["vboxmanage"; "createvm"; "--register"; "--name"; "--groups"; "/g1"]].
Proof.
  apply (proj2 (create_blank_name_is_dropped (λ _, Some 0%Z) "vbox_cli.py" " " eq_refl)
           "--groups" "/g1").
  - right. reflexivity.
  - reflexivity.
Defined.

(** X14.  A value attached to its option with [=] is taken as it is,
    whatever it holds (a leading [-], whitespace, nothing at all), except
    the value [--]: [delete --name=v] starts exactly
    [vboxmanage unregistervm --delete v] and [info --name=v] exactly
    [vboxmanage showvminfo --details v], likewise for [--uuid].  The value
    [--] is stored as an empty list, and the script ends with an uncaught
    [TypeError] before any process is started. *)
Theorem attached_value_is_forwarded (exec : list string → option Z) script o :
  o = "--name" ∨ o = "--uuid" →
  (∀ v, v ≠ "--" →
        spawned (run_script exec [script; "delete"; o +:+ "=" +:+ v]).1
        = [["vboxmanage"; "unregistervm"; "--delete"; v]]
        ∧ spawned (run_script exec [script; "info"; o +:+ "=" +:+ v]).1
          = [["vboxmanage"; "showvminfo"; "--details"; v]])
  ∧ run_script exec [script; "delete"; o +:+ "=--"]
    = ([Write stderr (traceback TypeError)], 1%Z)
  ∧ run_script exec [script; "info"; o +:+ "=--"]
    = ([Write stderr (traceback TypeError)], 1%Z).
Proof.
  intros Ho. split; [|destruct Ho as [-> | ->]; split; vm_compute; reflexivity].
  intros v Hv. apply String.eqb_neq in Hv. split.
  - pose proof (delete_parse_attached o v Ho Hv) as Hp.
    rewrite run_script_spawned, (main_Ok exec _ _ _ _ Hp).
    cbn [String.eqb Ascii.eqb Bool.eqb andb].
    rewrite (opt_delete_str exec _ v) by reflexivity. reflexivity.
  - pose proof (info_parse_attached o v Ho Hv) as Hp.
    rewrite run_script_spawned, (main_Ok exec _ _ _ _ Hp).
    cbn [String.eqb Ascii.eqb Bool.eqb andb].
    rewrite (opt_info_str exec _ v) by reflexivity. reflexivity.
Qed.

Lemma attached_value_is_forwarded_witness :
  spawned (run_script (λ _, Some 0%Z) ["vbox_cli.py"; "delete"; "--name=-old vm"]).1
  = [["vboxmanage"; "unregistervm"; "--delete"; "-old vm"]].
Proof.
  pose proof (attached_value_is_forwarded (λ _, Some 0%Z) "vbox_cli.py" "--name") as H.
  destruct H as [H _]; [left; reflexivity|].
  apply (H "-old vm"). discriminate.
Defined.

(** X15.  Abbreviations of long options are accepted when they are not
    ambiguous: [delete] takes every string of at least three characters
    that [--name] or [--uuid] starts with as that option; [status] rejects
    [--s] and [--st], which [--start] and [--stop] both start with, with a
    usage error (exit status 2), whatever follows. *)
Theorem abbreviated_option_is_accepted (exec : list string → option Z) script :
  (∀ long o v,
     long = "--name" ∨ long = "--uuid" →
     Str.startswith long o = true → (3 <= String.length o)%nat →
     Str.startswith v "-" = false →
     spawned (run_script exec [script; "delete"; o; v]).1
     = [["vboxmanage"; "unregistervm"; "--delete"; v]])
  ∧ (∀ o rest,
       o = "--s" ∨ o = "--st" →
       run_script exec (script :: "status" :: o :: rest)
       = ([Write stderr usage_text;
           Write stderr (error_text (ambiguous_option o ["--start"; "--stop"]))],
          2%Z)).
Proof.
  split.
  - intros long o v Hlong Ho Hlen Hv.
    pose proof (delete_parse_abbreviation long o v Hlong Ho Hlen Hv) as Hp.
    rewrite run_script_spawned, (main_Ok exec _ _ _ _ Hp).
    cbn [String.eqb Ascii.eqb Bool.eqb andb].
    rewrite (opt_delete_str exec _ v) by reflexivity. reflexivity.
  - intros o rest Ho. apply (run_script_Exit exec _ (Error _)).
    apply status_parse_ambiguous. exact Ho.
Qed.

Lemma abbreviated_option_is_accepted_witness :
  spawned (run_script (λ _, Some 0%Z) ["vbox_cli.py"; "delete"; "--uu"; "abc-123"]).1
  = [["vboxmanage"; "unregistervm"; "--delete"; "abc-123"]].
Proof.
  apply (proj1 (abbreviated_option_is_accepted (λ _, Some 0%Z) "vbox_cli.py")
           "--uuid" "--uu" "abc-123").
  - right. reflexivity.
  - reflexivity.
  - simpl. lia.
  - reflexivity.
Defined.

(** X16.  Giving the same identifier option twice is not an error: the
    mutually exclusive group only excludes the other option, and [delete]
    uses the value given last. *)
Theorem repeated_option_last_value (exec : list string → option Z) script o v w :
  o = "--name" ∨ o = "--uuid" →
  Str.startswith v "-" = false → Str.startswith w "-" = false →
  spawned (run_script exec [script; "delete"; o; v; o; w]).1
  = [["vboxmanage"; "unregistervm"; "--delete"; w]].
Proof.
  intros Ho Hv Hw. pose proof (delete_parse_twice o v w Ho Hv Hw) as Hp.
  rewrite run_script_spawned, (main_Ok exec _ _ _ _ Hp).
  cbn [String.eqb Ascii.eqb Bool.eqb andb].
  rewrite (opt_delete_str exec _ w) by reflexivity. reflexivity.
Qed.

Lemma repeated_option_last_value_witness :
  spawned (run_script (λ _, Some 0%Z)
             ["vbox_cli.py"; "delete"; "--name"; "a"; "--name"; "b"]).1
  = [["vboxmanage"; "unregistervm"; "--delete"; "b"]].
Proof.
  apply (repeated_option_last_value (λ _, Some 0%Z) "vbox_cli.py" "--name" "a" "b").
  - left. reflexivity.
  - reflexivity.
  - reflexivity.
Defined.
